(** * AI-Telecaller-System: call handler and conversation manager

    A shallow embedding of [call_handler_org.py],
    [conversation_manager.py], [interruption_handler.py] and the query
    normalization and category fallback of
    [real_estate_knowledge_base.py], and the properties of the
    conversation / response lifecycle coordinator proved over it.

    Conventions of the embedding.
    - A Python [str] is a [string]; a character is a code point below 256,
      and the character classes ([str.isspace], [str.lower], the [\s] and
      [\w] of [re]) are Python's on that range.
    - A Python [int] is a [Z]; [len] returns a [Z].
    - A [time.time()] reading, the [Confidence] field and the
      thresholds they are compared with are exact rationals ([Q]); every
      function that reads the clock takes the reading as its argument
      [now], one reading for a call.
    - The confidence of [evaluate_follow_up_relevance] is a binary64
      [float], as in Python: the constants [0.4], [0.3], [0.2], [0.1]
      are the nearest binary64 numbers, and [+=], [>] and [min] are the
      operations of IEEE 754.
    - A [dict] used as a keyed store is a [gmap]; a [dict] used as a record
      is a [Record] whose fields are [option]s where the code tests for the
      key or reads it with [.get].
    - A method that mutates [self] takes the state and returns the new
      state next to its result.
    - An exception is modelled where the code can raise one: the lookup of
      a missing key, [float] on malformed text, the write to durable
      storage.  An [except] branch that nothing reaches is left out.
    - What the code calls and the embedding does not contain - the
      Twilio client, the language model, the pattern and close-match
      search of the knowledge base, [str.capitalize], [str] of a
      [float] - is a [Variable] of the section that uses it, so every
      property holds whatever these return. *)

From Stdlib Require Import ZArith QArith Qabs Lqa Lia Bool List Ascii String.
From Stdlib Require Import Numbers.DecimalString.
From Stdlib Require Import Floats.
From stdpp Require Import gmap strings list.

Local Open Scope string_scope.
Local Open Scope Z_scope.

(** A decimal [float] constant stands for the nearest binary64 number. *)
Set Warnings "-inexact-float".

(** ** Python primitives *)

Module Py.

(** [len(s)] for a [str]. *)
Definition len (s : string) : Z := Z.of_nat (String.length s).

(** Truth value of a [str]: non-empty. *)
Definition truthy (s : string) : bool :=
  match s with EmptyString => false | String _ _ => true end.

Definition code (c : ascii) : N := N_of_ascii c.

Definition between (lo hi n : N) : bool := ((lo <=? n) && (n <=? hi))%N.

(** [str.isspace] on one character, which is also [\s] of [re]. *)
Definition isspace (c : ascii) : bool :=
  let n := code c in
  between 9 13 n || between 28 32 n || (n =? 133)%N || (n =? 160)%N.

(** [\w] of [re]: alphanumeric or underscore. *)
Definition isword (c : ascii) : bool :=
  let n := code c in
  between 48 57 n || between 65 90 n || (n =? 95)%N || between 97 122 n
  || (n =? 170)%N || between 178 179 n || (n =? 181)%N
  || between 185 186 n || between 188 190 n
  || between 192 214 n || between 216 246 n || between 248 255 n.

(** [str.lower] on one character. *)
Definition lower_char (c : ascii) : ascii :=
  let n := code c in
  if between 65 90 n || (between 192 222 n && negb (n =? 215)%N)
  then ascii_of_N (n + 32) else c.

(** [s.lower()] *)
Fixpoint lower (s : string) : string :=
  match s with
  | EmptyString => EmptyString
  | String c s' => String (lower_char c) (lower s')
  end.

(** [s.lstrip()] *)
Fixpoint lstrip (s : string) : string :=
  match s with
  | EmptyString => EmptyString
  | String c s' => if isspace c then lstrip s' else s
  end.

(** [s.rstrip()] *)
Fixpoint rstrip (s : string) : string :=
  match s with
  | EmptyString => EmptyString
  | String c s' =>
      match rstrip s' with
      | EmptyString => if isspace c then EmptyString else String c EmptyString
      | r => String c r
      end
  end.

(** [s.strip()] *)
Definition strip (s : string) : string := lstrip (rstrip s).

(** [sub in s] for two [str]. *)
Fixpoint contains (sub s : string) : bool :=
  String.prefix sub s
  || match s with
     | EmptyString => false
     | String _ s' => contains sub s'
     end.

(** The first [n] characters of [s]. *)
Fixpoint take (n : nat) (s : string) : string :=
  match n, s with
  | S n', String c s' => String c (take n' s')
  | _, _ => EmptyString
  end.

(** [s[:stop]] *)
Definition slice_to (stop : Z) (s : string) : string :=
  if stop <? 0 then take (Z.to_nat (len s + stop)) s
  else take (Z.to_nat stop) s.

(** [l[start:]] for a list. *)
Definition slice_from {A} (start : Z) (l : list A) : list A :=
  let n := Z.of_nat (length l) in
  if start <? 0 then drop (Z.to_nat (Z.max (n + start) 0)) l
  else drop (Z.to_nat (Z.min start n)) l.

(** [sep.join(l)] *)
Fixpoint join (sep : string) (l : list string) : string :=
  match l with
  | [] => EmptyString
  | [s] => s
  | s :: l' => s +:+ sep +:+ join sep l'
  end.

(** [x < y] on two numbers read as rationals. *)
Definition Qltb (x y : Q) : bool := negb (Qle_bool y x).

(** [min(x, y)] *)
Definition Qmin (x y : Q) : Q := if Qltb y x then y else x.

(** [min(x, y)] on two [float]s: [y] when [y < x], otherwise [x]. *)
Definition fmin (x y : float) : float := if (y <? x)%float then y else x.

(** [x in l] for a list of [str]. *)
Definition str_in (x : string) (l : list string) : bool :=
  existsb (String.eqb x) l.

(** [c * n] for a one-character [str] [c]. *)
Fixpoint repeat_char (c : ascii) (n : nat) : string :=
  match n with
  | O => EmptyString
  | S n' => String c (repeat_char c n')
  end.

(** [str(n)] for an [int]. *)
Definition str_of_int (n : Z) : string := NilZero.string_of_int (Z.to_int n).

End Py.

(** ** [call_handler_org.py]: the chunker *)

Module Chunker.
Import Py.

(** Membership in the character class [[.!?]]. *)
Definition is_terminator (c : ascii) : bool :=
  let n := code c in (n =? 46)%N || (n =? 33)%N || (n =? 63)%N.

(** Where a left-to-right scan for [(?<=[.!?])\s+] stands: inside a
    separator it is consuming, or inside a sentence, remembering
    whether the character before is a terminator. *)
Inductive scan_mode :=
| InSeparator
| InSentence (after_terminator : bool).

Definition cons_head (c : ascii) (pieces : list string) : list string :=
  match pieces with
  | [] => [String c EmptyString]
  | p :: ps => String c p :: ps
  end.

(** The pieces of [s] from the scan position on; the head of the result
    is the rest of the piece the scan is in. *)
Fixpoint split_from (m : scan_mode) (s : string) : list string :=
  match s with
  | EmptyString => [EmptyString]
  | String c s' =>
      match m with
      | InSeparator =>
          if isspace c then split_from InSeparator s'
          else cons_head c (split_from (InSentence (is_terminator c)) s')
      | InSentence after =>
          if after && isspace c then EmptyString :: split_from InSeparator s'
          else cons_head c (split_from (InSentence (is_terminator c)) s')
      end
  end.

(** [re.split(r'(?<=[.!?])\s+', text)], line 536: the text is cut at
    every run of white space that follows a [.], [!] or [?]. *)
Definition split_sentences (text : string) : list string :=
  split_from (InSentence false) text.

(** One iteration of [for sentence in sentences], on the pair
    [(chunks, current_chunk)]. *)
Definition chunk_step (max_chunk_length : Z) (st : list string * string)
    (sentence : string) : list string * string :=
  let '(chunks, current_chunk) := st in
  if len current_chunk + len sentence <=? max_chunk_length then
    (chunks,
     if truthy current_chunk then current_chunk +:+ " " +:+ sentence
     else sentence)
  else
    (if truthy current_chunk then (chunks ++ [strip current_chunk])%list
     else chunks,
     sentence).

(** [CallHandler._chunk_response], lines 526-550. *)
Definition _chunk_response (response_text : string) (max_chunk_length : Z)
    : list string :=
  if len response_text <=? max_chunk_length then [response_text]
  else
    let '(chunks, current_chunk) :=
      fold_left (chunk_step max_chunk_length)
                (split_sentences response_text) ([], EmptyString) in
    if truthy current_chunk then (chunks ++ [strip current_chunk])%list
    else chunks.

(** The default of the [max_chunk_length] argument. *)
Definition default_max_chunk_length : Z := 150.

End Chunker.

(** ** Regular expressions, as [re.search] uses them *)

Module Regex.
Import Py.

Inductive regex : Type :=
| Void
| Eps
| Class (p : ascii -> bool)
| Seq (r1 r2 : regex)
| Alt (r1 r2 : regex)
| Star (r : regex).

Fixpoint nullable (r : regex) : bool :=
  match r with
  | Void => false
  | Eps => true
  | Class _ => false
  | Seq r1 r2 => nullable r1 && nullable r2
  | Alt r1 r2 => nullable r1 || nullable r2
  | Star _ => true
  end.

Definition mk_seq (r1 r2 : regex) : regex :=
  match r1, r2 with
  | Void, _ => Void
  | _, Void => Void
  | Eps, _ => r2
  | _, Eps => r1
  | _, _ => Seq r1 r2
  end.

Definition mk_alt (r1 r2 : regex) : regex :=
  match r1, r2 with
  | Void, _ => r2
  | _, Void => r1
  | _, _ => Alt r1 r2
  end.

(** The derivative of [r] by the character [c]. *)
Fixpoint deriv (c : ascii) (r : regex) : regex :=
  match r with
  | Void => Void
  | Eps => Void
  | Class p => if p c then Eps else Void
  | Seq r1 r2 =>
      mk_alt (mk_seq (deriv c r1) r2)
             (if nullable r1 then deriv c r2 else Void)
  | Alt r1 r2 => mk_alt (deriv c r1) (deriv c r2)
  | Star r1 => mk_seq (deriv c r1) (Star r1)
  end.

(** Some prefix of [s] matches [r]: [re.match(r, s)] finds a match. *)
Fixpoint match_prefix (r : regex) (s : string) : bool :=
  nullable r
  || match s with
     | EmptyString => false
     | String c s' => match_prefix (deriv c r) s'
     end.

(** Some substring of [s] matches [r]: [re.search(r, s)] finds a match. *)
Fixpoint search (r : regex) (s : string) : bool :=
  match_prefix r s
  || match s with
     | EmptyString => false
     | String _ s' => search r s'
     end.

(** The pattern syntax the source uses. *)
Definition Chr (c : ascii) : regex := Class (Ascii.eqb c).
Definition Space : regex := Class isspace.
Definition Opt (r : regex) : regex := Alt r Eps.
Definition Plus (r : regex) : regex := Seq r (Star r).
Definition Seqs (rs : list regex) : regex := fold_right Seq Eps rs.
Definition Alts (rs : list regex) : regex := fold_right Alt Void rs.
Fixpoint Lit (s : string) : regex :=
  match s with
  | EmptyString => Eps
  | String c s' => Seq (Chr c) (Lit s')
  end.

(** The first character of [s] is a word character. *)
Definition starts_with_word_char (s : string) : bool :=
  match s with
  | EmptyString => false
  | String c _ => isword c
  end.

(** The rest of [s] after the prefix [w], when [w] is a prefix of [s]. *)
Fixpoint strip_prefix (w s : string) : option string :=
  match w, s with
  | EmptyString, _ => Some s
  | String a w', String b s' =>
      if Ascii.eqb a b then strip_prefix w' s' else None
  | String _ _, EmptyString => None
  end.

(** [w] stands at the head of [s] and a word boundary follows it. *)
Definition word_here (w s : string) : bool :=
  match strip_prefix w s with
  | Some rest => negb (starts_with_word_char rest)
  | None => false
  end.

(** [re.search(r'\b(w1|w2|...)\b', s)] finds a match, for words [ws]
    made of word characters, scanning [s] with [prev_word] telling
    whether the character before is a word character. *)
Fixpoint search_words_from (prev_word : bool) (ws : list string)
    (s : string) : bool :=
  (negb prev_word && existsb (fun w => word_here w s) ws)
  || match s with
     | EmptyString => false
     | String c s' => search_words_from (isword c) ws s'
     end.

Definition search_words (ws : list string) (s : string) : bool :=
  search_words_from false ws s.

End Regex.

(** ** [call_handler_org.py]: [CallHandler] *)

Module CallHandler.
Import Py Regex Chunker.

(** *** The call termination detector *)

Definition end_call_phrases : list string :=
  [ "no"; "nope"; "no questions"; "no more questions"; "no other questions";
    "no other question"; "don't have any questions";
    "don't have any other questions";
    "i don't have any questions"; "nothing else"; "that is all"; "that's all";
    "goodbye"; "bye"; "thank you goodbye"; "thanks goodbye"; "end call";
    "hang up"; "that will be all"; "i am done"; "i'm done"; "no thanks";
    "gotta go"; "have to go"; "we re done"; "thats it"; "end this call";
    "that concludes"; "thanks for your help"; "i am finished"; "i am good";
    "that is enough"; "all set"; "i will let you go"; "good day";
    "have a good day" ].

Definition i_or_I : regex := Alt (Chr "i") (Chr "I").
Definition dont : regex :=
  Alt (Seqs [Lit "don"; Opt (Chr "'"); Lit "t"]) (Lit "do not").
Definition any_more_other : regex := Alts [Lit "any"; Lit "more"; Lit "other"].

Definition no_question_patterns : list regex :=
  [ (* no,?\s+(i|I)?\s*(don'?t|do not)?\s*have\s*(any|more|other)?\s*questions *)
    Seqs [Lit "no"; Opt (Chr ","); Plus Space; Opt i_or_I; Star Space;
          Opt dont; Star Space; Lit "have"; Star Space; Opt any_more_other;
          Star Space; Lit "questions"];
    (* (i|I)?\s*(don'?t|do not)\s*have\s*(any|more|other)?\s*questions *)
    Seqs [Opt i_or_I; Star Space; dont; Star Space; Lit "have"; Star Space;
          Opt any_more_other; Star Space; Lit "questions"];
    (* that'?s\s+(all|it) *)
    Seqs [Lit "that"; Opt (Chr "'"); Lit "s"; Plus Space;
          Alt (Lit "all") (Lit "it")];
    (* nothing\s+(else|more) *)
    Seqs [Lit "nothing"; Plus Space; Alt (Lit "else") (Lit "more")];
    (* (i|I)'?m\s+(good|done|finished|all\s+set) *)
    Seqs [i_or_I; Opt (Chr "'"); Lit "m"; Plus Space;
          Alts [Lit "good"; Lit "done"; Lit "finished";
                Seqs [Lit "all"; Plus Space; Lit "set"]]];
    (* (no|nope),?\s+(thank|thanks)\s+(you|ya) *)
    Seqs [Alt (Lit "no") (Lit "nope"); Opt (Chr ","); Plus Space;
          Alt (Lit "thank") (Lit "thanks"); Plus Space;
          Alt (Lit "you") (Lit "ya")] ].

(** The test of the first loop, for one phrase. *)
Definition phrase_matches (normalized_text phrase : string) : bool :=
  String.eqb phrase normalized_text || contains phrase normalized_text.

(** [CallHandler.is_end_of_call], lines 324-360. *)
Definition is_end_of_call (speech_text : string) : bool :=
  let normalized_text := strip (lower speech_text) in
  if existsb (phrase_matches normalized_text) end_call_phrases then true
  else if existsb (fun pattern => search pattern normalized_text)
                  no_question_patterns then true
  else false.

(** *** The active-calls store *)

(** What [_process_user_query] returns: a [str], or something else. *)
Inductive answer :=
| Text (s : string)
| NotText.

(** An entry of [conversation_history]. *)
Record message := Message { role : string; content : answer }.

(** A value of [active_calls].  [status] holds what
    [form_data.get('CallStatus')] gave, [None] included; the other
    [option]s are keys that a record may lack. *)
Record call_data := CallData {
  to_number : option string;
  status : option string;
  conversation_state : string;
  conversation_history : option (list message);
  last_activity : option Q
}.

Definition set_status (v : option string) (d : call_data) : call_data :=
  CallData (to_number d) v (conversation_state d) (conversation_history d)
           (last_activity d).
Definition set_conversation_state (v : string) (d : call_data) : call_data :=
  CallData (to_number d) (status d) v (conversation_history d)
           (last_activity d).
Definition set_conversation_history (v : list message) (d : call_data)
    : call_data :=
  CallData (to_number d) (status d) (conversation_state d) (Some v)
           (last_activity d).
Definition set_last_activity (v : Q) (d : call_data) : call_data :=
  CallData (to_number d) (status d) (conversation_state d)
           (conversation_history d) (Some v).

(** [active_calls]: keyed by [form_data.get('CallSid')], which is [None]
    when the form has no such field. *)
Abbreviation calls_store := (gmap (option string) call_data).

(** The [Confidence] form field as [float(confidence or 0)] reads it:
    absent or empty, a number, or text that [float] rejects. *)
Inductive confidence_field :=
| ConfidenceAbsent
| ConfidenceNumber (q : Q)
| ConfidenceMalformed.

Record form_data := FormData {
  CallSid : option string;
  CallStatus : option string;
  SpeechResult : option string;
  Confidence : confidence_field
}.

(** [float(confidence or 0)]; [None] when it raises [ValueError]. *)
Definition float_confidence (c : confidence_field) : option Q :=
  match c with
  | ConfidenceAbsent => Some 0%Q
  | ConfidenceNumber q => Some q
  | ConfidenceMalformed => None
  end.

(** The TwiML verbs a handler emits; [str(response)] is their rendering. *)
Inductive verb :=
| Say (text : string)
| Gather (action : string) (enhanced : bool) (prompt : string)
| Redirect (url : string)
| Hangup.

(** [os.environ.get('SERVER_URL', 'http://localhost:5000')] *)
Definition base_url (server_url : option string) : string :=
  default "http://localhost:5000" server_url.

(** *** [_cleanup_stale_calls] *)

(** The test [current_time - call_data['last_activity'] > 1800]. *)
Definition is_stale (current_time : Q) (d : call_data) : bool :=
  match last_activity d with
  | Some t => Qltb 1800 (current_time - t)
  | None => false
  end.

(** The [else] branch: a record without a timestamp gets one. *)
Definition stamp (current_time : Q) (d : call_data) : call_data :=
  match last_activity d with
  | Some _ => d
  | None => set_last_activity current_time d
  end.

(** [CallHandler._cleanup_stale_calls], lines 101-122, with the list
    [calls_to_remove] next to the new store. *)
Definition _cleanup_stale_calls (current_time : Q) (active_calls : calls_store)
    : list (option string) * calls_store :=
  let calls_to_remove :=
    (map_to_list (filter (fun kv => is_stale current_time kv.2 = true)
                         active_calls)).*1 in
  (calls_to_remove,
   fold_right (fun call_sid m => delete call_sid m)
              (stamp current_time <$> active_calls) calls_to_remove).

(** *** [handle_call_status] *)

Definition terminal_statuses : list string :=
  ["completed"; "failed"; "busy"; "no-answer"; "canceled"].

(** [call_status in ['completed', 'failed', 'busy', 'no-answer',
    'canceled']] *)
Definition is_terminal (call_status : option string) : bool :=
  match call_status with
  | Some s => existsb (String.eqb s) terminal_statuses
  | None => false
  end.

(** The result dictionary of [handle_call_status]. *)
Record status_result := StatusResult {
  success : bool;
  error : option string
}.

(** [f"conversation_history_{call_sid}.json"] *)
Definition history_file (call_sid : option string) : string :=
  "conversation_history_" +:+ default "None" call_sid +:+ ".json".

Section Handlers.

(** The durable storage, and [open] followed by [json.dump] on it:
    the storage afterwards, and whether the write went through. *)
Variable storage : Type.
Variable write_json : string -> call_data -> storage -> storage * bool.

(** [_process_user_query]: the knowledge base, the language model and
    the canned fallback, as one answer to a query and a history. *)
Variable _process_user_query : string -> list message -> answer.

(** [CallHandler._store_conversation_history], lines 305-322; [inr] is
    the exception it logs and raises again. *)
Definition _store_conversation_history (call_sid : option string)
    (data : call_data) (fs : storage) : storage * (unit + string) :=
  let '(fs', ok) := write_json (history_file call_sid) data fs in
  (fs', if ok then inl tt else inr "Failed to store conversation history").

(** [CallHandler.handle_call_status], lines 274-303. *)
Definition handle_call_status (now : Q) (form : form_data)
    (active_calls : calls_store) (fs : storage)
    : calls_store * storage * status_result :=
  let call_sid := CallSid form in
  let call_status := CallStatus form in
  match active_calls !! call_sid with
  | Some d =>
      let d' := set_last_activity now (set_status call_status d) in
      let calls' := <[call_sid := d']> active_calls in
      if is_terminal call_status then
        let fs' :=
          match conversation_history d' with
          | Some _ =>
              match _store_conversation_history call_sid d' fs with
              | (fs', inl _) => fs'
              | (fs', inr _) => fs'   (* except Exception: logged *)
              end
          | None => fs
          end in
        (delete call_sid calls', fs', StatusResult true None)
      else (calls', fs, StatusResult true None)
  | None => (active_calls, fs, StatusResult true None)
  end.

(** *** [handle_speech_input] *)

Definition reprompt_response (server_url : option string) : list verb :=
  [ Say "I'm sorry, I didn't catch that clearly. Could you please speak a bit louder and more clearly?";
    Gather (base_url server_url +:+ "/webhook/speech") true
           "Please ask your real estate question clearly.";
    Say "I still didn't hear anything. Let me ask again.";
    Redirect (base_url server_url +:+ "/webhook/voice") ].

Definition end_message : string :=
  "Thank you for calling Premier Real Estate Services. If you have more questions in the future, feel free to call us again. Have a great day!".

Definition generic_answer : string :=
  "I understand you have a question about real estate. I'd be happy to help with information about buying, selling, or investing in properties.".

(** Lines 475-492: the verbs that follow the chunks of an answer. *)
Definition next_question (server_url : option string) : list verb :=
  [ Gather (base_url server_url +:+ "/webhook/speech") true
           "Do you have another real estate question I can help with?";
    Say "I didn't hear anything. Let me ask one more time.";
    Redirect (base_url server_url +:+ "/webhook/voice") ].

(** The [except Exception] branch. *)
Definition error_response (server_url : option string) : list verb :=
  [ Say "I'm sorry, we're experiencing technical difficulties. Please try again.";
    Gather (base_url server_url +:+ "/webhook/speech") false
           "Please ask your question again." ].

(** [self.active_calls[call_sid]['conversation_history'].append(m)];
    [None] is the [KeyError]. *)
Definition append_message (call_sid : option string) (m : message)
    (active_calls : calls_store) : option calls_store :=
  d ← active_calls !! call_sid;
  h ← conversation_history d;
  Some (<[call_sid := set_conversation_history (h ++ [m])%list d]>
          active_calls).

(** Lines 462-464: the answer is kept when it is a [str] with a
    character that is not white space. *)
Definition valid_answer (ai_response : answer) : string :=
  match ai_response with
  | Text s => if truthy s && negb (len (strip s) =? 0) then s
              else generic_answer
  | NotText => generic_answer
  end.

(** Lines 467-468 *)
Definition limit_answer (ai_response : string) : string :=
  if len ai_response >? 1000 then slice_to 997 ai_response +:+ "..."
  else ai_response.

(** [CallHandler.handle_speech_input], lines 362-524.  The history
    handed to [_process_user_query] is the list of the shallow copy
    [call_state], which is the stored list and so holds the user message
    appended just before. *)
Definition handle_speech_input (now : Q) (server_url : option string)
    (form : form_data) (active_calls : calls_store)
    : calls_store * list verb :=
  let call_sid := CallSid form in
  let calls1 :=
    match active_calls !! call_sid with
    | None =>
        <[call_sid := CallData None (Some "in-progress") "in-progress"
                               (Some []) (Some now)]> active_calls
    | Some d => <[call_sid := set_last_activity now d]> active_calls
    end in
  match SpeechResult form with
  | None => (calls1, reprompt_response server_url)
  | Some speech_result =>
      if negb (truthy speech_result) then
        (calls1, reprompt_response server_url)
      else
        match float_confidence (Confidence form) with
        | None => (calls1, error_response server_url)
        | Some confidence =>
            if Qltb confidence 0.3 then
              (calls1, reprompt_response server_url)
            else if is_end_of_call speech_result then
              match
                append_message call_sid
                  (Message "user" (Text speech_result)) calls1
                ≫= append_message call_sid
                      (Message "assistant" (Text end_message))
              with
              | Some calls2 => (calls2, [Say end_message; Hangup])
              | None => (calls1, error_response server_url)
              end
            else
              match
                append_message call_sid
                  (Message "user" (Text speech_result)) calls1
              with
              | None => (calls1, error_response server_url)
              | Some calls2 =>
                  let history :=
                    default [] (calls2 !! call_sid
                                  ≫= conversation_history) in
                  let ai_response :=
                    _process_user_query speech_result history in
                  match
                    append_message call_sid
                      (Message "assistant" ai_response) calls2
                  with
                  | None => (calls2, error_response server_url)
                  | Some calls3 =>
                      let spoken := limit_answer (valid_answer ai_response) in
                      let response_chunks :=
                        _chunk_response spoken default_max_chunk_length in
                      (alter (set_conversation_state "in-progress")
                             call_sid calls3,
                       (Say <$> response_chunks)
                       ++ next_question server_url)%list
                  end
              end
        end
  end.

End Handlers.

(** [CallHandler.get_call_history], lines 633-638. *)
Definition get_call_history (call_sid : option string)
    (active_calls : calls_store) : list message :=
  match active_calls !! call_sid with
  | Some d => default [] (conversation_history d)
  | None => []
  end.

(** *** [_generate_comprehensive_fallback] *)
Definition buying_answer : string :=
  "When buying a property, it's important to consider your budget, desired location, and long-term goals. I recommend getting pre-approved for a mortgage first to understand your budget. Our agents can help guide you through the entire process from property search to closing the deal. Would you like more specific information about any part of the home buying process?".
Definition selling_answer : string :=
  "Selling a property involves preparing your home, determining the right price, marketing effectively, and negotiating offers. Our team can provide a comprehensive market analysis to determine the optimal listing price for your property. We also offer professional photography and marketing services to showcase your home at its best. Is there a specific aspect of selling you'd like to know more about?".
Definition financing_answer : string :=
  "Real estate financing options include conventional mortgages, FHA loans, VA loans, and various first-time homebuyer programs. Current interest rates vary based on your credit score, loan amount, and down payment. I recommend speaking with a mortgage specialist to explore options tailored to your financial situation. Would you like me to explain any specific mortgage program in more detail?".
Definition investment_answer : string :=
  "Real estate investing can provide both income and appreciation. Common strategies include buying rental properties, fix-and-flip projects, or REITs for passive investment. The best approach depends on your financial goals, risk tolerance, and how hands-on you want to be. Our team works with many investors and can help you identify opportunities that match your investment criteria. What type of real estate investment are you considering?".
Definition market_answer : string :=
  "Real estate markets are highly localized, with conditions varying by neighborhood. Generally, we're seeing moderate price growth with inventory levels improving in most areas. Interest rates remain a key factor affecting buyer demand. Our agents can provide you with detailed market analysis for specific areas you're interested in. Which location are you curious about?".
Definition general_answer : string :=
  "I understand you have a question about real estate. At Premier Real Estate Services, we specialize in helping clients buy, sell, and invest in properties. Our experienced agents can provide guidance on property values, market trends, mortgage options, and investment strategies. Could you please provide more details about your specific real estate needs so I can give you more targeted information?".

(** [any(word in query_lower for word in words)] *)
Definition any_word (query_lower : string) (words : list string) : bool :=
  existsb (fun word => contains word query_lower) words.

(** [CallHandler._generate_comprehensive_fallback], lines 608-631. *)
Definition _generate_comprehensive_fallback (query : string) : string :=
  let query_lower := lower query in
  if any_word query_lower ["buy"; "buying"; "purchase"; "purchasing"]
  then buying_answer
  else if any_word query_lower ["sell"; "selling"; "market"; "list"]
  then selling_answer
  else if any_word query_lower
            ["mortgage"; "loan"; "finance"; "interest"; "down payment"]
  then financing_answer
  else if any_word query_lower
            ["invest"; "investment"; "rental"; "income";
             "property management"]
  then investment_answer
  else if any_word query_lower
            ["market"; "trend"; "price"; "value"; "appreciation"]
  then market_answer
  else general_answer.

(** *** [_enhance_kb_response] *)

(** The longest run of word characters at the head of [s]: what the
    group [(\w+)] takes. *)
Fixpoint word_prefix (s : string) : string :=
  match s with
  | EmptyString => EmptyString
  | String c s' => if isword c then String c (word_prefix s') else EmptyString
  end.

(** [re.search(r"my name is (\w+)", s)], and [group(1)] of the match:
    the leftmost place where the words stand before a word character. *)
Fixpoint search_name (s : string) : option string :=
  let here :=
    match strip_prefix "my name is " s with
    | Some rest =>
        if truthy (word_prefix rest) then Some (word_prefix rest) else None
    | None => None
    end in
  match here, s with
  | Some name, _ => Some name
  | None, EmptyString => None
  | None, String _ s' => search_name s'
  end.

(** The loop of lines 596-604 over the history: a name found, none, or
    the exception of [.lower()] on a content that is not a [str]. *)
Inductive name_scan :=
| NameRaises
| NameNone
| NameFound (name : string).

Fixpoint scan_for_name (conversation_history : list message) : name_scan :=
  match conversation_history with
  | [] => NameNone
  | m :: rest =>
      if String.eqb (role m) "user" then
        match content m with
        | NotText => NameRaises
        | Text user_message =>
            match search_name (lower user_message) with
            | Some name => NameFound name
            | None => scan_for_name rest
            end
        end
      else scan_for_name rest
  end.

Section Queries.

(** [str.capitalize], which leaves the alphabet of the model for two of
    its letters. *)
Variable capitalize : string -> string.

(** [real_estate_knowledge_base.get_response]: the pair it returns, or
    [None] when the import or the call raises. *)
Variable get_response : string -> option (option string * bool).

(** [self.azure_services.process_real_estate_query] when [use_azure] is
    set and [azure_services] is not [None]; the call returns [None] when
    it raises. *)
Variable azure_services : option (string -> list message -> option answer).

(** [CallHandler._enhance_kb_response], lines 586-606; [None] is the
    exception of the loop. *)
Definition _enhance_kb_response (kb_response query : string)
    (conversation_history : list message) : option string :=
  if 2 <=? Z.of_nat (length conversation_history) then
    match scan_for_name conversation_history with
    | NameRaises => None
    | NameNone => Some kb_response
    | NameFound name => Some (capitalize name +:+ ", " +:+ kb_response)
    end
  else Some kb_response.

(** Lines 555-569: the answer of the knowledge base, when it has one
    and enhancing it does not raise. *)
Definition kb_answer (query : string) (conversation_history : list message)
    : option string :=
  match get_response query with
  | Some (Some kb_response, true) =>
      if truthy kb_response
      then _enhance_kb_response kb_response query conversation_history
      else None
  | _ => None
  end.

(** Lines 572-580: the answer of the language model, when it is a [str]
    with a character that is not white space. *)
Definition azure_answer (query : string) (conversation_history : list message)
    : option string :=
  match azure_services with
  | Some process_real_estate_query =>
      match process_real_estate_query query conversation_history with
      | Some (Text azure_response) =>
          if truthy azure_response && (0 <? len (strip azure_response))
          then Some azure_response else None
      | _ => None
      end
  | None => None
  end.

(** [CallHandler._process_user_query], lines 552-584. *)
Definition _process_user_query (query : string)
    (conversation_history : list message) : answer :=
  match kb_answer query conversation_history with
  | Some enhanced_response => Text enhanced_response
  | None =>
      match azure_answer query conversation_history with
      | Some azure_response => Text azure_response
      | None => Text (_generate_comprehensive_fallback query)
      end
  end.

End Queries.

(** *** [handle_incoming_call] *)

Definition greeting_message : string :=
  "Hello, I'm calling from Premier Real Estate Services. I'm an AI assistant here to answer your questions about buying, selling, mortgages, market trends, or any other real estate topics. How can I help you today?".

(** The [except Exception] branch of [handle_incoming_call]. *)
Definition incoming_error_response : list verb :=
  [ Say "I'm sorry, we're experiencing technical difficulties. Please try again later.";
    Hangup ].

(** Lines 229-256: the verbs after the greeting. *)
Definition incoming_prompt (server_url : option string) (greeting : bool)
    : list verb :=
  [ Gather (base_url server_url +:+ "/webhook/speech") true
           (if greeting then "Please go ahead with your question."
            else "Do you have another real estate question I can help with?");
    Say "I didn't hear anything. Please speak clearly when you're ready.";
    Redirect (base_url server_url +:+ "/webhook/voice") ].

(** [CallHandler.handle_incoming_call], lines 182-272. *)
Definition handle_incoming_call (now : Q) (server_url : option string)
    (form : form_data) (active_calls : calls_store)
    : calls_store * list verb :=
  let call_sid := CallSid form in
  let calls1 :=
    match active_calls !! call_sid with
    | None =>
        <[call_sid := CallData None (Some "in-progress") "greeting"
                               (Some []) (Some now)]> active_calls
    | Some d => <[call_sid := set_last_activity now d]> active_calls
    end in
  match calls1 !! call_sid with
  | None => (calls1, incoming_error_response)
  | Some call_state =>
      let greeting := String.eqb (conversation_state call_state) "greeting" in
      if greeting then
        match conversation_history call_state with
        | None => (calls1, incoming_error_response)  (* KeyError *)
        | Some [] =>
            match
              append_message call_sid
                (Message "assistant" (Text greeting_message)) calls1
            with
            | Some calls2 =>
                (calls2, Say greeting_message :: incoming_prompt server_url true)
            | None => (calls1, incoming_error_response)
            end
        | Some (_ :: _) => (calls1, incoming_prompt server_url true)
        end
      else (calls1, incoming_prompt server_url false)
  end.

(** *** [initiate_call] *)

(** The arguments of [client.calls.create]. *)
Record call_request := CallRequest {
  request_to : string;
  request_from : option string;
  request_url : string;
  request_status_callback : string;
  request_status_callback_event : list string;
  request_record : bool;
  request_recording_status_callback : string
}.

(** The result dictionary of [initiate_call]. *)
Inductive initiate_result :=
| InitiateFailed (error : string)
| Initiated (message : string) (call_sid : string).

Section Calls.

(** [self.client]: [None] without credentials; [calls.create] gives the
    SID of the call, or raises with a message. *)
Variable client : option (call_request -> string + string).

(** [self.twilio_phone_number] *)
Variable twilio_phone_number : option string.

(** [CallHandler.initiate_call], lines 124-180. *)
Definition initiate_call (now : Q) (server_url : option string)
    (to_number : string) (active_calls : calls_store)
    : calls_store * initiate_result :=
  match client with
  | None => (active_calls, InitiateFailed "Twilio client not initialized")
  | Some calls_create =>
      match server_url with
      | Some (String c u as base_url) =>
          match
            calls_create
              (CallRequest to_number twilio_phone_number
                 (base_url +:+ "/webhook/voice")
                 (base_url +:+ "/webhook/status")
                 ["initiated"; "ringing"; "answered"; "completed"]
                 true
                 (base_url +:+ "/webhook/recording"))
          with
          | inl sid =>
              (<[Some sid := CallData (Some to_number) (Some "initiated")
                                      "greeting" (Some []) (Some now)]>
                 active_calls,
               Initiated "Call initiated successfully" sid)
          | inr e => (active_calls, InitiateFailed e)
          end
      | _ => (active_calls, InitiateFailed "SERVER_URL not configured")
      end
  end.

End Calls.

End CallHandler.

(** ** [real_estate_knowledge_base.py] *)

Module KnowledgeBase.
Import Py Regex.

(** [string.punctuation] *)
Definition ispunct (c : ascii) : bool :=
  let n := code c in
  between 33 47 n || between 58 64 n || between 91 96 n || between 123 126 n.

(** [query.translate(str.maketrans('', '', string.punctuation))] *)
Fixpoint remove_punctuation (s : string) : string :=
  match s with
  | EmptyString => EmptyString
  | String c s' =>
      if ispunct c then remove_punctuation s'
      else String c (remove_punctuation s')
  end.

(** [preprocess_query], lines 175-187. *)
Definition preprocess_query (query : string) : string :=
  if negb (truthy query) then EmptyString
  else remove_punctuation (strip (lower query)).

Definition CATEGORY_FALLBACKS : list (string * string) :=
  [ ("buying",
     "When buying a property, key considerations include your budget, location preferences, must-have features, and long-term plans. Getting pre-approved for a mortgage is an essential first step to understand your budget. Our agents can guide you through the entire process from property search to closing. What specific aspect of home buying are you interested in?");
    ("selling",
     "Selling a home involves preparing your property, setting the right price, effective marketing, and negotiating offers. Our comprehensive approach includes professional photography, strategic pricing, broad online exposure, and skilled negotiation to maximize your return. Would you like specific information about any part of the selling process?");
    ("financing",
     "Real estate financing involves understanding loan types, interest rates, credit requirements, and down payment options. Conventional loans typically require better credit and higher down payments, while government-backed loans like FHA offer more flexibility. Working with a trusted lender to get pre-approved is an important first step. What specific financing questions do you have?");
    ("investment",
     "Real estate investing can provide both rental income and property appreciation. Common strategies include residential rentals, commercial properties, fix-and-flip projects, and REITs for passive investment. The best approach depends on your financial goals, risk tolerance, and desired level of involvement. How are you considering investing in real estate?");
    ("market",
     "Real estate markets are localized, with conditions varying by neighborhood. Current trends show stabilizing prices with moderate growth in most areas, though inventory levels and interest rates continue to impact buyer demand. Our local market expertise can help you understand conditions in specific areas you're interested in. Which location are you curious about?");
    ("property",
     "Properties vary widely in type, from single-family homes to condos, townhomes, and multi-family units. Each offers different advantages in terms of space, maintenance, amenities, and investment potential. Understanding your lifestyle needs and long-term goals helps determine the best property type for you. What features are most important to you in a property?") ].

Definition CATEGORY_KEYWORDS : list (string * list string) :=
  [ ("buying",
     ["buy"; "buying"; "purchase"; "offer"; "closing"; "inspection"; "escrow"; "first-time"; "house hunting"]);
    ("selling",
     ["sell"; "selling"; "list"; "market"; "stage"; "price"; "value"; "worth"; "commission"; "agent"]);
    ("financing",
     ["mortgage"; "loan"; "interest"; "rate"; "down payment"; "pre-approval"; "credit"; "financing"; "lender"; "pmi"]);
    ("investment",
     ["invest"; "investment"; "rental"; "income"; "roi"; "cash flow"; "appreciation"; "passive"; "portfolio"]);
    ("market",
     ["market"; "trend"; "forecast"; "appreciation"; "depreciation"; "bubble"; "crash"; "inventory"; "demand"]);
    ("property",
     ["property"; "home"; "house"; "condo"; "townhouse"; "land"; "acre"; "square foot"; "bedroom"; "bathroom"]) ].

(** [sum(1 for keyword in keywords if keyword in preprocessed)] *)
Definition score (preprocessed : string) (keywords : list string) : Z :=
  Z.of_nat (length (List.filter (fun keyword => contains keyword preprocessed)
                                keywords)).

(** [max(items, key=lambda x: x[1])] over a first item and the rest: the
    first of the items with the largest score. *)
Fixpoint max_by_score (best : string * Z) (items : list (string * Z))
    : string * Z :=
  match items with
  | [] => best
  | item :: rest =>
      max_by_score (if best.2 <? item.2 then item else best) rest
  end.

(** [identify_category], lines 189-203. *)
Definition identify_category (query : string) : option string :=
  let preprocessed := preprocess_query query in
  let category_scores :=
    List.map (fun '(category, keywords) =>
                (category, score preprocessed keywords))
             CATEGORY_KEYWORDS in
  match category_scores with
  | [] => None
  | first :: rest =>
      let max_category := max_by_score first rest in
      if 0 <? max_category.2 then Some max_category.1 else None
  end.

(** [dict.get] on a list of items. *)
Fixpoint lookup_item (key : string) (items : list (string * string))
    : option string :=
  match items with
  | [] => None
  | (k, v) :: rest => if String.eqb k key then Some v else lookup_item key rest
  end.

Section Lookup.

(** Lines 219-248 of [get_response]: the patterns of [REAL_ESTATE_KB]
    searched in the normalized query and, when none is found, the close
    matches of its words. *)
Variable kb_match : string -> option string.

(** [get_response], lines 205-263. *)
Definition get_response (query : string) : option string * bool :=
  if negb (truthy query) then (None, false)
  else
    let normalized_query := preprocess_query query in
    match kb_match normalized_query with
    | Some response => (Some response, true)
    | None =>
        match identify_category normalized_query with
        | Some category =>
            match lookup_item category CATEGORY_FALLBACKS with
            | Some response => (Some response, true)
            | None => (None, false)
            end
        | None => (None, false)
        end
    end.

End Lookup.

End KnowledgeBase.

(** ** [conversation_manager.py]: [EnhancedConversationManager] *)

Module ConversationManager.
Import Py Regex.

(** An open key-value bag ([Dict[str, Any]]), its values kept as text. *)
Abbreviation dict := (gmap string string).

(** An entry of [history]. *)
Module Message.
Record t := Make {
  role : string;
  content : string;
  timestamp : Q;
  metadata : dict;
  message_id : string
}.
End Message.

(** The ['state'] dictionary; [None] is an absent key or Python's
    [None]. *)
Record conv_state := ConvState {
  current_topic : option string;
  intent : option string;
  context : option dict;
  last_interaction_time : option Q;
  total_interactions : option Z;
  conversation_type : option string
}.

(** The ['follow_up_context'] dictionary; [None] is an absent key. *)
Record follow_up := FollowUp {
  expected_topics : option (list string);
  related_questions : option (list string);
  context_keywords : option (list string)
}.

(** The ['interruption_management'] dictionary; [None] is an absent key,
    and [Some None] in [active_response_token] is Python's [None]. *)
Record interruption_mgmt := InterruptionMgmt {
  active_response_token : option (option string);
  can_interrupt : option bool;
  interrupt_threshold : option Z
}.

(** A value of [conversations]; [None] is an absent key. *)
Record conversation := Conversation {
  history : list Message.t;
  state : option conv_state;
  follow_up_context : option follow_up;
  interruption_management : option interruption_mgmt
}.

(** A value of [active_responses]; [interrupt_reason] is absent until
    the first interruption, which may store [None]. *)
Module Response.
Record t := Make {
  call_sid : string;
  start_time : Q;
  metadata : dict;
  status : string;
  interrupt_reason : option (option string);
  interruption_count : Z
}.
End Response.

(** The fields of [self]. *)
Record manager := Manager {
  conversations : gmap string conversation;
  active_responses : gmap string Response.t;
  max_history_length : Z
}.

(** [EnhancedConversationManager(max_history_length)] *)
Definition new_manager (max_history_length : Z) : manager :=
  Manager ∅ ∅ max_history_length.

(** [global_enhanced_conversation_manager], with the default limit of
    10 exchanges. *)
Definition global_enhanced_conversation_manager : manager := new_manager 10.

Definition set_conversations (c : gmap string conversation) (m : manager)
    : manager :=
  Manager c (active_responses m) (max_history_length m).
Definition set_active_responses (r : gmap string Response.t) (m : manager)
    : manager :=
  Manager (conversations m) r (max_history_length m).

Definition set_history (h : list Message.t) (c : conversation) : conversation :=
  Conversation h (state c) (follow_up_context c) (interruption_management c).
Definition set_state (s : conv_state) (c : conversation) : conversation :=
  Conversation (history c) (Some s) (follow_up_context c)
               (interruption_management c).
Definition set_follow_up_context (f : follow_up) (c : conversation)
    : conversation :=
  Conversation (history c) (state c) (Some f) (interruption_management c).
Definition set_interruption_management (i : interruption_mgmt)
    (c : conversation) : conversation :=
  Conversation (history c) (state c) (follow_up_context c) (Some i).

Definition set_intent (v : string) (s : conv_state) : conv_state :=
  ConvState (current_topic s) (Some v) (context s) (last_interaction_time s)
            (total_interactions s) (conversation_type s).
Definition set_last_interaction_time (v : Q) (s : conv_state) : conv_state :=
  ConvState (current_topic s) (intent s) (context s) (Some v)
            (total_interactions s) (conversation_type s).
Definition set_total_interactions (v : Z) (s : conv_state) : conv_state :=
  ConvState (current_topic s) (intent s) (context s)
            (last_interaction_time s) (Some v) (conversation_type s).

Definition set_active_response_token (v : option string)
    (i : interruption_mgmt) : interruption_mgmt :=
  InterruptionMgmt (Some v) (can_interrupt i) (interrupt_threshold i).
Definition set_can_interrupt (v : bool) (i : interruption_mgmt)
    : interruption_mgmt :=
  InterruptionMgmt (active_response_token i) (Some v) (interrupt_threshold i).

(** The dictionary literal of lines 59-79. *)
Definition new_conversation (initial_context : option dict) (now : Q)
    : conversation :=
  Conversation []
    (Some (ConvState None None (Some (default ∅ initial_context)) (Some now)
                     (Some 0) (Some "initial")))
    (Some (FollowUp (Some []) (Some []) (Some [])))
    (Some (InterruptionMgmt (Some None) (Some true) (Some 3))).

(** [initialize_conversation], lines 41-95.  Nothing in its [try] block
    raises, so the [except] branch of lines 84-95 is not reached. *)
Definition initialize_conversation (now : Q) (call_sid : string)
    (initial_context : option dict) (m : manager) : bool * manager :=
  if negb (truthy call_sid) then (false, m)
  else
    match conversations m !! call_sid with
    | None =>
        (true,
         set_conversations
           (<[call_sid := new_conversation initial_context now]>
              (conversations m)) m)
    | Some _ => (false, m)
    end.

(** The opening of the methods that create a missing conversation:
    [if call_sid not in self.conversations:
       if not self.initialize_conversation(call_sid): return False]. *)
Definition ensure_conversation (now : Q) (call_sid : string) (m : manager)
    : bool * manager :=
  match conversations m !! call_sid with
  | None => initialize_conversation now call_sid None m
  | Some _ => (true, m)
  end.

(** Truth value of an optional list argument. *)
Definition given (l : option (list string)) : bool :=
  match l with
  | Some (_ :: _) => true
  | _ => false
  end.

(** [add_follow_up_context], lines 97-143. *)
Definition add_follow_up_context (now : Q) (call_sid : string)
    (topics questions keywords : option (list string)) (m : manager)
    : bool * manager :=
  if negb (truthy call_sid) then (false, m)
  else
    let '(ok, m1) := ensure_conversation now call_sid m in
    if negb ok then (false, m1)
    else
      match conversations m1 !! call_sid ≫= (fun c =>
              f ← follow_up_context c; Some (c, f)) with
      | None => (false, m1)  (* KeyError, caught *)
      | Some (c, f) =>
          let f1 := if given topics
                    then FollowUp topics (related_questions f)
                                  (context_keywords f) else f in
          let f2 := if given questions
                    then FollowUp (expected_topics f1) questions
                                  (context_keywords f1) else f1 in
          let f3 := if given keywords
                    then FollowUp (expected_topics f2)
                                  (related_questions f2) keywords else f2 in
          (true,
           set_conversations
             (<[call_sid := set_follow_up_context f3 c]> (conversations m1))
             m1)
      end.

(** *** [evaluate_follow_up_relevance] *)

(** The three lists of [matched_context]. *)
Record matched_context := Matched {
  matched_topics : list string;
  matched_questions : list string;
  matched_keywords : list string
}.

(** The returned dictionary: with an ['error'] key, with an empty
    ['matched_context'] for an unknown call, or the assessment. *)
Inductive relevance :=
| RelevanceError (error : string)
| RelevanceUnknown
| Relevance (is_follow_up : bool) (confidence : float)
            (matched : matched_context).

Definition is_follow_up (r : relevance) : bool :=
  match r with
  | Relevance b _ _ => b
  | _ => false
  end.

Definition confidence (r : relevance) : float :=
  match r with
  | Relevance _ x _ => x
  | _ => 0%float
  end.

(** [item.lower() in query_lower] *)
Definition mentions (query_lower item : string) : bool :=
  contains (lower item) query_lower.

(** One of the three [for] loops: each item found in the query is
    appended to the matches and [confidence += weight], a binary64
    addition. *)
Definition scan_items (weight : float) (query_lower : string)
    (items : list string) (acc : list string * float)
    : list string * float :=
  fold_left
    (fun '(matched, confidence) item =>
       if mentions query_lower item
       then ((matched ++ [item])%list, (confidence + weight)%float)
       else (matched, confidence))
    items acc.

Definition continuation_markers : list string :=
  ["more"; "further"; "additional"; "again"].

(** [evaluate_follow_up_relevance], lines 145-206.  The decimal
    constants denote the nearest binary64 numbers, as they do in
    Python. *)
Definition evaluate_follow_up_relevance (call_sid new_query : string)
    (m : manager) : relevance :=
  if negb (truthy call_sid) || negb (truthy new_query)
  then RelevanceError "Empty call SID or query"
  else
    match conversations m !! call_sid with
    | None => RelevanceUnknown
    | Some c =>
        match follow_up_context c with
        | None => RelevanceError "'follow_up_context'"  (* KeyError, caught *)
        | Some f =>
            let query_lower := lower new_query in
            let '(topics, c1) :=
              scan_items 0.4 query_lower (default [] (expected_topics f))
                         ([], 0%float) in
            let '(questions, c2) :=
              scan_items 0.3 query_lower (default [] (related_questions f))
                         ([], c1) in
            let '(keywords, c3) :=
              scan_items 0.2 query_lower (default [] (context_keywords f))
                         ([], c2) in
            let c4 :=
              if search_words continuation_markers query_lower
              then (c3 + 0.1)%float else c3 in
            Relevance (0.5 <? c4)%float (fmin c4 1)
                      (Matched topics questions keywords)
        end
    end.

(** *** Active responses *)

Definition default_interruption_management (token : option string)
    : interruption_mgmt :=
  InterruptionMgmt (Some token) (Some true) (Some 3).

(** [track_active_response], lines 208-262. *)
Definition track_active_response (now : Q) (call_sid response_token : string)
    (metadata : option dict) (m : manager) : bool * manager :=
  if negb (truthy call_sid) || negb (truthy response_token) then (false, m)
  else
    let '(ok, m1) := ensure_conversation now call_sid m in
    if negb ok then (false, m1)
    else
      let m2 :=
        set_active_responses
          (<[response_token :=
               Response.Make call_sid now (default ∅ metadata) "active"
                             None 0]> (active_responses m1)) m1 in
      match conversations m2 !! call_sid with
      | None => (false, m2)  (* KeyError, caught *)
      | Some c =>
          let i :=
            match interruption_management c with
            | Some i =>
                set_can_interrupt true
                  (set_active_response_token (Some response_token) i)
            | None =>
                default_interruption_management (Some response_token)
            end in
          (true,
           set_conversations
             (<[call_sid := set_interruption_management i c]>
                (conversations m2)) m2)
      end.

(** The result dictionary of [handle_response_interruption]. *)
Record interruption_result := InterruptionResult {
  success : bool;
  message : string;
  reported_count : option Z
}.

(** Lines 293-295: the response is marked and counted. *)
Definition mark_interrupted (interrupt_reason : option string)
    (r : Response.t) : Response.t :=
  Response.Make (Response.call_sid r) (Response.start_time r)
                (Response.metadata r) "interrupted" (Some interrupt_reason)
                (Response.interruption_count r + 1).

(** [interrupt_mgmt.get('interrupt_threshold', 3)] *)
Definition threshold_of (interrupt_mgmt : interruption_mgmt) : Z :=
  default 3 (interrupt_threshold interrupt_mgmt).

(** Lines 305-313: the session's dictionary, created when missing. *)
Definition interruption_management_of (c : conversation) : interruption_mgmt :=
  default (default_interruption_management None) (interruption_management c).

(** [handle_response_interruption], lines 264-333. *)
Definition handle_response_interruption (response_token : string)
    (interrupt_reason : option string) (m : manager)
    : interruption_result * manager :=
  if negb (truthy response_token)
  then (InterruptionResult false "Empty response token" None, m)
  else
    match active_responses m !! response_token with
    | None => (InterruptionResult false "Response not found" None, m)
    | Some r =>
        let response_info := mark_interrupted interrupt_reason r in
        let m1 :=
          set_active_responses
            (<[response_token := response_info]> (active_responses m)) m in
        let call_sid := Response.call_sid response_info in
        match conversations m1 !! call_sid with
        | None =>
            (InterruptionResult true
               "Response interrupted but conversation not found" None, m1)
        | Some c =>
            let interrupt_mgmt := interruption_management_of c in
            if threshold_of interrupt_mgmt
               <? Response.interruption_count response_info
            then
              (InterruptionResult false "Maximum interruptions reached" None,
               set_conversations
                 (<[call_sid :=
                      set_interruption_management
                        (set_can_interrupt false interrupt_mgmt) c]>
                    (conversations m1)) m1)
            else
              (InterruptionResult true "Response interrupted successfully"
                 (Some (Response.interruption_count response_info)),
               set_conversations
                 (<[call_sid :=
                      set_interruption_management
                        (set_active_response_token None interrupt_mgmt) c]>
                    (conversations m1)) m1)
        end
    end.

(** *** Messages and intent *)

Definition intent_keywords : list (string * list string) :=
  [ ("buying", ["buy"; "purchase"; "home"; "property"; "real estate"]);
    ("selling", ["sell"; "listing"; "market"; "price"; "value"]);
    ("mortgage", ["loan"; "finance"; "interest"; "rate"; "mortgage"]);
    ("investment", ["invest"; "rental"; "income"; "property management"]);
    ("market_info", ["market"; "trend"; "prices"; "appreciation"]) ].

(** The ['state'] dictionary that [_update_conversation_intent] and
    [add_conversation_message] create when the key is missing. *)
Definition fresh_state (now : Q) : conv_state :=
  ConvState None None None (Some now) (Some 0) None.

(** [any(keyword in content_lower for keyword in keywords)] *)
Definition any_keyword (content_lower : string) (entry : string * list string)
    : bool :=
  existsb (fun keyword => contains keyword content_lower) entry.2.

(** [_update_conversation_intent], lines 452-499. *)
Definition _update_conversation_intent (now : Q)
    (call_sid user_content : string) (m : manager) : manager :=
  if negb (truthy call_sid) || negb (truthy user_content) then m
  else
    let content_lower := lower user_content in
    match conversations m !! call_sid with
    | None => m
    | Some c =>
        let st := default (fresh_state now) (state c) in
        let st' :=
          match List.find (any_keyword content_lower) intent_keywords with
          | Some (intent, _) => set_intent intent st
          | None => st
          end in
        set_conversations (<[call_sid := set_state st' c]> (conversations m)) m
    end.

(** Lines 379-381: the sliding window. *)
Definition trim_history (max_history_length : Z) (h : list Message.t)
    : list Message.t :=
  if max_history_length * 2 <? Z.of_nat (length h)
  then slice_from (- max_history_length * 2) h
  else h.

(** [add_conversation_message], lines 335-402. *)
Definition add_conversation_message (now : Q) (call_sid role : string)
    (content : option string) (metadata : option dict) (m : manager)
    : bool * manager :=
  match content with
  | None => (false, m)
  | Some content =>
      if negb (truthy call_sid) || negb (truthy role) then (false, m)
      else
        let '(ok, m1) := ensure_conversation now call_sid m in
        if negb ok then (false, m1)
        else
          match conversations m1 !! call_sid with
          | None => (false, m1)  (* KeyError, caught *)
          | Some c =>
              let message :=
                Message.Make role content now (default ∅ metadata)
                  (call_sid +:+ "_"
                   +:+ str_of_int (Z.of_nat (length (history c)) + 1)) in
              let h :=
                trim_history (max_history_length m1)
                             (history c ++ [message])%list in
              let st := default (fresh_state now) (state c) in
              let st' :=
                set_total_interactions
                  (default 0 (total_interactions st) + 1)
                  (set_last_interaction_time now st) in
              let m2 :=
                set_conversations
                  (<[call_sid := set_state st' (set_history h c)]>
                     (conversations m1)) m1 in
              (true,
               if String.eqb role "user"
               then _update_conversation_intent now call_sid content m2
               else m2)
          end
  end.

(** *** [get_conversation_context] *)

Inductive context_result :=
| ContextError (error : string)
| ContextUnknown
| Context (history : list Message.t) (state : conv_state)
          (follow_up_context : follow_up)
          (interruption_management : interruption_mgmt).

Definition empty_state : conv_state := ConvState None None None None None None.
Definition empty_follow_up : follow_up := FollowUp None None None.
Definition empty_interruption_management : interruption_mgmt :=
  InterruptionMgmt None None None.

(** [get_conversation_context], lines 404-450: the missing dictionaries
    are created empty in the stored conversation. *)
Definition get_conversation_context (call_sid : string)
    (max_messages : option Z) (m : manager) : context_result * manager :=
  if negb (truthy call_sid) then (ContextError "Empty call SID", m)
  else
    match conversations m !! call_sid with
    | None => (ContextUnknown, m)
    | Some c =>
        let h :=
          match max_messages with
          | Some n =>
              if negb (n =? 0) && (n <? Z.of_nat (length (history c)))
              then slice_from (- n) (history c) else history c
          | None => history c
          end in
        let st := default empty_state (state c) in
        let f := default empty_follow_up (follow_up_context c) in
        let i :=
          default empty_interruption_management (interruption_management c) in
        (Context h st f i,
         set_conversations
           (<[call_sid := Conversation (history c) (Some st) (Some f) (Some i)]>
              (conversations m)) m)
    end.

(** *** Cleanup *)

(** The two tests of lines 524-528 on one conversation. *)
Definition conversation_is_stale (current_time : Q) (max_age_seconds : Z)
    (conv : conversation) : bool :=
  match state conv ≫= last_interaction_time with
  | None => true
  | Some t => Qltb (inject_Z max_age_seconds) (current_time - t)
  end.

(** [cleanup_stale_conversations], lines 501-548. *)
Definition cleanup_stale_conversations (current_time : Q)
    (max_age_seconds : Z) (m : manager) : Z * manager :=
  if max_age_seconds <=? 0 then (0, m)
  else
    let stale_conversations :=
      (map_to_list
         (filter (fun kv =>
                    conversation_is_stale current_time max_age_seconds kv.2
                    = true)
                 (conversations m))).*1 in
    let conversations' :=
      fold_right (fun call_sid c => delete call_sid c) (conversations m)
                 stale_conversations in
    let stale_responses :=
      (map_to_list
         (filter (fun kv =>
                    str_in (Response.call_sid kv.2) stale_conversations
                    = true)
                 (active_responses m))).*1 in
    let active_responses' :=
      fold_right (fun response_token r => delete response_token r)
                 (active_responses m) stale_responses in
    (Z.of_nat (length stale_conversations),
     Manager conversations' active_responses' (max_history_length m)).

(** [cleanup_conversation], lines 550-586. *)
Definition cleanup_conversation (call_sid : string) (m : manager)
    : bool * manager :=
  if negb (truthy call_sid) then (false, m)
  else
    match conversations m !! call_sid with
    | None => (false, m)
    | Some _ =>
        let response_tokens_to_remove :=
          (map_to_list
             (filter (fun kv =>
                        String.eqb (Response.call_sid kv.2) call_sid = true)
                     (active_responses m))).*1 in
        (true,
         Manager (delete call_sid (conversations m))
                 (fold_right (fun response_token r => delete response_token r)
                             (active_responses m) response_tokens_to_remove)
                 (max_history_length m))
    end.

(** *** The manager as a transition system *)

(** A call of a public method, with its arguments. *)
Inductive op :=
| InitializeConversation (call_sid : string) (initial_context : option dict)
| AddFollowUpContext (call_sid : string)
    (topics questions keywords : option (list string))
| EvaluateFollowUpRelevance (call_sid new_query : string)
| TrackActiveResponse (call_sid response_token : string)
    (metadata : option dict)
| HandleResponseInterruption (response_token : string)
    (interrupt_reason : option string)
| AddConversationMessage (call_sid role : string) (content : option string)
    (metadata : option dict)
| GetConversationContext (call_sid : string) (max_messages : option Z)
| CleanupStaleConversations (max_age_seconds : Z)
| CleanupConversation (call_sid : string).

(** The state after the call [o] made at time [now]. *)
Definition step (now : Q) (o : op) (m : manager) : manager :=
  match o with
  | InitializeConversation call_sid initial_context =>
      (initialize_conversation now call_sid initial_context m).2
  | AddFollowUpContext call_sid topics questions keywords =>
      (add_follow_up_context now call_sid topics questions keywords m).2
  | EvaluateFollowUpRelevance _ _ => m
  | TrackActiveResponse call_sid response_token metadata =>
      (track_active_response now call_sid response_token metadata m).2
  | HandleResponseInterruption response_token interrupt_reason =>
      (handle_response_interruption response_token interrupt_reason m).2
  | AddConversationMessage call_sid role content metadata =>
      (add_conversation_message now call_sid role content metadata m).2
  | GetConversationContext call_sid max_messages =>
      (get_conversation_context call_sid max_messages m).2
  | CleanupStaleConversations max_age_seconds =>
      (cleanup_stale_conversations now max_age_seconds m).2
  | CleanupConversation call_sid => (cleanup_conversation call_sid m).2
  end.

(** The state after a sequence of timed calls. *)
Definition run (calls : list (Q * op)) (m : manager) : manager :=
  fold_left (fun m '(now, o) => step now o m) calls m.

(** [can_interrupt] of the session [call_sid], when it is stored. *)
Definition session_can_interrupt (call_sid : string) (m : manager)
    : option bool :=
  c ← conversations m !! call_sid;
  i ← interruption_management c;
  can_interrupt i.

End ConversationManager.

(** ** [interruption_handler.py]: [InterruptionHandler] *)

Module InterruptionHandler.
Import Py.

(** The ['interrupt_data'] dictionary. *)
Record interrupt_data := InterruptData {
  speech_result : string;
  confidence : Q;
  time : Q
}.

(** A value of [active_responses].  [current_chunk] starts at 0 and is
    only ever incremented. *)
Module ResponseData.
Record t := Make {
  call_sid : string;
  response_token : string;
  chunks : list string;
  current_chunk : nat;
  status : string;
  start_time : Q;
  interrupted : bool;
  interrupt_data : option InterruptionHandler.interrupt_data
}.
End ResponseData.

(** The fields of [self]. *)
Record handler := Handler {
  conversation_manager : ConversationManager.manager;
  active_responses : gmap string ResponseData.t
}.

(** [InterruptionHandler(conversation_manager)] *)
Definition new_handler (conversation_manager : ConversationManager.manager)
    : handler :=
  Handler conversation_manager ∅.

Definition set_active_responses (r : gmap string ResponseData.t) (h : handler)
    : handler :=
  Handler (conversation_manager h) r.

(** The TwiML verbs of this module; a [Gather] says its prompt. *)
Inductive verb :=
| Say (text : string)
| Gather (action : string) (timeout : Z) (interruptible : bool)
         (prompt : string)
| Redirect (url : string).

(** [os.environ.get('SERVER_URL', 'http://localhost:5000')] *)
Definition base_url (server_url : option string) : string :=
  default "http://localhost:5000" server_url.

(** [int(t)] for a time [t]: the fraction is cut off. *)
Definition int_of (t : Q) : Z := Z.quot (Qnum t) (Zpos (Qden t)).

(** [f"{call_sid}_{int(time.time())}"] *)
Definition response_id_at (now : Q) (call_sid : string) : string :=
  call_sid +:+ "_" +:+ str_of_int (int_of now).

(** [register_response], lines 46-82.  Nothing in its [try] block
    raises. *)
Definition register_response (now : Q) (call_sid response_token : string)
    (chunks : list string) (h : handler) : string * handler :=
  let response_id := response_id_at now call_sid in
  let responses :=
    <[response_id :=
        ResponseData.Make call_sid response_token chunks 0 "pending" now
                          false None]> (active_responses h) in
  let metadata : ConversationManager.dict :=
    {[ "response_id" := response_id;
       "chunks_count" := str_of_int (Z.of_nat (length chunks)) ]} in
  (response_id,
   Handler
     (ConversationManager.track_active_response now call_sid response_token
        (Some metadata) (conversation_manager h)).2
     responses).

(** [_create_error_response], lines 374-412. *)
Definition _create_error_response (server_url : option string) : list verb :=
  [ Say "I apologize for the technical difficulty. Let's try again.";
    Gather (base_url server_url +:+ "/webhook/speech") 5 false
           "How can I help you with your real estate questions?";
    Redirect (base_url server_url +:+ "/webhook/voice") ].

(** The verbs of [_create_completion_response], lines 346-369. *)
Definition completion_response (server_url : option string) : list verb :=
  [ Gather (base_url server_url +:+ "/webhook/speech") 5 false
           "Is there anything else you'd like to know?";
    Say "I didn't hear anything. How else can I help you?";
    Redirect (base_url server_url +:+ "/webhook/voice") ].

(** [_create_completion_response], lines 320-372: the response is taken
    out of [active_responses]. *)
Definition _create_completion_response (server_url : option string)
    (response_id : string) (h : handler) : list verb * handler :=
  match active_responses h !! response_id with
  | None => (_create_error_response server_url, h)
  | Some _ =>
      (completion_response server_url,
       set_active_responses (delete response_id (active_responses h)) h)
  end.

(** The verbs of [_create_chunk_response] for a chunk, lines 138-167. *)
Definition chunk_response (server_url : option string)
    (response_id current_chunk : string) : list verb :=
  [ Gather (base_url server_url +:+ "/webhook/interrupt?response_id="
            +:+ response_id) 1 true current_chunk;
    Redirect (base_url server_url +:+ "/webhook/continue_response?response_id="
              +:+ response_id) ].

(** [_create_chunk_response], lines 110-170. *)
Definition _create_chunk_response (server_url : option string)
    (response_id : string) (h : handler) : list verb * handler :=
  match active_responses h !! response_id with
  | None => (_create_error_response server_url, h)
  | Some response_data =>
      match
        ResponseData.chunks response_data
          !! ResponseData.current_chunk response_data
      with
      | None => _create_completion_response server_url response_id h
      | Some current_chunk =>
          (chunk_response server_url response_id current_chunk, h)
      end
  end.

Definition set_status (v : string) (r : ResponseData.t) : ResponseData.t :=
  ResponseData.Make (ResponseData.call_sid r) (ResponseData.response_token r)
    (ResponseData.chunks r) (ResponseData.current_chunk r) v
    (ResponseData.start_time r) (ResponseData.interrupted r)
    (ResponseData.interrupt_data r).

Definition set_current_chunk (v : nat) (r : ResponseData.t) : ResponseData.t :=
  ResponseData.Make (ResponseData.call_sid r) (ResponseData.response_token r)
    (ResponseData.chunks r) v (ResponseData.status r)
    (ResponseData.start_time r) (ResponseData.interrupted r)
    (ResponseData.interrupt_data r).

(** Lines 233-239: the response is marked. *)
Definition mark_interrupted (data : interrupt_data) (r : ResponseData.t)
    : ResponseData.t :=
  ResponseData.Make (ResponseData.call_sid r) (ResponseData.response_token r)
    (ResponseData.chunks r) (ResponseData.current_chunk r) "interrupted"
    (ResponseData.start_time r) true (Some data).

(** [start_response_playback], lines 84-108. *)
Definition start_response_playback (server_url : option string)
    (response_id : string) (h : handler) : list verb * handler :=
  match active_responses h !! response_id with
  | None => (_create_error_response server_url, h)
  | Some response_data =>
      _create_chunk_response server_url response_id
        (set_active_responses
           (<[response_id := set_status "active" response_data]>
              (active_responses h)) h)
  end.

(** [continue_response], lines 172-196. *)
Definition continue_response (server_url : option string)
    (response_id : string) (h : handler) : list verb * handler :=
  match active_responses h !! response_id with
  | None => (_create_error_response server_url, h)
  | Some response_data =>
      _create_chunk_response server_url response_id
        (set_active_responses
           (<[response_id :=
                set_current_chunk
                  (ResponseData.current_chunk response_data + 1)
                  response_data]>
              (active_responses h)) h)
  end.

(** [_process_interruption], lines 267-318. *)
Definition _process_interruption (server_url : option string) : list verb :=
  [ Say "I understand. Let me address that.";
    Gather (base_url server_url +:+ "/webhook/speech") 5 false
           "Please continue with your question.";
    Say "I didn't hear anything. Please ask your question again.";
    Redirect (base_url server_url +:+ "/webhook/voice") ].

Section Interruptions.

(** [str] of a [float], for the metadata that the conversation manager
    keeps as text. *)
Variable str_of_float : Q -> string.

(** Lines 210-217: a value that is not passed is read from the
    request, the speech with the default [''] and the confidence with
    the default [0]; [float] on text that is not a number raises, and
    the confidence is then [0.0]. *)
Definition speech_of (request : CallHandler.form_data)
    (speech_result : option string) : string :=
  match speech_result with
  | Some s => s
  | None => default EmptyString (CallHandler.SpeechResult request)
  end.

Definition confidence_of (request : CallHandler.form_data)
    (confidence : option Q) : Q :=
  match confidence with
  | Some q => q
  | None =>
      match CallHandler.Confidence request with
      | CallHandler.ConfidenceNumber q => q
      | _ => 0%Q
      end
  end.

(** [handle_interruption], lines 198-265; [request] holds the values of
    the request being served. *)
Definition handle_interruption (now : Q) (server_url : option string)
    (request : CallHandler.form_data) (response_id : string)
    (speech_result : option string) (confidence : option Q) (h : handler)
    : list verb * handler :=
  let speech_result := speech_of request speech_result in
  let confidence := confidence_of request confidence in
  match active_responses h !! response_id with
  | None => (_create_error_response server_url, h)
  | Some response_data =>
      let call_sid := ResponseData.call_sid response_data in
      let response_token := ResponseData.response_token response_data in
      let responses :=
        <[response_id :=
            mark_interrupted (InterruptData speech_result confidence now)
                             response_data]> (active_responses h) in
      let m := conversation_manager h in
      let m' :=
        if truthy call_sid && truthy response_token then
          let m1 :=
            (ConversationManager.handle_response_interruption response_token
               (Some "user_interrupt") m).2 in
          let metadata : ConversationManager.dict :=
            {[ "type" := "interruption";
               "confidence" := str_of_float confidence;
               "response_token" := response_token ]} in
          (ConversationManager.add_conversation_message now call_sid "user"
             (Some speech_result) (Some metadata) m1).2
        else m in
      (_process_interruption server_url, Handler m' responses)
  end.

End Interruptions.

End InterruptionHandler.

(** ** Vocabulary of the properties *)

Module Spec.
Import Py Regex.

(** The words a regular expression denotes. *)
Inductive lang : regex -> string -> Prop :=
| LangEps : lang Eps EmptyString
| LangClass p c : p c = true -> lang (Class p) (String c EmptyString)
| LangSeq r1 r2 s1 s2 :
    lang r1 s1 -> lang r2 s2 -> lang (Seq r1 r2) (s1 +:+ s2)
| LangAltL r1 r2 s : lang r1 s -> lang (Alt r1 r2) s
| LangAltR r1 r2 s : lang r2 s -> lang (Alt r1 r2) s
| LangStarNil r : lang (Star r) EmptyString
| LangStarCons r s1 s2 :
    lang r s1 -> lang (Star r) s2 -> lang (Star r) (s1 +:+ s2).

(** [sub] occurs in [s]. *)
Definition occurs_in (sub s : string) : Prop :=
  exists pre post, s = pre +:+ sub +:+ post.

(** Some substring of [s] is a word of [r]. *)
Definition found_in (r : regex) (s : string) : Prop :=
  exists pre w post, s = pre +:+ w +:+ post /\ lang r w.

(** The last character of [s] is a word character; [prev] answers for
    the empty [s]. *)
Fixpoint ends_with_word_char (prev : bool) (s : string) : bool :=
  match s with
  | EmptyString => prev
  | String c s' => ends_with_word_char (isword c) s'
  end.

(** One of the words [ws] stands in [s] between two word boundaries:
    what [\b(w1|w2|...)\b] finds when each word starts and ends with a
    word character. *)
Definition word_bounded_in (ws : list string) (s : string) : Prop :=
  exists pre w post,
    s = pre +:+ w +:+ post /\ In w ws
    /\ ends_with_word_char false pre = false
    /\ starts_with_word_char post = false.

(** How many of [items] the lowered query mentions. *)
Definition mentioned (query_lower : string) (items : option (list string))
    : Z :=
  Z.of_nat (length (List.filter
                      (fun item => contains (lower item) query_lower)
                      (default [] items))).

(** [x + w + ... + w]: [n] binary64 additions of [w], one after the
    other as a loop makes them. *)
Fixpoint add_times (n : nat) (w x : float) : float :=
  match n with
  | O => x
  | S n' => add_times n' w (x + w)%float
  end.

(** The confidence accumulated from [0.0] for so many matched topics,
    questions and keywords and a continuation marker: the binary64
    additions of 0.4, then of 0.3, then of 0.2, then of 0.1. *)
Definition accumulated (topics questions keywords : Z) (marker : bool)
    : float :=
  let c3 :=
    add_times (Z.to_nat keywords) 0.2
      (add_times (Z.to_nat questions) 0.3
         (add_times (Z.to_nat topics) 0.4 0%float)) in
  if marker then (c3 + 0.1)%float else c3.

(** The same sum of decimal numbers. *)
Definition decimal_score (topics questions keywords : Z) (marker : bool)
    : Q :=
  (0.4 * inject_Z topics + 0.3 * inject_Z questions
   + 0.2 * inject_Z keywords + (if marker then 0.1 else 0))%Q.

(** The rational number that a finite [float] is. *)
Definition exact (x : float) : option Q :=
  match Prim2SF x with
  | S754_zero _ => Some 0%Q
  | S754_finite sign mantissa exponent =>
      Some ((if sign then -1 else 1) * inject_Z (Z.pos mantissa)
            * 2 ^ exponent)%Q
  | _ => None
  end.

(** The confidence returned for these counts is within [1e-15] of the
    decimal sum capped at 1, and the accumulated confidence is above
    0.5 exactly when the decimal sum is. *)
Definition near_decimal (topics questions keywords : nat) (marker : bool)
    : bool :=
  let sum :=
    accumulated (Z.of_nat topics) (Z.of_nat questions) (Z.of_nat keywords)
                marker in
  let score :=
    decimal_score (Z.of_nat topics) (Z.of_nat questions)
                  (Z.of_nat keywords) marker in
  match exact (fmin sum 1) with
  | Some q =>
      Qle_bool (Qabs (q - Qmin score 1)) (1 # 1000000000000000)
      && Bool.eqb (0.5 <? sum)%float (Qltb 0.5 score)
  | None => false
  end.

(** Every character of [s] is white space. *)
Fixpoint blank (s : string) : bool :=
  match s with
  | EmptyString => true
  | String c s' => isspace c && blank s'
  end.

(** A piece of a split text that is empty or shows a character. *)
Definition empty_or_visible (p : string) : Prop :=
  p = EmptyString \/ blank p = false.

(** Every tracked response belongs to a stored conversation. *)
Definition responses_have_sessions (m : ConversationManager.manager) : Prop :=
  forall response_token r,
    ConversationManager.active_responses m !! response_token = Some r ->
    is_Some (ConversationManager.conversations m
               !! ConversationManager.Response.call_sid r).

(** The call [o] interrupts the response [response_token]. *)
Definition interrupts (response_token : string) (o : ConversationManager.op)
    : Prop :=
  exists interrupt_reason,
    o = ConversationManager.HandleResponseInterruption response_token
          interrupt_reason.

(** The call [o] adds a message with a content to the session [call_sid]. *)
Definition adds_message (call_sid : string) (o : ConversationManager.op)
    : Prop :=
  exists role content metadata,
    truthy role = true
    /\ o = ConversationManager.AddConversationMessage call_sid role
             (Some content) metadata.

(** The last character of [String c s]. *)
Fixpoint last_char (c : ascii) (s : string) : ascii :=
  match s with
  | EmptyString => c
  | String c' s' => last_char c' s'
  end.

(** A word that [strip] leaves alone at both ends. *)
Definition visible_ends (w : string) : bool :=
  match w with
  | EmptyString => false
  | String c w' => negb (isspace c) && negb (isspace (last_char c w'))
  end.

(** No character of [s] is a punctuation mark. *)
Fixpoint no_punctuation (s : string) : bool :=
  match s with
  | EmptyString => true
  | String c s' => negb (KnowledgeBase.ispunct c) && no_punctuation s'
  end.

(** A word that the normalization of a query leaves as it is: in lower
    case, without punctuation, with visible ends. *)
Definition survives (w : string) : bool :=
  visible_ends w && no_punctuation w && String.eqb (lower w) w.

(** [w] is a keyword of some category. *)
Definition category_keyword (w : string) : bool :=
  existsb (fun entry : string * list string => str_in w entry.2)
          KnowledgeBase.CATEGORY_KEYWORDS.

(** A message of the history in which the caller gives no name: not a
    user's message, or a text without "my name is" before a word. *)
Definition gives_no_name (m : CallHandler.message) : Prop :=
  CallHandler.role m = "user" ->
  exists user_message,
    CallHandler.content m = CallHandler.Text user_message
    /\ CallHandler.search_name (lower user_message) = None.

(** The response that the session [call_sid] of the manager names as
    its active one. *)
Definition session_active_response (call_sid : string)
    (m : ConversationManager.manager) : option (option string) :=
  c ← ConversationManager.conversations m !! call_sid;
  i ← ConversationManager.interruption_management c;
  ConversationManager.active_response_token i.

(** Every stored conversation satisfies [P]. *)
Definition all_sessions (P : ConversationManager.conversation -> Prop)
    (m : ConversationManager.manager) : Prop :=
  forall call_sid c,
    ConversationManager.conversations m !! call_sid = Some c -> P c.

(** A conversation with its three dictionaries. *)
Definition complete (c : ConversationManager.conversation) : Prop :=
  is_Some (ConversationManager.state c)
  /\ is_Some (ConversationManager.follow_up_context c)
  /\ is_Some (ConversationManager.interruption_management c).

(** The ['state'] dictionary of the session [call_sid], when it is
    stored and has one. *)
Definition session_state (call_sid : string) (m : ConversationManager.manager)
    : option ConversationManager.conv_state :=
  c ← ConversationManager.conversations m !! call_sid;
  ConversationManager.state c.

End Spec.

(** * Properties *)

(** ** Facts about the Python primitives *)

Section PyFacts.
Import Py.

Lemma str_app_empty s : EmptyString +:+ s = s.
Proof. reflexivity. Qed.

Lemma str_app_cons c s1 s2 : String c s1 +:+ s2 = String c (s1 +:+ s2).
Proof. reflexivity. Qed.

Lemma str_length_app s1 s2 :
  String.length (s1 +:+ s2) = (String.length s1 + String.length s2)%nat.
Proof.
  induction s1 as [|c s1 IH]; [reflexivity|].
  rewrite str_app_cons. simpl. by rewrite IH.
Qed.

Lemma len_app s1 s2 : len (s1 +:+ s2) = len s1 + len s2.
Proof. unfold len. rewrite str_length_app. lia. Qed.

Lemma length_take n s : String.length (take n s) = Nat.min n (String.length s).
Proof.
  revert s. induction n as [|n IH]; intros [|c s]; simpl; auto.
Qed.

Lemma Qltb_lt x y : Qltb x y = true <-> (x < y)%Q.
Proof.
  unfold Qltb. rewrite negb_true_iff. split.
  - intros H. apply Qnot_le_lt. intros Hle.
    apply Qle_bool_iff in Hle. congruence.
  - intros H. destruct (Qle_bool y x) eqn:E; [|reflexivity].
    apply Qle_bool_iff in E. exfalso. exact (Qlt_not_le _ _ H E).
Qed.

Lemma Qltb_ge x y : Qltb x y = false <-> (y <= x)%Q.
Proof.
  unfold Qltb. rewrite negb_false_iff. apply Qle_bool_iff.
Qed.

Lemma str_app_empty_r s : s +:+ EmptyString = s.
Proof.
  induction s as [|c s IH]; [reflexivity|]. by rewrite str_app_cons, IH.
Qed.

Lemma str_app_assoc s1 s2 s3 : (s1 +:+ s2) +:+ s3 = s1 +:+ s2 +:+ s3.
Proof.
  induction s1 as [|c s1 IH]; [reflexivity|]. by rewrite !str_app_cons, IH.
Qed.

Lemma str_app_eq_empty s1 s2 :
  s1 +:+ s2 = EmptyString -> s1 = EmptyString /\ s2 = EmptyString.
Proof. destruct s1; [by rewrite str_app_empty|discriminate]. Qed.

(** A text that starts with [c] and is [s1 +:+ s2]: [s1] is empty, or
    starts with [c]. *)
Lemma str_app_eq_cons c s s1 s2 :
  s1 +:+ s2 = String c s ->
  (s1 = EmptyString /\ s2 = String c s)
  \/ exists s1', s1 = String c s1' /\ s = s1' +:+ s2.
Proof.
  destruct s1 as [|c1 s1]; [by left|].
  rewrite str_app_cons. intros [= -> <-]. right. by eexists.
Qed.

Lemma prefix_spec a b :
  String.prefix a b = true <-> exists post, b = a +:+ post.
Proof.
  revert b. induction a as [|c a IH]; intros b.
  - destruct b; simpl; split; eauto.
  - destruct b as [|c' b]; simpl.
    + split; [discriminate|]. intros [post H]. discriminate.
    + destruct (ascii_dec c c') as [->|Hne].
      * rewrite IH. split; intros [post H]; exists post.
        -- by rewrite str_app_cons, H.
        -- rewrite str_app_cons in H. by injection H.
      * split; [discriminate|]. intros [post H].
        rewrite str_app_cons in H. injection H as ? ?. by destruct Hne.
Qed.

Lemma contains_spec sub s :
  contains sub s = true <-> exists pre post, s = pre +:+ sub +:+ post.
Proof.
  induction s as [|c s IH].
  - change (contains sub EmptyString)
      with (String.prefix sub EmptyString || false).
    rewrite orb_false_r, prefix_spec. split.
    + intros [post H]. by exists EmptyString, post.
    + intros (pre & post & H). symmetry in H.
      apply str_app_eq_empty in H as [-> H]. eauto.
  - change (contains sub (String c s))
      with (String.prefix sub (String c s) || contains sub s).
    rewrite orb_true_iff, prefix_spec, IH. split.
    + intros [[post H]|(pre & post & H)].
      * by exists EmptyString, post.
      * exists (String c pre), post. by rewrite str_app_cons, H.
    + intros (pre & post & H). destruct pre as [|c' pre].
      * left. by exists post.
      * right. rewrite str_app_cons in H. injection H as _ H. eauto.
Qed.

Lemma lower_char_idempotent c : lower_char (lower_char c) = lower_char c.
Proof. destruct c as [[] [] [] [] [] [] [] []]; reflexivity. Qed.

Lemma lower_idempotent s : lower (lower s) = lower s.
Proof.
  induction s as [|c s IH]; [reflexivity|].
  simpl. by rewrite lower_char_idempotent, IH.
Qed.

End PyFacts.

(** ** The regular-expression matcher against the words it denotes *)

Section RegexFacts.
Import Py Regex Spec.

Lemma lang_void s : ~ lang Void s.
Proof. inversion 1. Qed.

Lemma lang_eps s : lang Eps s <-> s = EmptyString.
Proof. split; [by inversion 1|intros ->; constructor]. Qed.

Lemma lang_seq r1 r2 s :
  lang (Seq r1 r2) s
  <-> exists s1 s2, s = s1 +:+ s2 /\ lang r1 s1 /\ lang r2 s2.
Proof.
  split.
  - inversion 1; subst. eauto.
  - intros (s1 & s2 & -> & H1 & H2). by constructor.
Qed.

Lemma lang_alt r1 r2 s : lang (Alt r1 r2) s <-> lang r1 s \/ lang r2 s.
Proof.
  split.
  - inversion 1; subst; auto.
  - intros [H|H]; [by apply LangAltL|by apply LangAltR].
Qed.

Lemma lang_mk_seq r1 r2 s : lang (mk_seq r1 r2) s <-> lang (Seq r1 r2) s.
Proof.
  assert (Hl : forall r, lang r s <-> lang (Seq Eps r) s).
  { intros r. rewrite lang_seq. split.
    - intros H. exists EmptyString, s. repeat split; [constructor|done].
    - intros (s1 & s2 & -> & ->%lang_eps & H). by rewrite str_app_empty. }
  assert (Hr : forall r, lang r s <-> lang (Seq r Eps) s).
  { intros r. rewrite lang_seq. split.
    - intros H. exists s, EmptyString. rewrite str_app_empty_r.
      repeat split; [done|constructor].
    - intros (s1 & s2 & -> & H & ->%lang_eps). by rewrite str_app_empty_r. }
  assert (Hvl : forall r, lang Void s <-> lang (Seq Void r) s).
  { intros r. rewrite lang_seq. split; [by intros ?%lang_void|].
    by intros (s1 & s2 & _ & ?%lang_void & _). }
  assert (Hvr : forall r, lang Void s <-> lang (Seq r Void) s).
  { intros r. rewrite lang_seq. split; [by intros ?%lang_void|].
    by intros (s1 & s2 & _ & _ & ?%lang_void). }
  destruct r1, r2; simpl; auto; reflexivity.
Qed.

Lemma lang_mk_alt r1 r2 s : lang (mk_alt r1 r2) s <-> lang (Alt r1 r2) s.
Proof.
  assert (Hl : forall r, lang r s <-> lang (Alt Void r) s).
  { intros r. rewrite lang_alt. split; [auto|].
    by intros [?%lang_void|?]. }
  assert (Hr : forall r, lang r s <-> lang (Alt r Void) s).
  { intros r. rewrite lang_alt. split; [auto|].
    by intros [?|?%lang_void]. }
  destruct r1, r2; simpl; auto; reflexivity.
Qed.

Lemma nullable_spec r : nullable r = true <-> lang r EmptyString.
Proof.
  induction r as [| |p|r1 IH1 r2 IH2|r1 IH1 r2 IH2|r IH]; simpl.
  - split; [discriminate|by intros ?%lang_void].
  - split; [constructor|done].
  - split; [discriminate|inversion 1].
  - rewrite andb_true_iff, IH1, IH2, lang_seq. split.
    + intros [H1 H2]. by exists EmptyString, EmptyString.
    + intros (s1 & s2 & H & H1 & H2). symmetry in H.
      by apply str_app_eq_empty in H as [-> ->].
  - by rewrite orb_true_iff, IH1, IH2, lang_alt.
  - split; [constructor|done].
Qed.

(** A non-empty word of [Star r] starts with a non-empty word of [r]. *)
Lemma lang_star_cons r c s :
  lang (Star r) (String c s) ->
  exists s1 s2, s = s1 +:+ s2 /\ lang r (String c s1) /\ lang (Star r) s2.
Proof.
  intros H. remember (Star r) as r' eqn:Hr.
  remember (String c s) as w eqn:Hw.
  induction H as [| | | | | |r0 s1 s2 H1 _ H2 IH2]; try discriminate.
  injection Hr as ->.
  apply str_app_eq_cons in Hw as [[-> ->]|(s1' & -> & ->)].
  - by apply IH2.
  - eauto.
Qed.

Lemma deriv_spec c r s : lang (deriv c r) s <-> lang r (String c s).
Proof.
  revert s.
  induction r as [| |p|r1 IH1 r2 IH2|r1 IH1 r2 IH2|r IH]; intros s; simpl.
  - split; by intros ?%lang_void.
  - split; [by intros ?%lang_void|inversion 1].
  - destruct (p c) eqn:Hp.
    + rewrite lang_eps. split; [intros ->; by constructor|].
      by inversion 1.
    + split; [by intros ?%lang_void|]. inversion 1; congruence.
  - rewrite lang_mk_alt, lang_alt, lang_mk_seq, !lang_seq. split.
    + intros [(s1 & s2 & -> & H1 & H2)|H].
      * exists (String c s1), s2. rewrite str_app_cons. by rewrite <- IH1.
      * destruct (nullable r1) eqn:Hn; [|by apply lang_void in H].
        exists EmptyString, (String c s).
        rewrite <- IH2, <- nullable_spec. by rewrite str_app_empty.
    + intros (s1 & s2 & H & H1 & H2). symmetry in H.
      apply str_app_eq_cons in H as [[-> ->]|(s1' & -> & ->)].
      * right. apply nullable_spec in H1. rewrite H1. by apply IH2.
      * left. exists s1', s2. by rewrite IH1.
  - by rewrite lang_mk_alt, !lang_alt, IH1, IH2.
  - rewrite lang_mk_seq, lang_seq. split.
    + intros (s1 & s2 & -> & H1 & H2).
      rewrite <- str_app_cons. constructor; [by apply IH|done].
    + intros (s1 & s2 & -> & H1 & H2)%lang_star_cons.
      exists s1, s2. by rewrite IH.
Qed.

Lemma match_prefix_spec r s :
  match_prefix r s = true <-> exists w post, s = w +:+ post /\ lang r w.
Proof.
  revert r. induction s as [|c s IH]; intros r; simpl.
  - rewrite orb_false_r, nullable_spec. split.
    + intros H. by exists EmptyString, EmptyString.
    + intros (w & post & H & Hw). symmetry in H.
      by apply str_app_eq_empty in H as [-> _].
  - rewrite orb_true_iff, nullable_spec, IH. split.
    + intros [H|(w & post & -> & Hw)].
      * by exists EmptyString, (String c s).
      * exists (String c w), post. by rewrite str_app_cons, <- deriv_spec.
    + intros (w & post & H & Hw). symmetry in H.
      apply str_app_eq_cons in H as [[-> _]|(w' & -> & ->)]; [by left|].
      right. exists w', post. by rewrite deriv_spec.
Qed.

Lemma search_spec r s : search r s = true <-> found_in r s.
Proof.
  unfold found_in. induction s as [|c s IH].
  - change (search r EmptyString) with (match_prefix r EmptyString || false).
    rewrite orb_false_r, match_prefix_spec. split.
    + intros (w & post & H & Hw). by exists EmptyString, w, post.
    + intros (pre & w & post & H & Hw). symmetry in H.
      apply str_app_eq_empty in H as [-> H]. eauto.
  - change (search r (String c s))
      with (match_prefix r (String c s) || search r s).
    rewrite orb_true_iff, match_prefix_spec, IH. split.
    + intros [(w & post & H & Hw)|(pre & w & post & H & Hw)].
      * by exists EmptyString, w, post.
      * exists (String c pre), w, post. by rewrite str_app_cons, H.
    + intros (pre & w & post & H & Hw). destruct pre as [|c' pre].
      * left. exists w, post. split; [exact H|exact Hw].
      * right. rewrite str_app_cons in H. injection H as _ H. eauto.
Qed.

Lemma strip_prefix_spec w s rest :
  strip_prefix w s = Some rest <-> s = w +:+ rest.
Proof.
  revert s. induction w as [|a w IH]; intros s.
  - simpl. rewrite str_app_empty. split; [by intros [= ->]|by intros ->].
  - destruct s as [|b s]; simpl.
    + split; [discriminate|]. rewrite str_app_cons. discriminate.
    + rewrite str_app_cons. destruct (Ascii.eqb a b) eqn:E.
      * apply Ascii.eqb_eq in E as ->. rewrite IH.
        split; [by intros ->|by intros [= ->]].
      * apply Ascii.eqb_neq in E. split; [discriminate|].
        intros [= -> _]. by destruct E.
Qed.

Lemma word_here_spec w s :
  word_here w s = true
  <-> exists post, s = w +:+ post /\ starts_with_word_char post = false.
Proof.
  unfold word_here. destruct (strip_prefix w s) as [rest|] eqn:E.
  - apply strip_prefix_spec in E as ->. rewrite negb_true_iff. split.
    + intros H. by exists rest.
    + intros (post & Heq & H). by apply String.app_inj in Heq as ->.
  - split; [discriminate|]. intros (post & Heq & _).
    apply strip_prefix_spec in Heq. congruence.
Qed.

Lemma words_here_spec prev ws s :
  negb prev && existsb (fun w => word_here w s) ws = true
  <-> exists w post, s = w +:+ post /\ In w ws /\ prev = false
                     /\ starts_with_word_char post = false.
Proof.
  rewrite andb_true_iff, negb_true_iff, existsb_exists. split.
  - intros [Hp (w & Hin & (post & -> & Hpost)%word_here_spec)].
    by exists w, post.
  - intros (w & post & -> & Hin & Hp & Hpost). split; [done|].
    exists w. split; [done|]. apply word_here_spec. eauto.
Qed.

Lemma search_words_from_spec prev ws s :
  search_words_from prev ws s = true
  <-> exists pre w post,
        s = pre +:+ w +:+ post /\ In w ws
        /\ ends_with_word_char prev pre = false
        /\ starts_with_word_char post = false.
Proof.
  revert prev. induction s as [|c s IH]; intros prev.
  - change (search_words_from prev ws EmptyString)
      with (negb prev && existsb (fun w => word_here w EmptyString) ws
            || false).
    rewrite orb_false_r, words_here_spec. split.
    + intros (w & post & Heq & Hin & Hp & Hpost).
      by exists EmptyString, w, post.
    + intros (pre & w & post & Heq & Hin & Hp & Hpost). symmetry in Heq.
      apply str_app_eq_empty in Heq as [-> Heq]. simpl in Hp.
      exists w, post. by rewrite Heq.
  - change (search_words_from prev ws (String c s))
      with (negb prev && existsb (fun w => word_here w (String c s)) ws
            || search_words_from (isword c) ws s).
    rewrite orb_true_iff, words_here_spec, IH. split.
    + intros [(w & post & Heq & Hin & Hp & Hpost)
             |(pre & w & post & Heq & Hin & Hp & Hpost)].
      * by exists EmptyString, w, post.
      * exists (String c pre), w, post. by rewrite str_app_cons, Heq.
    + intros (pre & w & post & Heq & Hin & Hp & Hpost).
      destruct pre as [|c' pre].
      * left. exists w, post. by repeat split.
      * right. rewrite str_app_cons in Heq. injection Heq as <- ->.
        by exists pre, w, post.
Qed.

Lemma search_words_spec ws s :
  search_words ws s = true <-> word_bounded_in ws s.
Proof. apply search_words_from_spec. Qed.

End RegexFacts.

(** ** Stores swept by key *)

Section StoreFacts.
Context `{Countable K} {V : Type}.

(** Deleting a list of keys one by one. *)
Lemma lookup_delete_keys (m : gmap K V) (keys : list K) (k : K) :
  fold_right (fun key acc => delete key acc) m keys !! k
  = if decide (k ∈ keys) then None else m !! k.
Proof.
  induction keys as [|key keys IH]; simpl.
  - destruct (decide (k ∈ [])) as [Hin|_]; [|done].
    by apply not_elem_of_nil in Hin.
  - destruct (decide (key = k)) as [->|Hne].
    + rewrite lookup_delete_eq.
      destruct (decide (k ∈ k :: keys)) as [_|Hnin]; [done|].
      destruct Hnin. by left.
    + rewrite lookup_delete_ne, IH by done.
      destruct (decide (k ∈ keys)) as [Hin|Hnin];
        destruct (decide (k ∈ key :: keys)) as [Hin'|Hnin']; try done.
      * destruct Hnin'. by right.
      * apply elem_of_cons in Hin' as [?|?]; by simplify_eq.
Qed.

(** The keys of the entries that pass a test. *)
Lemma elem_of_filter_keys (P : K * V -> Prop) `{!forall kv, Decision (P kv)}
    (m : gmap K V) (k : K) :
  k ∈ (map_to_list (filter P m)).*1 <-> exists v, m !! k = Some v /\ P (k, v).
Proof.
  rewrite list_elem_of_fmap. split.
  - intros ([k' v] & -> & Hin). exists v.
    apply elem_of_map_to_list in Hin. by apply map_lookup_filter_Some in Hin.
  - intros (v & Hv & HP). exists (k, v). split; [done|].
    apply elem_of_map_to_list. by apply map_lookup_filter_Some.
Qed.

End StoreFacts.

(** ** The call handler *)

Section CallHandlerFacts.
Import Py Regex Chunker CallHandler Spec.

(** *** The answer made fit for speech *)

Lemma len_limit_answer s : len (limit_answer s) <= 1000.
Proof.
  unfold limit_answer. destruct (len s >? 1000) eqn:E.
  - rewrite len_app. change (slice_to 997 s) with (take (Z.to_nat 997) s).
    assert (len (take (Z.to_nat 997) s) = 997) as ->.
    { unfold len in *. rewrite length_take. lia. }
    reflexivity.
  - lia.
Qed.

Lemma limit_answer_long s :
  1000 < len s -> limit_answer s = take 997 s +:+ "...".
Proof.
  intros H. unfold limit_answer.
  destruct (len s >? 1000) eqn:E; [reflexivity|lia].
Qed.

Lemma limit_answer_short s : len s <= 1000 -> limit_answer s = s.
Proof.
  intros H. unfold limit_answer.
  destruct (len s >? 1000) eqn:E; [lia|reflexivity].
Qed.

Lemma truthy_limit_answer s : truthy s = true -> truthy (limit_answer s) = true.
Proof.
  intros H. unfold limit_answer. destruct (len s >? 1000) eqn:E; [|exact H].
  change (slice_to 997 s) with (take (Z.to_nat 997) s).
  destruct s as [|c s]; [discriminate|reflexivity].
Qed.

Lemma truthy_valid_answer a : truthy (valid_answer a) = true.
Proof.
  destruct a as [s|]; simpl; [|reflexivity].
  destruct (truthy s) eqn:E; simpl; [|reflexivity].
  destruct (len (strip s) =? 0); simpl; [reflexivity|exact E].
Qed.

Lemma spoken_answer_facts (ai_response : answer) :
  len (limit_answer (valid_answer ai_response)) <= 1000
  /\ truthy (limit_answer (valid_answer ai_response)) = true
  /\ (forall s, ai_response = Text s -> strip s <> EmptyString ->
        1000 < len s ->
        limit_answer (valid_answer ai_response) = take 997 s +:+ "...")
  /\ (forall s, ai_response = Text s -> strip s <> EmptyString ->
        len s <= 1000 -> limit_answer (valid_answer ai_response) = s)
  /\ (ai_response = NotText
      \/ (exists s, ai_response = Text s /\ strip s = EmptyString) ->
        limit_answer (valid_answer ai_response) = generic_answer).
Proof.
  assert (Hvalid : forall s, ai_response = Text s -> strip s <> EmptyString ->
                             valid_answer ai_response = s).
  { intros s -> Hs. simpl.
    destruct s as [|c s]; [by destruct Hs|]. simpl.
    destruct (len (strip (String c s)) =? 0) eqn:E; [|reflexivity].
    apply Z.eqb_eq in E. unfold len in E.
    destruct (strip (String c s)); [by destruct Hs|discriminate]. }
  split; [apply len_limit_answer|].
  split; [apply truthy_limit_answer, truthy_valid_answer|].
  split; [|split].
  - intros s Hs Hne Hlen. rewrite (Hvalid s Hs Hne).
    by apply limit_answer_long.
  - intros s Hs Hne Hlen. rewrite (Hvalid s Hs Hne).
    by apply limit_answer_short.
  - intros [-> | (s & -> & Hs)]; [reflexivity|].
    cbn [valid_answer]. rewrite Hs.
    change (len EmptyString =? 0) with true. cbn [negb].
    rewrite andb_false_r. reflexivity.
Qed.

Lemma append_message_insert (calls : calls_store) call_sid d h msg :
  conversation_history d = Some h ->
  append_message call_sid msg (<[call_sid := d]> calls)
  = Some (<[call_sid := set_conversation_history (h ++ [msg])%list d]> calls).
Proof.
  intros Hh. unfold append_message.
  rewrite lookup_insert_eq. simpl. rewrite Hh. simpl.
  by rewrite insert_insert_eq.
Qed.

(** *** The splitter and the detector on examples *)

Example split_sentences_examples :
  split_sentences "Rates are low. Call us today!  Any questions?"
  = ["Rates are low."; "Call us today!"; "Any questions?"]
  /\ split_sentences "Hello. " = ["Hello."; ""]
  /\ split_sentences "  3.5 percent" = ["  3.5 percent"]
  /\ split_sentences "" = [""].
Proof. repeat split. Qed.

Example chunk_response_example :
  _chunk_response "Rates are low. Call us today!  Any questions?" 30
  = ["Rates are low. Call us today!"; "Any questions?"].
Proof. reflexivity. Qed.

Example is_end_of_call_examples :
  is_end_of_call "GOODBYE" = true
  /\ is_end_of_call "  I'm  all   set " = true
  /\ is_end_of_call "I do not have more questions" = true
  /\ is_end_of_call "What is a good cap rate?" = false.
Proof. repeat split; vm_compute; reflexivity. Qed.

(** *** The chunker *)

Lemma blank_app s1 s2 : blank (s1 +:+ s2) = blank s1 && blank s2.
Proof.
  induction s1 as [|c s1 IH]; [reflexivity|].
  rewrite str_app_cons. simpl. rewrite IH. by rewrite andb_assoc.
Qed.

Lemma lstrip_empty s : lstrip s = EmptyString <-> blank s = true.
Proof.
  induction s as [|c s IH]; simpl; [done|].
  destruct (isspace c); simpl; [exact IH|]. split; discriminate.
Qed.

Lemma rstrip_empty s : rstrip s = EmptyString <-> blank s = true.
Proof.
  induction s as [|c s IH]; simpl; [done|].
  destruct (rstrip s) eqn:E.
  - destruct (isspace c); simpl; [|split; discriminate].
    split; intros _; [by apply IH|reflexivity].
  - split; [discriminate|]. intros [_ H]%andb_true_iff.
    apply IH in H. discriminate.
Qed.

Lemma blank_rstrip s : blank (rstrip s) = blank s.
Proof.
  induction s as [|c s IH]; simpl; [done|].
  destruct (rstrip s) eqn:E.
  - assert (blank s = true) as -> by by apply rstrip_empty.
    destruct (isspace c) eqn:Ec; simpl; by rewrite ?Ec.
  - change (blank (String c (String a s0))) with
      (isspace c && blank (String a s0)). by rewrite IH.
Qed.

Lemma strip_empty s : strip s = EmptyString <-> blank s = true.
Proof. unfold strip. by rewrite lstrip_empty, blank_rstrip. Qed.

Lemma strip_visible s : blank s = false -> truthy (strip s) = true.
Proof.
  intros H. destruct (strip s) eqn:E; [|reflexivity].
  apply strip_empty in E. congruence.
Qed.

Lemma isspace_not_terminator c : isspace c = true -> is_terminator c = false.
Proof.
  unfold isspace, is_terminator, between. intros H.
  destruct (code c =? 46)%N eqn:E1; [apply N.eqb_eq in E1; rewrite E1 in H; discriminate|].
  destruct (code c =? 33)%N eqn:E2; [apply N.eqb_eq in E2; rewrite E2 in H; discriminate|].
  destruct (code c =? 63)%N eqn:E3; [apply N.eqb_eq in E3; rewrite E3 in H; discriminate|].
  reflexivity.
Qed.

(** The pieces of a split: all but the first are empty or visible, and
    the first is blank only when the whole text is. *)
Lemma split_from_pieces s :
  Forall empty_or_visible (split_from InSeparator s)
  /\ forall a, exists hd tl,
       split_from (InSentence a) s = hd :: tl
       /\ Forall empty_or_visible tl
       /\ (a = false -> blank hd = true -> blank s = true).
Proof.
  induction s as [|c s [IHsep IHsen]].
  - split; [repeat constructor; by left|].
    intros a. exists EmptyString, []. by repeat split.
  - split.
    + simpl. destruct (isspace c) eqn:Ec; [exact IHsep|].
      destruct (IHsen (is_terminator c)) as (hd & tl & -> & Htl & _).
      simpl. constructor; [|exact Htl]. right. simpl. by rewrite Ec.
    + intros a. simpl.
      destruct (a && isspace c) eqn:Eac.
      * exists EmptyString, (split_from InSeparator s).
        split; [reflexivity|]. split; [exact IHsep|].
        intros ->. discriminate.
      * destruct (IHsen (is_terminator c)) as (hd & tl & -> & Htl & Hhd).
        exists (String c hd), tl. split; [reflexivity|].
        split; [exact Htl|]. intros -> Hb. simpl in Hb.
        apply andb_true_iff in Hb as [Hc Hb]. simpl. rewrite Hc. simpl.
        apply Hhd; [by apply isspace_not_terminator|exact Hb].
Qed.

Lemma split_sentences_pieces text :
  blank text = false -> Forall empty_or_visible (split_sentences text).
Proof.
  intros Hv. unfold split_sentences.
  destruct (proj2 (split_from_pieces text) false) as (hd & tl & -> & Htl & Hhd).
  constructor; [|exact Htl]. right.
  destruct (blank hd) eqn:E; [|reflexivity].
  rewrite Hhd in Hv by done. discriminate.
Qed.

(** What the loop keeps true of [(chunks, current_chunk)]. *)
Lemma chunk_step_invariant max_chunk_length chunks current sentence :
  Forall (fun c => truthy c = true) chunks ->
  empty_or_visible current ->
  empty_or_visible sentence ->
  let '(chunks', current') :=
    chunk_step max_chunk_length (chunks, current) sentence in
  Forall (fun c => truthy c = true) chunks' /\ empty_or_visible current'.
Proof.
  intros Hchunks Hcur Hsen. unfold chunk_step.
  destruct (len current + len sentence <=? max_chunk_length).
  - split; [exact Hchunks|].
    destruct current as [|c current]; [exact Hsen|]. simpl truthy. cbv iota.
    right. destruct Hcur as [Hcur|Hcur]; [discriminate|].
    rewrite blank_app, Hcur. reflexivity.
  - split; [|exact Hsen].
    destruct current as [|c current]; [exact Hchunks|]. simpl truthy. cbv iota.
    destruct Hcur as [Hcur|Hcur]; [discriminate|].
    apply Forall_app. split; [exact Hchunks|].
    repeat constructor. by apply strip_visible.
Qed.

Lemma chunk_loop_invariant max_chunk_length sentences chunks current :
  Forall empty_or_visible sentences ->
  Forall (fun c => truthy c = true) chunks ->
  empty_or_visible current ->
  let '(chunks', current') :=
    fold_left (chunk_step max_chunk_length) sentences (chunks, current) in
  Forall (fun c => truthy c = true) chunks' /\ empty_or_visible current'.
Proof.
  revert chunks current.
  induction sentences as [|sentence sentences IH];
    intros chunks current Hsen Hchunks Hcur; [by split|].
  cbn [fold_left]. inversion_clear Hsen as [|? ? Hs Hrest].
  pose proof (chunk_step_invariant max_chunk_length chunks current sentence
                Hchunks Hcur Hs) as Hstep.
  destruct (chunk_step max_chunk_length (chunks, current) sentence)
    as [chunks1 current1].
  destruct Hstep as [H1 H2]. by apply IH.
Qed.

Lemma chunk_response_visible text max_chunk_length :
  blank text = false ->
  Forall (fun c => truthy c = true) (_chunk_response text max_chunk_length).
Proof.
  intros Hv. unfold _chunk_response.
  destruct (len text <=? max_chunk_length).
  - repeat constructor. destruct text; [discriminate|reflexivity].
  - pose proof (chunk_loop_invariant max_chunk_length (split_sentences text)
                  [] EmptyString (split_sentences_pieces text Hv)
                  (List.Forall_nil _) (or_introl eq_refl)) as Hloop.
    destruct (fold_left (chunk_step max_chunk_length) (split_sentences text)
                        ([], EmptyString)) as [chunks current].
    destruct Hloop as [Hchunks Hcur].
    destruct current as [|c current]; [exact Hchunks|]. simpl truthy. cbv iota.
    apply Forall_app. split; [exact Hchunks|].
    repeat constructor. apply strip_visible.
    destruct Hcur as [Hcur|Hcur]; [discriminate|exact Hcur].
Qed.

(** C9, as the code has it.  A text no longer than [max_chunk_length]
    comes back unchanged as the only chunk; and for a text with a
    character that is not white space ([text.strip()] is not empty), no
    chunk is the empty string. *)
Theorem chunk_response_short_and_nonempty text max_chunk_length :
  (len text <= max_chunk_length ->
     _chunk_response text max_chunk_length = [text])
  /\ (strip text <> EmptyString ->
        Forall (fun chunk => chunk <> EmptyString)
               (_chunk_response text max_chunk_length)).
Proof.
  split.
  - intros H. unfold _chunk_response.
    destruct (len text <=? max_chunk_length) eqn:E; [reflexivity|lia].
  - intros H.
    assert (Hv : blank text = false).
    { destruct (blank text) eqn:E; [|reflexivity].
      apply strip_empty in E. by destruct H. }
    eapply Forall_impl; [exact (chunk_response_visible text max_chunk_length Hv)|].
    intros c Hc ->. discriminate.
Qed.

Lemma chunk_response_short_and_nonempty_witness :
  _chunk_response "Rates are low." 150 = ["Rates are low."]
  /\ Forall (fun chunk => chunk <> EmptyString)
            (_chunk_response "Rates are low. Call us today." 20).
Proof.
  split.
  - apply (proj1 (chunk_response_short_and_nonempty "Rates are low." 150)).
    vm_compute. discriminate.
  - apply (proj2 (chunk_response_short_and_nonempty
                    "Rates are low. Call us today." 20)).
    vm_compute. discriminate.
Defined.

(** The empty text, and a text of white space longer than the limit,
    each come back as one empty chunk. *)
Lemma chunk_response_empty_chunk :
  _chunk_response "" 150 = [""]
  /\ _chunk_response "   " 2 = [""]
  /\ ~ Forall (fun chunk => chunk <> EmptyString) (_chunk_response "" 150).
Proof.
  split; [reflexivity|]. split; [reflexivity|].
  intros H. inversion H as [|? ? Hne _]. by apply Hne.
Qed.

(** *** What the chunker does keep *)

Lemma join_snoc sep g s :
  g <> [] -> join sep (g ++ [s]) = join sep g +:+ sep +:+ s.
Proof.
  induction g as [|x g IH]; [done|]. intros _.
  destruct g as [|y g]; [reflexivity|].
  change (join sep ((x :: y :: g) ++ [s]))
    with (x +:+ sep +:+ join sep ((y :: g) ++ [s])).
  rewrite IH by done.
  change (join sep (x :: y :: g)) with (x +:+ sep +:+ join sep (y :: g)).
  by rewrite !str_app_assoc.
Qed.

(** The chunks so far are the groups closed so far, joined and stripped,
    and the running chunk is the open group joined. *)
Lemma chunk_loop_groups max_chunk_length sentences groups g :
  let chunks_of groups :=
    strip <$> List.filter truthy (join " " <$> groups) in
  Forall (fun g => g <> []) groups ->
  exists groups' g',
    fold_left (chunk_step max_chunk_length) sentences
              (chunks_of groups, join " " g)
    = (chunks_of groups', join " " g')
    /\ (concat groups' ++ g' = concat groups ++ g ++ sentences)%list
    /\ Forall (fun g => g <> []) groups'.
Proof.
  intros chunks_of. revert groups g.
  induction sentences as [|s sentences IH]; intros groups g Hne.
  - exists groups, g. by rewrite !app_nil_r.
  - cbn [fold_left]. unfold chunk_step at 2.
    assert (Hclose : exists groups1,
      (if truthy (join " " g)
       then (chunks_of groups ++ [strip (join " " g)])%list
       else chunks_of groups) = chunks_of groups1
      /\ concat groups1 = (concat groups ++ g)%list
      /\ Forall (fun g => g <> []) groups1).
    { destruct g as [|x g].
      - exists groups. by rewrite app_nil_r.
      - exists (groups ++ [x :: g])%list.
        rewrite concat_app. cbn [concat]. rewrite app_nil_r.
        split; [|split; [done|]].
        + subst chunks_of. cbv beta. rewrite fmap_app, List.filter_app, fmap_app.
          cbn [fmap list_fmap List.filter].
          destruct (truthy (join " " (x :: g))); [done|].
          by rewrite app_nil_r.
        + apply Forall_app. split; [done|]. by repeat constructor. }
    destruct Hclose as (groups1 & Hchunks1 & Hconcat1 & Hne1).
    destruct (len (join " " g) + len s <=? max_chunk_length).
    + destruct (truthy (join " " g)) eqn:Ht.
      * destruct (IH groups (g ++ [s])%list Hne) as (groups' & g' & Hf & Hc & Hn).
        exists groups', g'. rewrite join_snoc in Hf by (by destruct g).
        rewrite Hf. split; [done|]. split; [|done].
        by rewrite Hc, <- !app_assoc.
      * destruct (IH groups1 [s] Hne1) as (groups' & g' & Hf & Hc & Hn).
        exists groups', g'. rewrite <- Hchunks1 in Hf.
        change (join " " [s]) with s in Hf. rewrite Hf.
        split; [done|]. split; [|done].
        by rewrite Hc, Hconcat1, <- !app_assoc.
    + destruct (IH groups1 [s] Hne1) as (groups' & g' & Hf & Hc & Hn).
      exists groups', g'. rewrite <- Hchunks1 in Hf.
      change (join " " [s]) with s in Hf. rewrite Hf.
      split; [done|]. split; [|done].
      by rewrite Hc, Hconcat1, <- !app_assoc.
Qed.

(** The chunks of a text longer than the limit are its sentences, taken
    in order in groups, each group joined with single spaces and
    stripped; a group that joins to the empty string - a last, empty
    piece on its own - gives no chunk. *)
Lemma chunk_response_groups text max_chunk_length :
  max_chunk_length < len text ->
  exists groups,
    concat groups = split_sentences text
    /\ Forall (fun g => g <> []) groups
    /\ _chunk_response text max_chunk_length
       = strip <$> List.filter truthy (join " " <$> groups).
Proof.
  intros Hlong. unfold _chunk_response.
  destruct (len text <=? max_chunk_length) eqn:E; [lia|].
  destruct (chunk_loop_groups max_chunk_length (split_sentences text) [] []
              (List.Forall_nil _)) as (groups & g & Hf & Hc & Hn).
  cbn in Hf. rewrite Hf. cbn in Hc.
  destruct g as [|x g].
  - exists groups. rewrite app_nil_r in Hc. by repeat split.
  - exists (groups ++ [x :: g])%list.
    rewrite concat_app. cbn [concat]. rewrite app_nil_r.
    split; [done|]. split.
    + apply Forall_app. split; [done|]. by repeat constructor.
    + rewrite fmap_app, List.filter_app, fmap_app.
      cbn [fmap list_fmap List.filter].
      destruct (truthy (join " " (x :: g))); [done|]. by rewrite app_nil_r.
Qed.

Lemma length_lstrip s : (String.length (lstrip s) <= String.length s)%nat.
Proof.
  induction s as [|c s IH]; simpl; [done|].
  destruct (isspace c); simpl; lia.
Qed.

Lemma length_rstrip s : (String.length (rstrip s) <= String.length s)%nat.
Proof.
  induction s as [|c s IH]; simpl; [done|].
  destruct (rstrip s); [destruct (isspace c)|]; simpl in *; lia.
Qed.

Lemma len_strip s : len (strip s) <= len s.
Proof.
  unfold len, strip.
  pose proof (length_lstrip (rstrip s)). pose proof (length_rstrip s). lia.
Qed.

(** How far a chunk can pass the limit: a chunk is a single sentence,
    stripped, or has at most [max_chunk_length + 1] characters - the
    space that joins two sentences is not counted by the test. *)
Lemma chunk_response_bound text max_chunk_length :
  Forall (fun chunk =>
            len chunk <= max_chunk_length + 1
            \/ exists sentence, In sentence (split_sentences text)
                                /\ chunk = strip sentence)
         (_chunk_response text max_chunk_length).
Proof.
  set (good := fun chunk =>
         len chunk <= max_chunk_length + 1
         \/ exists sentence, In sentence (split_sentences text)
                             /\ chunk = strip sentence).
  set (held := fun current =>
         current = EmptyString \/ len current <= max_chunk_length + 1
         \/ In current (split_sentences text)).
  assert (Hflush : forall chunks current,
    Forall good chunks -> held current ->
    Forall good (if truthy current then (chunks ++ [strip current])%list
                 else chunks)).
  { intros chunks current Hchunks Hcur.
    destruct current as [|c current]; [done|]. cbn [truthy].
    apply Forall_app. split; [done|]. apply Forall_singleton. unfold good.
    destruct Hcur as [Hcur|[Hcur|Hcur]]; [done| |].
    - left. pose proof (len_strip (String c current)). lia.
    - right. by eexists. }
  assert (Hloop : forall sentences chunks current,
    Forall (fun s => In s (split_sentences text)) sentences ->
    Forall good chunks -> held current ->
    let '(chunks', current') :=
      fold_left (chunk_step max_chunk_length) sentences (chunks, current) in
    Forall good chunks' /\ held current').
  { induction sentences as [|s sentences IH];
      intros chunks current Hin Hchunks Hcur; [done|].
    inversion_clear Hin as [|? ? Hs Hrest]. cbn [fold_left].
    unfold chunk_step at 2.
    destruct (len current + len s <=? max_chunk_length) eqn:E.
    - apply IH; [done..|]. unfold held. right. left.
      destruct current as [|c current]; cbn [truthy].
      + change (len EmptyString) with 0 in E. lia.
      + rewrite !len_app. change (len " ") with 1. lia.
    - apply IH; [done| |].
      + by apply Hflush.
      + unfold held. right. by right. }
  unfold _chunk_response.
  destruct (len text <=? max_chunk_length) eqn:E.
  - apply Forall_singleton. unfold good. left. lia.
  - assert (Hall : Forall (fun s => In s (split_sentences text))
                          (split_sentences text)).
    { apply List.Forall_forall. auto. }
    specialize (Hloop (split_sentences text) [] EmptyString Hall
                  (List.Forall_nil _) (or_introl eq_refl)).
    destruct (fold_left (chunk_step max_chunk_length) (split_sentences text)
                        ([], EmptyString)) as [chunks current].
    destruct Hloop as [Hchunks Hcur]. by apply Hflush.
Qed.

(** C3.  Two sentences of 5 and 6 characters pass the test
    [len(current_chunk) + len(sentence) <= max_chunk_length] at
    [max_chunk_length = 11] and are joined with a space into one chunk
    of 12 characters: a chunk of two sentences, each within the limit,
    that exceeds the limit.  The same happens at the default limit of
    150 with sentences of 74 and 76 characters. *)
Theorem chunk_response_exceeds_limit :
  (split_sentences "aaaa. bbbbb." = ["aaaa."; "bbbbb."]
   /\ _chunk_response "aaaa. bbbbb." 11 = ["aaaa. bbbbb."]
   /\ len "aaaa. bbbbb." = 12
   /\ ~ Forall (fun chunk => len chunk <= 11
                             \/ In chunk (split_sentences "aaaa. bbbbb."))
               (_chunk_response "aaaa. bbbbb." 11))
  /\ (let first := repeat_char "a" 73 +:+ "." in
      let second := repeat_char "b" 75 +:+ "." in
      let text := first +:+ " " +:+ second in
      split_sentences text = [first; second]
      /\ len first = 74 /\ len second = 76
      /\ _chunk_response text default_max_chunk_length = [text]
      /\ len text = 151).
Proof.
  split.
  - split; [reflexivity|]. split; [reflexivity|]. split; [reflexivity|].
    intros H. inversion H as [|? ? [Hlen|Hin] _].
    + vm_compute in Hlen. by apply Hlen.
    + simpl in Hin. destruct Hin as [Hin|[Hin|[]]]; discriminate.
  - repeat split; vm_compute; reflexivity.
Qed.

(** *** Terminal call status *)

Lemma is_terminal_In s :
  In s ["completed"; "failed"; "busy"; "no-answer"; "canceled"] ->
  is_terminal (Some s) = true.
Proof.
  simpl. intros H.
  repeat (destruct H as [<-|H]; [reflexivity|]). destruct H.
Qed.

(** C8.  When a status update carries a terminal status for a call of
    the store, [handle_call_status] removes the call's record and
    reports success, whatever the write of the session record to
    durable storage does: [write_json] is any function, the ones that
    report failure included.  The record written is the updated one, the
    storage is left as the write left it, and the other records stay as
    they were. *)
Theorem handle_call_status_terminal_removes
    (storage : Type)
    (write_json : string -> call_data -> storage -> storage * bool)
    (now : Q) (form : form_data) (active_calls : calls_store)
    (fs : storage) (d : call_data) (s : string) :
  active_calls !! CallSid form = Some d ->
  CallStatus form = Some s ->
  In s ["completed"; "failed"; "busy"; "no-answer"; "canceled"] ->
  let updated := set_last_activity now (set_status (Some s) d) in
  let '(calls', fs', result) :=
    handle_call_status storage write_json now form active_calls fs in
  calls' !! CallSid form = None
  /\ success result = true
  /\ error result = None
  /\ (forall other, other <> CallSid form ->
        calls' !! other = active_calls !! other)
  /\ fs' = match conversation_history d with
           | Some _ =>
               (write_json (history_file (CallSid form)) updated fs).1
           | None => fs
           end.
Proof.
  intros Hd Hs Hin. unfold handle_call_status.
  rewrite Hd, Hs, (is_terminal_In _ Hin).
  split; [apply lookup_delete_eq|]. split; [done|]. split; [done|]. split.
  - intros other Hne.
    rewrite lookup_delete_ne by congruence.
    by rewrite lookup_insert_ne by congruence.
  - cbn [conversation_history set_last_activity set_status].
    destruct (conversation_history d); [|done].
    unfold _store_conversation_history.
    by destruct (write_json _ _ fs) as [fs' []].
Qed.

(** A call in progress, a "completed" update, and a storage - the list
    of the files written - whose every write fails. *)
Lemma handle_call_status_terminal_removes_witness :
  let calls : calls_store :=
    {[ Some "CA1" := CallData None (Some "in-progress") "in-progress"
                              (Some []) (Some 10%Q) ]} in
  let write_json :=
    fun (_ : string) (_ : call_data) (fs : list string) => (fs, false) in
  let form := FormData (Some "CA1") (Some "completed") None ConfidenceAbsent in
  let d := CallData None (Some "in-progress") "in-progress" (Some [])
                    (Some 10%Q) in
  let updated := set_last_activity 20 (set_status (Some "completed") d) in
  let '(calls', fs', result) :=
    handle_call_status (list string) write_json 20 form calls [] in
  calls' !! CallSid form = None
  /\ success result = true
  /\ error result = None
  /\ (forall other, other <> CallSid form -> calls' !! other = calls !! other)
  /\ fs' = match conversation_history d with
           | Some _ =>
               (write_json (history_file (CallSid form)) updated []).1
           | None => []
           end.
Proof.
  intros calls write_json form d.
  refine (handle_call_status_terminal_removes (list string) write_json
            20 form calls [] d "completed" _ eq_refl _).
  - unfold calls. cbn [CallSid form]. by rewrite lookup_singleton_eq.
  - simpl. auto.
Defined.

(** *** The spoken answer *)

(** C10, as the code has it.  For a speech input that passes the
    confidence check and is not an end of call, the answer that
    [handle_speech_input] speaks, chunk by chunk, is at most 1000
    characters long and not empty: an answer that is not a [str], is
    empty or holds only white space is replaced by the generic answer;
    any other answer longer than 1000 characters is cut to its first 997
    characters followed by "...", and any other answer of at most 1000
    characters is spoken as it is.  The assistant message appended to
    the history holds the answer as [_process_user_query] returned it,
    before the replacement and the cut. *)
Theorem handle_speech_input_spoken_answer
    (_process_user_query : string -> list message -> answer)
    (now : Q) (server_url : option string) (form : form_data)
    (active_calls : calls_store) (speech_result : string) (confidence : Q) :
  SpeechResult form = Some speech_result ->
  truthy speech_result = true ->
  float_confidence (Confidence form) = Some confidence ->
  (0.3 <= confidence)%Q ->
  is_end_of_call speech_result = false ->
  (forall d, active_calls !! CallSid form = Some d ->
             is_Some (conversation_history d)) ->
  let history :=
    (get_call_history (CallSid form) active_calls
     ++ [Message "user" (Text speech_result)])%list in
  let ai_response := _process_user_query speech_result history in
  let spoken := limit_answer (valid_answer ai_response) in
  let '(calls', response) :=
    handle_speech_input _process_user_query now server_url form
                        active_calls in
  response
    = ((Say <$> _chunk_response spoken default_max_chunk_length)
       ++ next_question server_url)%list
  /\ len spoken <= 1000
  /\ truthy spoken = true
  /\ (forall s, ai_response = Text s -> strip s <> EmptyString ->
        1000 < len s -> spoken = take 997 s +:+ "...")
  /\ (forall s, ai_response = Text s -> strip s <> EmptyString ->
        len s <= 1000 -> spoken = s)
  /\ (ai_response = NotText
      \/ (exists s, ai_response = Text s /\ blank s = true) ->
        spoken = generic_answer)
  /\ calls' !! CallSid form ≫= conversation_history
     = Some (history ++ [Message "assistant" ai_response])%list.
Proof.
  intros Hspeech Htruthy Hconf Hq Hend Hhist. simpl.
  unfold handle_speech_input.
  rewrite Hspeech, Htruthy, Hconf. simpl negb. cbv iota.
  apply Qltb_ge in Hq. rewrite Hq, Hend.
  assert (Hstore : exists d1 h,
    match active_calls !! CallSid form with
    | Some d => <[CallSid form := set_last_activity now d]> active_calls
    | None => <[CallSid form := CallData None (Some "in-progress")
                                   "in-progress" (Some []) (Some now)]>
                active_calls
    end = <[CallSid form := d1]> active_calls
    /\ conversation_history d1 = Some h
    /\ get_call_history (CallSid form) active_calls = h).
  { unfold get_call_history.
    destruct (active_calls !! CallSid form) as [d|] eqn:Hd.
    - destruct (Hhist d eq_refl) as [h Hh].
      exists (set_last_activity now d), h. by rewrite Hh.
    - by eexists _, []. }
  destruct Hstore as (d1 & h & -> & Hh & ->).
  rewrite (append_message_insert _ _ d1 h) by exact Hh.
  rewrite lookup_insert_eq. simpl.
  rewrite (append_message_insert _ _ _ _) by reflexivity.
  split; [reflexivity|].
  destruct (spoken_answer_facts
              (_process_user_query speech_result
                 (h ++ [Message "user" (Text speech_result)])%list))
    as (H1 & H2 & H3 & H4 & H5).
  repeat (split; [assumption|]).
  split.
  { intros [Hnot | (s & Hs & Hblank)]; apply H5; [by left|right].
    exists s. split; [exact Hs|]. by apply strip_empty. }
  rewrite lookup_alter_eq, lookup_insert_eq. reflexivity.
Qed.

(** A first question on an unknown call, answered in one sentence. *)
Lemma handle_speech_input_spoken_answer_witness :
  let process := fun (_ : string) (_ : list message) =>
    Text "An FHA loan asks for a down payment of 3.5 percent." in
  let form :=
    FormData (Some "CA1") None (Some "What about FHA loans?")
             (ConfidenceNumber 0.9) in
  let history :=
    (get_call_history (CallSid form) ∅
     ++ [Message "user" (Text "What about FHA loans?")])%list in
  let ai_response := process "What about FHA loans?" history in
  let spoken := limit_answer (valid_answer ai_response) in
  let '(calls', response) := handle_speech_input process 5 None form ∅ in
  response
    = ((Say <$> _chunk_response spoken default_max_chunk_length)
       ++ next_question None)%list
  /\ len spoken <= 1000
  /\ truthy spoken = true
  /\ (forall s, ai_response = Text s -> strip s <> EmptyString ->
        1000 < len s -> spoken = take 997 s +:+ "...")
  /\ (forall s, ai_response = Text s -> strip s <> EmptyString ->
        len s <= 1000 -> spoken = s)
  /\ (ai_response = NotText
      \/ (exists s, ai_response = Text s /\ blank s = true) ->
        spoken = generic_answer)
  /\ calls' !! CallSid form ≫= conversation_history
     = Some (history ++ [Message "assistant" ai_response])%list.
Proof.
  intros process form.
  refine (handle_speech_input_spoken_answer process 5 None
            form ∅ "What about FHA loans?" 0.9 eq_refl eq_refl eq_refl
            _ _ _).
  - unfold Qle. simpl. lia.
  - vm_compute. reflexivity.
  - intros d Hd. rewrite lookup_empty in Hd. discriminate.
Defined.

(** An answer of three spaces is replaced, and so is a blank answer of
    1001 characters, which is not cut. *)
Example blank_answer_is_replaced :
  limit_answer (valid_answer (Text "   ")) = generic_answer
  /\ limit_answer (valid_answer (Text (repeat_char " " 1001)))
     = generic_answer.
Proof. split; vm_compute; reflexivity. Qed.

(** An answer of 1001 characters is stored in the history as it is. *)
Lemma history_keeps_long_answer :
  let long := repeat_char "a" 1001 in
  let form :=
    FormData (Some "CA1") None (Some "What about FHA loans?")
             (ConfidenceNumber 0.9) in
  let calls' := (handle_speech_input (fun _ _ => Text long) 5 None form ∅).1 in
  is_end_of_call "What about FHA loans?" = false
  /\ Qltb 0.9 0.3 = false
  /\ exists h,
       calls' !! Some "CA1" ≫= conversation_history = Some h
       /\ last h = Some (Message "assistant" (Text long))
       /\ ~ len long <= 1000.
Proof.
  intros long form calls'.
  split; [vm_compute; reflexivity|]. split; [reflexivity|].
  exists [Message "user" (Text "What about FHA loans?");
          Message "assistant" (Text long)].
  split; [|split].
  - subst calls'. unfold handle_speech_input. simpl SpeechResult.
    simpl truthy. simpl negb. cbv iota. simpl float_confidence. cbv iota.
    change (Qltb 0.9 0.3) with false. cbv iota.
    assert (is_end_of_call "What about FHA loans?" = false) as ->
      by (vm_compute; reflexivity).
    rewrite lookup_empty.
    rewrite (append_message_insert _ _ _ []) by reflexivity.
    rewrite (append_message_insert _ _ _ _) by reflexivity.
    simpl fst. rewrite lookup_alter_eq, lookup_insert_eq. reflexivity.
  - reflexivity.
  - vm_compute. intros H. by apply H.
Qed.

(** *** The call termination detector *)

(** Two texts that differ in case only get the same verdict. *)
Lemma is_end_of_call_case_insensitive text1 text2 :
  lower text1 = lower text2 -> is_end_of_call text1 = is_end_of_call text2.
Proof. intros H. unfold is_end_of_call. by rewrite H. Qed.

(** C5.  The detector says yes to "No thank you, that's all" and no to
    "What about FHA loans?".  It says yes exactly when the text, in
    lower case and stripped, equals or contains a phrase of the closing
    list, or has a substring that a pattern of the fixed set denotes;
    and it gives a text and its lower-case form the same verdict. *)
Theorem is_end_of_call_detects :
  is_end_of_call "No thank you, that's all" = true
  /\ is_end_of_call "What about FHA loans?" = false
  /\ (forall text,
        let normalized_text := strip (lower text) in
        is_end_of_call text = true <->
          (exists phrase, In phrase end_call_phrases
             /\ (phrase = normalized_text
                 \/ occurs_in phrase normalized_text))
          \/ (exists pattern, In pattern no_question_patterns
                /\ found_in pattern normalized_text))
  /\ (forall text, is_end_of_call (lower text) = is_end_of_call text).
Proof.
  split; [vm_compute; reflexivity|]. split; [vm_compute; reflexivity|].
  split.
  - intros text normalized_text. unfold is_end_of_call.
    fold normalized_text.
    destruct (existsb (phrase_matches normalized_text) end_call_phrases)
      eqn:Ephrase.
    + split; [intros _|done]. left.
      apply existsb_exists in Ephrase as (phrase & Hin & Hm).
      exists phrase. split; [done|]. unfold phrase_matches in Hm.
      apply orb_true_iff in Hm as [Hm|Hm].
      * left. by apply String.eqb_eq.
      * right. by apply contains_spec.
    + destruct (existsb (fun pattern => search pattern normalized_text)
                        no_question_patterns) eqn:Epattern.
      * split; [intros _|done]. right.
        apply existsb_exists in Epattern as (pattern & Hin & Hm).
        exists pattern. split; [done|]. by apply search_spec.
      * split; [discriminate|].
        intros [(phrase & Hin & Hm)|(pattern & Hin & Hm)].
        -- assert (existsb (phrase_matches normalized_text) end_call_phrases
                   = true); [|congruence].
           apply existsb_exists. exists phrase. split; [done|].
           unfold phrase_matches. apply orb_true_iff.
           destruct Hm as [->|Hm]; [left; apply String.eqb_refl|].
           right. by apply contains_spec.
        -- assert (existsb (fun pattern => search pattern normalized_text)
                           no_question_patterns = true); [|congruence].
           apply existsb_exists. exists pattern. split; [done|].
           by apply search_spec.
  - intros text. unfold is_end_of_call. by rewrite lower_idempotent.
Qed.

(** *** The sweep of stale calls *)

Lemma cleanup_stale_calls_lookup (current_time : Q)
    (active_calls : calls_store) (call_sid : option string)
    (d : call_data) (t : Q) :
  active_calls !! call_sid = Some d ->
  last_activity d = Some t ->
  (_cleanup_stale_calls current_time active_calls).2 !! call_sid
  = if Qltb 1800 (current_time - t) then None else Some d.
Proof.
  intros Hd Ht. unfold _cleanup_stale_calls. cbn [snd].
  rewrite lookup_delete_keys.
  assert (Hstale : is_stale current_time d = Qltb 1800 (current_time - t)).
  { unfold is_stale. by rewrite Ht. }
  destruct (Qltb 1800 (current_time - t)) eqn:E.
  - rewrite decide_True; [done|].
    apply elem_of_filter_keys. exists d. by split.
  - rewrite decide_False.
    + rewrite lookup_fmap, Hd. simpl. unfold stamp. by rewrite Ht.
    + intros (d' & Hd' & Hst)%elem_of_filter_keys. simpl in Hst.
      congruence.
Qed.

End CallHandlerFacts.

(** ** The conversation manager *)

Section ConversationManagerFacts.
Import Py Regex ConversationManager Spec.

(** *** The sweep of stale conversations *)

Lemma cleanup_stale_conversations_lookup (current_time : Q)
    (max_age_seconds : Z) (m : manager) (call_sid : string)
    (conv : conversation) :
  0 < max_age_seconds ->
  conversations m !! call_sid = Some conv ->
  conversations (cleanup_stale_conversations current_time max_age_seconds m).2
    !! call_sid
  = if conversation_is_stale current_time max_age_seconds conv
    then None else Some conv.
Proof.
  intros HT Hc. unfold cleanup_stale_conversations.
  destruct (max_age_seconds <=? 0) eqn:E; [lia|]. cbn [snd conversations].
  rewrite lookup_delete_keys.
  destruct (conversation_is_stale current_time max_age_seconds conv) eqn:Es.
  - rewrite decide_True; [done|].
    apply elem_of_filter_keys. exists conv. by split.
  - rewrite decide_False; [done|].
    intros (conv' & Hc' & Hst)%elem_of_filter_keys. simpl in Hst.
    congruence.
Qed.

(** C7, as the code has it.  For a positive threshold [T], the sweep
    of the conversation manager removes a session with a recorded
    [last_interaction_time] exactly when [now - last_interaction_time >
    T], so one at [now - T - 1] goes and one at [now - T + 1] stays as
    it was; the sweep of the call handler does the same with its
    threshold of 1800 seconds and [last_activity]. *)
Theorem sweep_removes_exactly_the_stale (now : Q) :
  (forall (T : Z) (m : manager) (call_sid : string) (conv : conversation)
          (t : Q),
      0 < T ->
      conversations m !! call_sid = Some conv ->
      state conv ≫= last_interaction_time = Some t ->
      let swept := conversations (cleanup_stale_conversations now T m).2 in
      (swept !! call_sid = None <-> (inject_Z T < now - t)%Q)
      /\ (swept !! call_sid = Some conv <-> ~ (inject_Z T < now - t)%Q)
      /\ (t == now - inject_Z T - 1 -> swept !! call_sid = None)%Q
      /\ (t == now - inject_Z T + 1 -> swept !! call_sid = Some conv)%Q)
  /\ (forall (active_calls : CallHandler.calls_store)
             (call_sid : option string) (d : CallHandler.call_data) (t : Q),
        active_calls !! call_sid = Some d ->
        CallHandler.last_activity d = Some t ->
        let swept := (CallHandler._cleanup_stale_calls now active_calls).2 in
        (swept !! call_sid = None <-> (1800 < now - t)%Q)
        /\ (swept !! call_sid = Some d <-> ~ (1800 < now - t)%Q)
        /\ (t == now - 1800 - 1 -> swept !! call_sid = None)%Q
        /\ (t == now - 1800 + 1 -> swept !! call_sid = Some d)%Q).
Proof.
  split.
  - intros T m call_sid conv t HT Hc Ht swept. subst swept.
    rewrite (cleanup_stale_conversations_lookup now T m call_sid conv HT Hc).
    unfold conversation_is_stale. rewrite Ht.
    destruct (Qltb (inject_Z T) (now - t)) eqn:E.
    + apply Qltb_lt in E. repeat split; try done.
      intros Heq. rewrite Heq in E. lra.
    + apply Qltb_ge in E.
      assert (Hn : ~ (inject_Z T < now - t)%Q) by lra.
      repeat split; try done.
      intros Heq. rewrite Heq in Hn. destruct Hn. lra.
  - intros active_calls call_sid d t Hd Ht swept. subst swept.
    rewrite (cleanup_stale_calls_lookup now active_calls call_sid d t Hd Ht).
    destruct (Qltb 1800 (now - t)) eqn:E.
    + apply Qltb_lt in E. repeat split; try done.
      intros Heq. rewrite Heq in E. lra.
    + apply Qltb_ge in E.
      assert (Hn : ~ (1800 < now - t)%Q) by lra.
      repeat split; try done.
      intros Heq. rewrite Heq in Hn. destruct Hn. lra.
Qed.

(** A threshold of 30 seconds at time 100: the session last active at
    69 goes, the one last active at 71 stays; and for the call handler
    at time 2000, the call last active at 199 goes and the one at 201
    stays. *)
Lemma sweep_removes_exactly_the_stale_witness :
  let m :=
    Manager {[ "old" := new_conversation None 69;
               "new" := new_conversation None 71 ]} ∅ 10 in
  let swept := conversations (cleanup_stale_conversations 100 30 m).2 in
  let old_call :=
    CallHandler.CallData None (Some "in-progress") "in-progress" (Some [])
                         (Some 199%Q) in
  let new_call :=
    CallHandler.CallData None (Some "in-progress") "in-progress" (Some [])
                         (Some 201%Q) in
  let calls : CallHandler.calls_store :=
    {[ Some "old" := old_call; Some "new" := new_call ]} in
  let swept_calls := (CallHandler._cleanup_stale_calls 2000 calls).2 in
  (swept !! "old" = None /\ swept !! "new" = Some (new_conversation None 71))
  /\ (swept_calls !! Some "old" = None
      /\ swept_calls !! Some "new" = Some new_call).
Proof.
  intros m swept old_call new_call calls swept_calls.
  pose proof (sweep_removes_exactly_the_stale 100) as [Hm _].
  pose proof (sweep_removes_exactly_the_stale 2000) as [_ Hc].
  split; split.
  - destruct (Hm 30 m "old" (new_conversation None 69) 69%Q)
      as (_ & _ & Hgo & _); [lia|reflexivity|reflexivity|].
    apply Hgo. reflexivity.
  - destruct (Hm 30 m "new" (new_conversation None 71) 71%Q)
      as (_ & _ & _ & Hstay); [lia|reflexivity|reflexivity|].
    apply Hstay. reflexivity.
  - destruct (Hc calls (Some "old") old_call 199%Q)
      as (_ & _ & Hgo & _); [reflexivity|reflexivity|].
    apply Hgo. reflexivity.
  - destruct (Hc calls (Some "new") new_call 201%Q)
      as (_ & _ & _ & Hstay); [reflexivity|reflexivity|].
    apply Hstay. reflexivity.
Defined.

(** With the threshold 0, a session last active one second ago is
    older than the threshold and the sweep keeps it: the method returns
    at its guard [max_age_seconds <= 0]. *)
Lemma sweep_with_threshold_zero_keeps :
  let conv := new_conversation None 99 in
  let m := Manager {[ "CA1" := conv ]} ∅ 10 in
  state conv ≫= last_interaction_time = Some 99%Q
  /\ (99 == 100 - inject_Z 0 - 1)%Q
  /\ (inject_Z 0 < 100 - 99)%Q
  /\ cleanup_stale_conversations 100 0 m = (0, m)
  /\ conversations (cleanup_stale_conversations 100 0 m).2 !! "CA1"
     = Some conv.
Proof.
  intros conv m. repeat split.
Qed.

(** *** Interruptions *)

(** An interruption counted above the session's threshold: the session
    stops taking interruptions, the call fails, and the response is
    marked and counted. *)
Lemma handle_response_interruption_over (response_token : string)
    (interrupt_reason : option string) (m : manager) (r : Response.t)
    (c : conversation) :
  truthy response_token = true ->
  active_responses m !! response_token = Some r ->
  conversations m !! Response.call_sid r = Some c ->
  threshold_of (interruption_management_of c)
    < Response.interruption_count r + 1 ->
  handle_response_interruption response_token interrupt_reason m
  = (InterruptionResult false "Maximum interruptions reached" None,
     Manager
       (<[Response.call_sid r :=
            set_interruption_management
              (set_can_interrupt false (interruption_management_of c)) c]>
          (conversations m))
       (<[response_token := mark_interrupted interrupt_reason r]>
          (active_responses m))
       (max_history_length m)).
Proof.
  intros Htok Hr Hc Hover. unfold handle_response_interruption.
  rewrite Htok, Hr. cbn [negb]. cbv iota.
  cbn [set_active_responses conversations mark_interrupted Response.call_sid].
  rewrite Hc.
  change (Response.interruption_count (mark_interrupted interrupt_reason r))
    with (Response.interruption_count r + 1).
  destruct (threshold_of (interruption_management_of c)
            <? Response.interruption_count r + 1) eqn:E; [reflexivity|lia].
Qed.

(** C1, as the code has it.  When a response's [interruption_count]
    equals its session's [interrupt_threshold], interrupting it sets the
    session's [can_interrupt] to false, and the call itself already
    reports failure.  One further attempt on the same response is
    rejected too; it leaves every session, the response's [status] and
    every other response as they were, and it still counts: the
    response's [interruption_count] goes up by one and its
    [interrupt_reason] is overwritten. *)
Theorem interruption_at_threshold (response_token : string)
    (reason1 reason2 : option string) (m : manager) (r : Response.t)
    (c : conversation) :
  truthy response_token = true ->
  active_responses m !! response_token = Some r ->
  conversations m !! Response.call_sid r = Some c ->
  Response.interruption_count r
  = threshold_of (interruption_management_of c) ->
  let '(result1, m1) :=
    handle_response_interruption response_token reason1 m in
  let '(result2, m2) :=
    handle_response_interruption response_token reason2 m1 in
  session_can_interrupt (Response.call_sid r) m1 = Some false
  /\ success result1 = false
  /\ success result2 = false
  /\ message result2 = "Maximum interruptions reached"
  /\ conversations m2 = conversations m1
  /\ (exists r1 r2,
        active_responses m1 !! response_token = Some r1
        /\ active_responses m2 !! response_token = Some r2
        /\ Response.status r2 = Response.status r1
        /\ Response.interruption_count r1 = Response.interruption_count r + 1
        /\ Response.interruption_count r2 = Response.interruption_count r1 + 1
        /\ Response.interrupt_reason r2 = Some reason2)
  /\ (forall other, other <> response_token ->
        active_responses m2 !! other = active_responses m1 !! other).
Proof.
  intros Htok Hr Hc Hcount.
  rewrite (handle_response_interruption_over response_token reason1 m r c)
    by (done || lia).
  set (c1 := set_interruption_management
               (set_can_interrupt false (interruption_management_of c)) c).
  set (r1 := mark_interrupted reason1 r).
  erewrite (handle_response_interruption_over response_token reason2 _ r1 c1).
  - cbn [conversations active_responses max_history_length].
    split; [|split; [done|split; [done|split; [done|split; [|split]]]]].
    + unfold session_can_interrupt. cbn [conversations].
      by rewrite lookup_insert_eq.
    + by rewrite insert_insert_eq.
    + exists r1, (mark_interrupted reason2 r1).
      rewrite !lookup_insert_eq. by repeat split.
    + intros other Hne. by rewrite !lookup_insert_ne.
  - done.
  - cbn [active_responses]. by rewrite lookup_insert_eq.
  - cbn [conversations]. by rewrite lookup_insert_eq.
  - subst c1 r1. cbn. unfold threshold_of in *. lia.
Qed.

(** A response tracked for a new call and interrupted three times
    stands at the default threshold of 3. *)
Lemma interruption_at_threshold_witness :
  let m0 := (track_active_response 0 "CA1" "token-1" None global_enhanced_conversation_manager).2 in
  let m := (handle_response_interruption "token-1" None
              (handle_response_interruption "token-1" None
                 (handle_response_interruption "token-1" None m0).2).2).2 in
  let r := Response.Make "CA1" 0 ∅ "interrupted" (Some None) 3 in
  let '(result1, m1) := handle_response_interruption "token-1" None m in
  let '(result2, m2) := handle_response_interruption "token-1" None m1 in
  session_can_interrupt (Response.call_sid r) m1 = Some false
  /\ success result1 = false
  /\ success result2 = false
  /\ message result2 = "Maximum interruptions reached"
  /\ conversations m2 = conversations m1
  /\ (exists r1 r2,
        active_responses m1 !! "token-1" = Some r1
        /\ active_responses m2 !! "token-1" = Some r2
        /\ Response.status r2 = Response.status r1
        /\ Response.interruption_count r1 = Response.interruption_count r + 1
        /\ Response.interruption_count r2 = Response.interruption_count r1 + 1
        /\ Response.interrupt_reason r2 = Some None)
  /\ (forall other, other <> "token-1" ->
        active_responses m2 !! other = active_responses m1 !! other).
Proof.
  intros m0 m r.
  refine (interruption_at_threshold "token-1" None None m r
            (Conversation
               [] (Some (ConvState None None (Some ∅) (Some 0%Q) (Some 0)
                                   (Some "initial")))
               (Some (FollowUp (Some []) (Some []) (Some [])))
               (Some (InterruptionMgmt (Some None) (Some true) (Some 3))))
            eq_refl _ _ eq_refl).
  - vm_compute. reflexivity.
  - vm_compute. reflexivity.
Defined.

(** The rejected attempt counts: after the rejection at 4 the response
    stands at 5. *)
Lemma rejected_interruption_is_counted :
  let m0 := (track_active_response 0 "CA1" "token-1" None global_enhanced_conversation_manager).2 in
  let m3 := (handle_response_interruption "token-1" None
               (handle_response_interruption "token-1" None
                  (handle_response_interruption "token-1" None m0).2).2).2 in
  let '(result4, m4) := handle_response_interruption "token-1" None m3 in
  let '(result5, m5) := handle_response_interruption "token-1" None m4 in
  Response.interruption_count <$> active_responses m3 !! "token-1" = Some 3
  /\ session_can_interrupt "CA1" m3 = Some true
  /\ session_can_interrupt "CA1" m4 = Some false
  /\ success result5 = false
  /\ Response.interruption_count <$> active_responses m4 !! "token-1" = Some 4
  /\ Response.interruption_count <$> active_responses m5 !! "token-1" = Some 5
  /\ active_responses m5 !! "token-1" <> active_responses m4 !! "token-1".
Proof.
  vm_compute. repeat split. discriminate.
Qed.

(** *** The history window *)

(** For a positive limit the trimmed history is the last
    [2 * max_history_length] entries. *)
Lemma trim_history_window (max_history_length : Z) (h : list Message.t) :
  0 < max_history_length ->
  trim_history max_history_length h
  = drop (length h - Z.to_nat (2 * max_history_length)) h
  /\ Z.of_nat (length (trim_history max_history_length h))
     <= 2 * max_history_length.
Proof.
  intros Hmax. unfold trim_history.
  destruct (max_history_length * 2 <? Z.of_nat (length h)) eqn:E.
  - unfold slice_from.
    destruct (- max_history_length * 2 <? 0) eqn:E'; [|lia].
    replace (Z.to_nat (Z.max (Z.of_nat (length h)
                              + - max_history_length * 2) 0))
      with (length h - Z.to_nat (2 * max_history_length))%nat by lia.
    split; [reflexivity|]. rewrite length_drop. lia.
  - replace (length h - Z.to_nat (2 * max_history_length))%nat with 0%nat
      by lia.
    split; [reflexivity|lia].
Qed.

(** The conversation that a method works on after
    [ensure_conversation]: the stored one, or a new one. *)
Lemma ensure_conversation_spec (now : Q) (call_sid : string) (m : manager) :
  truthy call_sid = true ->
  exists m1 c,
    ensure_conversation now call_sid m = (true, m1)
    /\ conversations m1 !! call_sid = Some c
    /\ c = default (new_conversation None now) (conversations m !! call_sid)
    /\ conversations m1 = <[call_sid := c]> (conversations m)
    /\ active_responses m1 = active_responses m
    /\ max_history_length m1 = max_history_length m.
Proof.
  intros Hsid. unfold ensure_conversation, initialize_conversation.
  destruct (conversations m !! call_sid) as [c|] eqn:Hc.
  - exists m, c. repeat split; try done. by rewrite insert_id.
  - rewrite Hsid. cbn [negb]. cbv iota.
    eexists _, _. split; [reflexivity|]. cbn.
    by rewrite lookup_insert_eq.
Qed.

(** [_update_conversation_intent] rewrites the ['state'] of one
    conversation and nothing else. *)
Lemma update_conversation_intent_spec (now : Q) (call_sid content : string)
    (m : manager) :
  let m' := _update_conversation_intent now call_sid content m in
  active_responses m' = active_responses m
  /\ max_history_length m' = max_history_length m
  /\ (forall other, other <> call_sid ->
        conversations m' !! other = conversations m !! other)
  /\ match conversations m !! call_sid with
     | Some c =>
         exists c', conversations m' !! call_sid = Some c'
           /\ history c' = history c
           /\ follow_up_context c' = follow_up_context c
           /\ interruption_management c' = interruption_management c
     | None => conversations m' !! call_sid = None
     end.
Proof.
  unfold _update_conversation_intent.
  destruct (negb (truthy call_sid) || negb (truthy content)).
  - repeat split; try done. by destruct (conversations m !! call_sid); eauto.
  - destruct (conversations m !! call_sid) as [c|] eqn:Hc.
    + cbn. repeat split; try done.
      * intros other Hne. by rewrite lookup_insert_ne.
      * eexists. rewrite lookup_insert_eq. by repeat split.
    + rewrite Hc. by repeat split.
Qed.

(** One successful [add_conversation_message]: the session's history is
    the one it had, the new message appended, cut down to the last
    [2 * max_history_length] entries. *)
Lemma add_conversation_message_spec (now : Q) (call_sid role : string)
    (content : string) (metadata : option dict) (m : manager) :
  0 < max_history_length m ->
  truthy call_sid = true ->
  truthy role = true ->
  let old := default [] (history <$> conversations m !! call_sid) in
  let '(ok, m') :=
    add_conversation_message now call_sid role (Some content) metadata m in
  ok = true
  /\ max_history_length m' = max_history_length m
  /\ (forall other, other <> call_sid ->
        conversations m' !! other = conversations m !! other)
  /\ exists c' message,
       conversations m' !! call_sid = Some c'
       /\ Message.role message = role
       /\ Message.content message = content
       /\ history c'
          = drop (length (old ++ [message])
                  - Z.to_nat (2 * max_history_length m))
                 (old ++ [message])
       /\ Z.of_nat (length (history c')) <= 2 * max_history_length m.
Proof.
  intros Hmax Hsid Hrole old. unfold add_conversation_message.
  rewrite Hsid, Hrole. cbn [negb orb]. cbv iota.
  destruct (ensure_conversation_spec now call_sid m Hsid)
    as (m1 & c & -> & Hc & Hcdef & Hconv & Hresp & Hlen).
  cbn [negb]. cbv iota. rewrite Hc, Hlen.
  set (message := Message.Make role content now (default ∅ metadata)
                    (call_sid +:+ "_"
                     +:+ str_of_int (Z.of_nat (length (history c)) + 1))).
  assert (Hold : history c = old).
  { subst old. rewrite Hcdef.
    by destruct (conversations m !! call_sid). }
  destruct (trim_history_window (max_history_length m)
              (history c ++ [message]) Hmax) as [Htrim Hbound].
  set (c2 := set_state _ (set_history _ c)).
  set (m2 := set_conversations (<[call_sid := c2]> (conversations m1)) m1).
  assert (Hm2 : conversations m2 !! call_sid = Some c2).
  { subst m2. cbn. by rewrite lookup_insert_eq. }
  assert (Hother2 : forall other, other <> call_sid ->
            conversations m2 !! other = conversations m !! other).
  { intros other Hne. subst m2. cbn.
    by rewrite lookup_insert_ne, Hconv, lookup_insert_ne. }
  assert (Hgoal : forall m',
    max_history_length m' = max_history_length m2 ->
    (forall other, other <> call_sid ->
       conversations m' !! other = conversations m2 !! other) ->
    (exists c', conversations m' !! call_sid = Some c'
                /\ history c' = history c2) ->
    true = true
    /\ max_history_length m' = max_history_length m
    /\ (forall other, other <> call_sid ->
          conversations m' !! other = conversations m !! other)
    /\ exists c' message0,
         conversations m' !! call_sid = Some c'
         /\ Message.role message0 = role
         /\ Message.content message0 = content
         /\ history c'
            = drop (length (old ++ [message0])
                    - Z.to_nat (2 * max_history_length m))
                   (old ++ [message0])
         /\ Z.of_nat (length (history c')) <= 2 * max_history_length m).
  { intros m' Hl Ho (c' & Hc' & Hh). split; [done|].
    split; [by rewrite Hl|]. split.
    - intros other Hne. by rewrite Ho, Hother2.
    - exists c', message. split; [done|]. split; [done|]. split; [done|].
      rewrite Hh. subst c2. cbn [history set_state set_history].
      rewrite <- Hold. by split. }
  destruct (String.eqb role "user").
  - pose proof (update_conversation_intent_spec now call_sid content m2)
      as (_ & Hl & Ho & Hs).
    rewrite Hm2 in Hs. destruct Hs as (c' & Hc' & Hh & _).
    apply Hgoal; eauto.
  - apply Hgoal; eauto.
Qed.

(** C2, as the code has it.  With a positive [max_history_length]:
    every [add_conversation_message] with a non-empty [call_sid] and
    [role] and a content succeeds and leaves that session with the
    history it had, the new message appended, cut down to its last
    [2 * max_history_length] entries in their order - so with at most
    that many, the oldest dropped first - and leaves the other sessions
    as they were; and along every sequence of [add_conversation_message]
    calls, every stored history stays within [2 * max_history_length]
    once every stored history is. *)
Theorem add_conversation_message_window (m : manager) :
  0 < max_history_length m ->
  (forall (now : Q) (call_sid role content : string) (metadata : option dict),
      truthy call_sid = true ->
      truthy role = true ->
      let old := default [] (history <$> conversations m !! call_sid) in
      let '(ok, m') :=
        add_conversation_message now call_sid role (Some content) metadata m in
      ok = true
      /\ (forall other, other <> call_sid ->
            conversations m' !! other = conversations m !! other)
      /\ exists c' message,
           conversations m' !! call_sid = Some c'
           /\ Message.role message = role
           /\ Message.content message = content
           /\ history c'
              = drop (length (old ++ [message])
                      - Z.to_nat (2 * max_history_length m))
                     (old ++ [message])
           /\ Z.of_nat (length (history c')) <= 2 * max_history_length m)
  /\ (forall calls : list (Q * string * string * option string * option dict),
        (forall k c, conversations m !! k = Some c ->
           Z.of_nat (length (history c)) <= 2 * max_history_length m) ->
        let m' :=
          run (map (fun '(now, call_sid, role, content, metadata) =>
                      (now, AddConversationMessage call_sid role content
                                                   metadata))
                   calls) m in
        forall k c, conversations m' !! k = Some c ->
          Z.of_nat (length (history c)) <= 2 * max_history_length m).
Proof.
  intros Hmax. split.
  - intros now call_sid role content metadata Hsid Hrole old.
    pose proof (add_conversation_message_spec now call_sid role content
                  metadata m Hmax Hsid Hrole) as Hspec.
    cbv zeta in Hspec.
    destruct (add_conversation_message now call_sid role (Some content)
                metadata m) as [ok m'].
    destruct Hspec as (Hok & _ & Hother & Hsession). by repeat split.
  - intros calls. remember (max_history_length m) as limit eqn:Hlimit.
    revert m Hlimit.
    induction calls as [|[[[[now call_sid] role] content] metadata] calls IH];
      intros m Hlimit Hinv m' k c Hk; [by apply (Hinv k c)|].
    subst m'. cbn [map run fold_left] in Hk.
    change (fold_left ?f ?l ?a) with (run l a) in Hk. cbn [step] in Hk.
    assert (Hstep :
      max_history_length
        (add_conversation_message now call_sid role content metadata m).2
      = limit
      /\ forall k c,
           conversations
             (add_conversation_message now call_sid role content metadata m).2
             !! k = Some c ->
           Z.of_nat (length (history c)) <= 2 * limit).
    { destruct content as [content|]; [|by split].
      destruct (truthy call_sid) eqn:Hsid;
        [|unfold add_conversation_message; rewrite Hsid; by split].
      destruct (truthy role) eqn:Hrole;
        [|unfold add_conversation_message; rewrite Hsid, Hrole; by split].
      pose proof (add_conversation_message_spec now call_sid role content
                    metadata m) as Hspec.
      rewrite <- Hlimit in Hspec. specialize (Hspec Hmax Hsid Hrole).
      cbv zeta in Hspec.
      destruct (add_conversation_message now call_sid role (Some content)
                  metadata m) as [ok m1].
      destruct Hspec as (_ & Hl & Hother & c1 & message & Hc1 & _ & _ & _ & Hb).
      cbn [snd]. split; [done|]. intros k' c' Hk'.
      destruct (decide (k' = call_sid)) as [->|Hne].
      - rewrite Hc1 in Hk'. by injection Hk' as <-.
      - rewrite Hother in Hk' by done. by apply (Hinv k' c'). }
    destruct Hstep as [Hl Hinv'].
    by apply (IH _ (eq_sym Hl) Hinv' k c).
Qed.

(** The first message of a new session under the default limit, and a
    short exchange. *)
Lemma add_conversation_message_window_witness :
  let m := global_enhanced_conversation_manager in
  (let old := default [] (history <$> conversations m !! "CA1") in
   let '(ok, m') :=
     add_conversation_message 5 "CA1" "user" (Some "What about FHA loans?")
                              None m in
   ok = true
   /\ (forall other, other <> "CA1" ->
         conversations m' !! other = conversations m !! other)
   /\ exists c' message,
        conversations m' !! "CA1" = Some c'
        /\ Message.role message = "user"
        /\ Message.content message = "What about FHA loans?"
        /\ history c'
           = drop (length (old ++ [message])
                   - Z.to_nat (2 * max_history_length m))
                  (old ++ [message])
        /\ Z.of_nat (length (history c')) <= 2 * max_history_length m)
  /\ (let m' :=
        run (map (fun '(now, call_sid, role, content, metadata) =>
                    (now, AddConversationMessage call_sid role content
                                                 metadata))
                 [(5%Q, "CA1", "user", Some "What about FHA loans?", None);
                  (6%Q, "CA1", "assistant", Some "They ask for 3.5 percent.",
                   None)]) m in
      forall k c, conversations m' !! k = Some c ->
        Z.of_nat (length (history c)) <= 2 * max_history_length m).
Proof.
  intros m.
  destruct (add_conversation_message_window m) as [Hcall Hrun]; [reflexivity|].
  split.
  - exact (Hcall 5%Q "CA1" "user" "What about FHA loans?" None
                 eq_refl eq_refl).
  - apply Hrun. intros k c Hk. unfold m in Hk. cbn in Hk.
    rewrite lookup_empty in Hk. discriminate.
Defined.

(** With [max_history_length = 0] the slice [history[-0:]] is the whole
    history and nothing is dropped; with a negative limit no length is
    within [2 * max_history_length]. *)
Lemma history_exceeds_window_without_positive_limit :
  (let m1 :=
     (add_conversation_message 1 "CA1" "user" (Some "hello") None
        (new_manager 0)).2 in
   let m2 :=
     (add_conversation_message 2 "CA1" "assistant" (Some "hi") None m1).2 in
   (length <$> (history <$> conversations m1 !! "CA1")) = Some 1%nat
   /\ (length <$> (history <$> conversations m2 !! "CA1")) = Some 2%nat
   /\ ~ Z.of_nat 1 <= 2 * 0)
  /\ (let m1 :=
        (add_conversation_message 1 "CA1" "user" (Some "hello") None
           (new_manager (-1))).2 in
      (length <$> (history <$> conversations m1 !! "CA1")) = Some 0%nat
      /\ ~ Z.of_nat 0 <= 2 * -1).
Proof.
  split.
  - split; [vm_compute; reflexivity|]. split; [vm_compute; reflexivity|lia].
  - split; [vm_compute; reflexivity|lia].
Qed.

(** *** Follow-up relevance *)

(** The constants of the score are the binary64 numbers nearest to
    0.4, 0.3, 0.2 and 0.1: each is within half a unit in the last place
    of the decimal number. *)
Lemma weights_are_correctly_rounded :
  exists w4 w3 w2 w1,
    exact 0.4 = Some w4 /\ exact 0.3 = Some w3
    /\ exact 0.2 = Some w2 /\ exact 0.1 = Some w1
    /\ (Qabs (w4 - 0.4) <= 1 # 2 ^ 55)%Q
    /\ (Qabs (w3 - 0.3) <= 1 # 2 ^ 55)%Q
    /\ (Qabs (w2 - 0.2) <= 1 # 2 ^ 56)%Q
    /\ (Qabs (w1 - 0.1) <= 1 # 2 ^ 57)%Q.
Proof.
  eexists _, _, _, _.
  repeat (split; [vm_compute; reflexivity|]).
  repeat split; apply Qle_bool_iff; vm_compute; reflexivity.
Qed.

(** A loop over [items] appends the items the query mentions and adds
    [weight] once for each of them. *)
Lemma scan_items_spec (weight : float) (query_lower : string)
    (items : list string) (matched : list string) (confidence : float) :
  scan_items weight query_lower items (matched, confidence)
  = ((matched ++ List.filter (mentions query_lower) items)%list,
     add_times (length (List.filter (mentions query_lower) items))
               weight confidence).
Proof.
  revert matched confidence.
  induction items as [|item items IH]; intros matched confidence.
  - cbn. by rewrite app_nil_r.
  - unfold scan_items in *. cbn [fold_left List.filter].
    destruct (mentions query_lower item); [|apply IH].
    rewrite IH. cbn [length add_times]. by rewrite <- app_assoc.
Qed.

(** [min(x, 1.0)] is never above 1. *)
Lemma fmin_one (x : float) : (1 <? fmin x 1)%float = false.
Proof.
  unfold fmin. destruct (1 <? x)%float eqn:E; [reflexivity|exact E].
Qed.

(** Up to twenty matches of each kind, with and without a marker. *)
Lemma near_decimal_checked :
  forallb
    (fun topics =>
       forallb
         (fun questions =>
            forallb
              (fun keywords =>
                 near_decimal topics questions keywords false
                 && near_decimal topics questions keywords true)
              (seq 0 21))
         (seq 0 21))
    (seq 0 21)
  = true.
Proof. vm_compute. reflexivity. Qed.

Lemma near_decimal_upto_20 (topics questions keywords : nat)
    (marker : bool) :
  (topics <= 20)%nat -> (questions <= 20)%nat -> (keywords <= 20)%nat ->
  near_decimal topics questions keywords marker = true.
Proof.
  intros H1 H2 H3.
  pose proof near_decimal_checked as H.
  rewrite forallb_forall in H.
  specialize (H topics ltac:(apply in_seq; lia)).
  rewrite forallb_forall in H.
  specialize (H questions ltac:(apply in_seq; lia)).
  rewrite forallb_forall in H.
  specialize (H keywords ltac:(apply in_seq; lia)).
  apply andb_prop in H as [Hf Ht]. by destruct marker.
Qed.

(** C6, as the code has it.  For a stored session and a non-empty
    query, the confidence that [evaluate_follow_up_relevance]
    accumulates is the binary64 sum
    built from [0.0] by adding 0.4 once for each expected topic that
    the lowered query mentions, then 0.3 once for each related
    question, then 0.2 once for each context keyword, then 0.1 when a
    continuation marker stands in the query as a word.  The confidence
    returned is that sum, or 1.0 when the sum is above 1.0, and so is
    never above 1.0; [is_follow_up] is whether the sum is above 0.5.
    With at most twenty matches of each kind, the confidence returned
    is within [1e-15] of the decimal sum capped at 1, and [is_follow_up]
    holds exactly when the decimal sum exceeds 0.5. *)
Theorem evaluate_follow_up_relevance_score (call_sid new_query : string)
    (m : manager) (c : conversation) (f : follow_up) :
  truthy call_sid = true ->
  truthy new_query = true ->
  conversations m !! call_sid = Some c ->
  follow_up_context c = Some f ->
  let query_lower := lower new_query in
  let topics := mentioned query_lower (expected_topics f) in
  let questions := mentioned query_lower (related_questions f) in
  let keywords := mentioned query_lower (context_keywords f) in
  let marker := search_words continuation_markers query_lower in
  let sum := accumulated topics questions keywords marker in
  let score := decimal_score topics questions keywords marker in
  let result := evaluate_follow_up_relevance call_sid new_query m in
  confidence result = (if (1 <? sum)%float then 1%float else sum)
  /\ (1 <? confidence result)%float = false
  /\ is_follow_up result = (0.5 <? sum)%float
  /\ (marker = true
      <-> word_bounded_in ["more"; "further"; "additional"; "again"]
                          query_lower)
  /\ (topics <= 20 -> questions <= 20 -> keywords <= 20 ->
      exists q,
        exact (confidence result) = Some q
        /\ (Qabs (q - Qmin score 1) <= 1 # 1000000000000000)%Q
        /\ (is_follow_up result = true <-> (0.5 < score)%Q)).
Proof.
  intros Hsid Hquery Hc Hf query_lower topics questions keywords marker
         sum score result.
  assert (Hresult : result = Relevance (0.5 <? sum)%float (fmin sum 1)
                               (Matched
                                  (List.filter (mentions query_lower)
                                     (default [] (expected_topics f)))
                                  (List.filter (mentions query_lower)
                                     (default [] (related_questions f)))
                                  (List.filter (mentions query_lower)
                                     (default [] (context_keywords f))))).
  { subst result. unfold evaluate_follow_up_relevance.
    rewrite Hsid, Hquery, Hc, Hf. cbn [negb orb]. cbv iota.
    fold query_lower. fold marker.
    rewrite !scan_items_spec. cbn [app].
    subst sum topics questions keywords.
    unfold accumulated, mentioned. fold (mentions query_lower).
    rewrite !Nat2Z.id. reflexivity. }
  rewrite Hresult. cbn [confidence is_follow_up].
  split; [reflexivity|]. split; [apply fmin_one|].
  split; [reflexivity|]. split; [apply search_words_spec|].
  intros H1 H2 H3.
  pose proof (near_decimal_upto_20 (Z.to_nat topics) (Z.to_nat questions)
                (Z.to_nat keywords) marker) as Hnear.
  assert (Ht : 0 <= topics) by (subst topics; unfold mentioned; lia).
  assert (Hq : 0 <= questions) by (subst questions; unfold mentioned; lia).
  assert (Hk : 0 <= keywords) by (subst keywords; unfold mentioned; lia).
  unfold near_decimal in Hnear. rewrite !Z2Nat.id in Hnear by assumption.
  fold sum score in Hnear.
  specialize (Hnear ltac:(lia) ltac:(lia) ltac:(lia)).
  destruct (exact (fmin sum 1)) as [q|]; [|discriminate].
  apply andb_prop in Hnear as [Hclose Hsame].
  exists q. split; [reflexivity|].
  split; [by apply Qle_bool_iff|].
  apply eqb_prop in Hsame. rewrite Hsame. apply Qltb_lt.
Qed.

(** A session that expects the topic "mortgage" and the keyword "rate",
    asked for more about mortgage rates: 0.0 + 0.4 + 0.2 + 0.1. *)
Lemma evaluate_follow_up_relevance_score_witness :
  let f := FollowUp (Some ["mortgage"]) (Some []) (Some ["rate"]) in
  let m :=
    (add_follow_up_context 0 "CA1" (Some ["mortgage"]) None (Some ["rate"])
                           global_enhanced_conversation_manager).2 in
  let query_lower := lower "Tell me more about mortgage rates" in
  let topics := mentioned query_lower (expected_topics f) in
  let questions := mentioned query_lower (related_questions f) in
  let keywords := mentioned query_lower (context_keywords f) in
  let marker := search_words continuation_markers query_lower in
  let sum := accumulated topics questions keywords marker in
  let score := decimal_score topics questions keywords marker in
  let result :=
    evaluate_follow_up_relevance "CA1" "Tell me more about mortgage rates" m in
  confidence result = (if (1 <? sum)%float then 1%float else sum)
  /\ (1 <? confidence result)%float = false
  /\ is_follow_up result = (0.5 <? sum)%float
  /\ (marker = true
      <-> word_bounded_in ["more"; "further"; "additional"; "again"]
                          query_lower)
  /\ (topics <= 20 -> questions <= 20 -> keywords <= 20 ->
      exists q,
        exact (confidence result) = Some q
        /\ (Qabs (q - Qmin score 1) <= 1 # 1000000000000000)%Q
        /\ (is_follow_up result = true <-> (0.5 < score)%Q)).
Proof.
  intros f m.
  refine (evaluate_follow_up_relevance_score
            "CA1" "Tell me more about mortgage rates" m
            (set_follow_up_context f (new_conversation None 0)) f
            eq_refl eq_refl _ eq_refl).
  vm_compute. reflexivity.
Defined.

(** The same query, computed: one topic, one keyword and a marker make a
    follow-up, and the confidence returned is 0.7000000000000001, the
    binary64 number next above the one nearest to 0.7. *)
Example evaluate_follow_up_relevance_example :
  let m :=
    (add_follow_up_context 0 "CA1" (Some ["mortgage"]) None (Some ["rate"])
                           global_enhanced_conversation_manager).2 in
  let result :=
    evaluate_follow_up_relevance "CA1" "Tell me more about mortgage rates" m in
  is_follow_up result = true
  /\ confidence result = 0.7000000000000001%float
  /\ Prim2SF (confidence result)
     = S754_finite false 6305039478318695 (-53)
  /\ Prim2SF 0.7 = S754_finite false 6305039478318694 (-53).
Proof. repeat split; vm_compute; reflexivity. Qed.

(** The confidence returned is not the decimal sum.  For the session
    above the query mentions one topic and one keyword and holds a
    marker, so the decimal sum is 0.4 + 0.2 + 0.1 = 0.7; the confidence
    returned is the number 6305039478318695 / 2^53, which is neither 0.7
    nor the binary64 number nearest to it. *)
Lemma confidence_is_not_the_decimal_sum :
  let f := FollowUp (Some ["mortgage"]) (Some []) (Some ["rate"]) in
  let m :=
    (add_follow_up_context 0 "CA1" (Some ["mortgage"]) None (Some ["rate"])
                           global_enhanced_conversation_manager).2 in
  let query_lower := lower "Tell me more about mortgage rates" in
  let topics := mentioned query_lower (expected_topics f) in
  let questions := mentioned query_lower (related_questions f) in
  let keywords := mentioned query_lower (context_keywords f) in
  let marker := search_words continuation_markers query_lower in
  let score := decimal_score topics questions keywords marker in
  let result :=
    evaluate_follow_up_relevance "CA1" "Tell me more about mortgage rates" m in
  conversations m !! "CA1"
  = Some (set_follow_up_context f (new_conversation None 0))
  /\ (topics, questions, keywords, marker) = (1, 0, 1, true)
  /\ (Qmin score 1 == 0.7)%Q
  /\ exists q,
       exact (confidence result) = Some q
       /\ (q == 6305039478318695 # 9007199254740992)%Q
       /\ ~ (q == Qmin score 1)%Q
       /\ confidence result <> 0.7%float.
Proof.
  cbv zeta. split; [vm_compute; reflexivity|].
  split; [vm_compute; reflexivity|].
  split; [vm_compute; reflexivity|].
  eexists. split; [vm_compute; reflexivity|].
  split; [vm_compute; reflexivity|].
  split.
  - intros H. apply Qeq_bool_iff in H. vm_compute in H. discriminate.
  - intros H. apply (f_equal Prim2SF) in H. vm_compute in H. discriminate.
Qed.

(** Three related questions and a marker: the decimal sum is
    0.3 + 0.3 + 0.3 + 0.1 = 1, and the confidence returned is
    0.9999999999999999. *)
Example confidence_below_the_cap :
  let m :=
    (add_follow_up_context 0 "CA1" None
       (Some ["down payment"; "closing costs"; "credit score"]) None
       global_enhanced_conversation_manager).2 in
  let result :=
    evaluate_follow_up_relevance
      "CA1" "More on down payment, closing costs and credit score" m in
  (decimal_score 0 3 0 true == 1)%Q
  /\ is_follow_up result = true
  /\ confidence result = 0.9999999999999999%float
  /\ Prim2SF (confidence result)
     = S754_finite false 9007199254740991 (-53).
Proof. repeat split; vm_compute; reflexivity. Qed.

(** *** The interruption switch *)

Lemma session_can_interrupt_inv (call_sid : string) (m : manager) (b : bool) :
  session_can_interrupt call_sid m = Some b
  <-> exists c i, conversations m !! call_sid = Some c
                  /\ interruption_management c = Some i
                  /\ can_interrupt i = Some b.
Proof.
  unfold session_can_interrupt. split.
  - destruct (conversations m !! call_sid) as [c|]; [|discriminate]. simpl.
    destruct (interruption_management c) as [i|] eqn:Hi; [|discriminate].
    simpl. intros Hb. by exists c, i.
  - intros (c & i & -> & Hi & Hb). simpl. by rewrite Hi.
Qed.

Lemma session_can_interrupt_ext (call_sid : string) (m m' : manager) :
  conversations m' !! call_sid = conversations m !! call_sid ->
  session_can_interrupt call_sid m' = session_can_interrupt call_sid m.
Proof. unfold session_can_interrupt. by intros ->. Qed.

(** Writing a conversation back: the switch of another session is not
    touched, and the switch of the written one is the one written. *)
Lemma session_can_interrupt_insert (call_sid k : string) (c' : conversation)
    (m : manager) :
  session_can_interrupt call_sid
    (set_conversations (<[k := c']> (conversations m)) m)
  = if decide (k = call_sid)
    then interruption_management c' ≫= can_interrupt
    else session_can_interrupt call_sid m.
Proof.
  unfold session_can_interrupt. cbn [conversations set_conversations].
  destruct (decide (k = call_sid)) as [->|Hne].
  - by rewrite lookup_insert_eq.
  - by rewrite lookup_insert_ne.
Qed.

Lemma initialize_conversation_keeps_off (now : Q) (k call_sid : string)
    (initial_context : option dict) (m : manager) :
  session_can_interrupt call_sid m = Some false ->
  session_can_interrupt call_sid
    (initialize_conversation now k initial_context m).2 = Some false.
Proof.
  intros Hoff. unfold initialize_conversation.
  destruct (negb (truthy k)); [done|].
  destruct (conversations m !! k) eqn:Hk; [done|]. cbn [snd].
  rewrite session_can_interrupt_insert.
  destruct (decide (k = call_sid)) as [->|_]; [|done].
  apply session_can_interrupt_inv in Hoff as (c & i & Hc & _). congruence.
Qed.

Lemma ensure_conversation_keeps_off (now : Q) (k call_sid : string)
    (m : manager) :
  session_can_interrupt call_sid m = Some false ->
  session_can_interrupt call_sid (ensure_conversation now k m).2 = Some false.
Proof.
  intros Hoff. unfold ensure_conversation.
  destruct (conversations m !! k); [done|].
  by apply initialize_conversation_keeps_off.
Qed.

Lemma update_conversation_intent_keeps_off (now : Q)
    (k content call_sid : string) (m : manager) :
  session_can_interrupt call_sid m = Some false ->
  session_can_interrupt call_sid (_update_conversation_intent now k content m)
  = Some false.
Proof.
  intros Hoff.
  pose proof (update_conversation_intent_spec now k content m)
    as (_ & _ & Hother & Hsame).
  destruct (decide (k = call_sid)) as [->|Hne].
  - apply session_can_interrupt_inv in Hoff as (c & i & Hc & Hi & Hb).
    rewrite Hc in Hsame. destruct Hsame as (c' & Hc' & _ & _ & Hi').
    apply session_can_interrupt_inv. exists c', i. by rewrite Hi'.
  - rewrite <- Hoff. apply session_can_interrupt_ext. by apply Hother.
Qed.

Lemma add_follow_up_context_keeps_off (now : Q) (k call_sid : string)
    (topics questions keywords : option (list string)) (m : manager) :
  session_can_interrupt call_sid m = Some false ->
  session_can_interrupt call_sid
    (add_follow_up_context now k topics questions keywords m).2 = Some false.
Proof.
  intros Hoff. unfold add_follow_up_context.
  destruct (negb (truthy k)); [done|].
  pose proof (ensure_conversation_keeps_off now k call_sid m Hoff) as Hoff1.
  destruct (ensure_conversation now k m) as [ok m1] eqn:He.
  cbn [snd] in Hoff1. destruct (negb ok); [done|].
  destruct (conversations m1 !! k) as [c|] eqn:Hc; [|done]. simpl.
  destruct (follow_up_context c) as [f|]; [|done]. cbn [snd mbind option_bind].
  rewrite session_can_interrupt_insert.
  destruct (decide (k = call_sid)) as [->|_]; [|done].
  apply session_can_interrupt_inv in Hoff1 as (c1 & i & Hc1 & Hi & Hb).
  cbn [interruption_management set_follow_up_context].
  assert (c1 = c) as -> by congruence. by rewrite Hi.
Qed.

Lemma track_active_response_keeps_off (now : Q)
    (k response_token call_sid : string) (metadata : option dict)
    (m : manager) :
  k <> call_sid ->
  session_can_interrupt call_sid m = Some false ->
  session_can_interrupt call_sid
    (track_active_response now k response_token metadata m).2 = Some false.
Proof.
  intros Hne Hoff. unfold track_active_response.
  destruct (negb (truthy k) || negb (truthy response_token)); [done|].
  pose proof (ensure_conversation_keeps_off now k call_sid m Hoff) as Hoff1.
  destruct (ensure_conversation now k m) as [ok m1] eqn:He.
  cbn [snd] in Hoff1. destruct (negb ok); [done|].
  cbn [conversations set_active_responses].
  destruct (conversations m1 !! k) as [c|] eqn:Hc; [|done]. cbn [snd].
  unfold session_can_interrupt in *. cbn [conversations set_conversations
    set_active_responses]. by rewrite lookup_insert_ne.
Qed.

Lemma handle_response_interruption_keeps_off (response_token : string)
    (interrupt_reason : option string) (call_sid : string) (m : manager) :
  session_can_interrupt call_sid m = Some false ->
  session_can_interrupt call_sid
    (handle_response_interruption response_token interrupt_reason m).2
  = Some false.
Proof.
  intros Hoff. unfold handle_response_interruption.
  destruct (negb (truthy response_token)); [done|].
  destruct (active_responses m !! response_token) as [r|]; [|done].
  cbn [conversations set_active_responses mark_interrupted
       Response.call_sid Response.interruption_count].
  destruct (conversations m !! Response.call_sid r) as [c|] eqn:Hc; [|done].
  assert (Hgoal : forall i',
    (Response.call_sid r = call_sid ->
       can_interrupt i' = Some false) ->
    session_can_interrupt call_sid
      (set_conversations
         (<[Response.call_sid r := set_interruption_management i' c]>
            (conversations m))
         (set_active_responses
            (<[response_token := mark_interrupted interrupt_reason r]>
               (active_responses m)) m)) = Some false).
  { intros i' Hi'. unfold session_can_interrupt in *.
    cbn [conversations set_conversations set_active_responses].
    destruct (decide (Response.call_sid r = call_sid)) as [Heq|Hne].
    - rewrite Heq, lookup_insert_eq. simpl. by apply Hi'.
    - by rewrite lookup_insert_ne. }
  destruct (threshold_of (interruption_management_of c) <? _); cbn [snd].
  - apply Hgoal. done.
  - apply Hgoal. intros Heq.
    apply session_can_interrupt_inv in Hoff as (c0 & i & Hc0 & Hi & Hb).
    rewrite <- Heq, Hc in Hc0. injection Hc0 as <-.
    unfold interruption_management_of. by rewrite Hi.
Qed.

Lemma add_conversation_message_keeps_off (now : Q) (k role : string)
    (content : option string) (metadata : option dict) (call_sid : string)
    (m : manager) :
  session_can_interrupt call_sid m = Some false ->
  session_can_interrupt call_sid
    (add_conversation_message now k role content metadata m).2 = Some false.
Proof.
  intros Hoff. unfold add_conversation_message.
  destruct content as [content|]; [|done].
  destruct (negb (truthy k) || negb (truthy role)); [done|].
  pose proof (ensure_conversation_keeps_off now k call_sid m Hoff) as Hoff1.
  destruct (ensure_conversation now k m) as [ok m1] eqn:He.
  cbn [snd] in Hoff1. destruct (negb ok); [done|].
  destruct (conversations m1 !! k) as [c|] eqn:Hc; [|done]. cbn [snd].
  match goal with
  | |- context [set_conversations (<[k := ?c2]> _) m1] =>
      assert (Hoff2 : session_can_interrupt call_sid
                (set_conversations (<[k := c2]> (conversations m1)) m1)
              = Some false)
  end.
  { rewrite session_can_interrupt_insert.
    destruct (decide (k = call_sid)) as [->|_]; [|done].
    apply session_can_interrupt_inv in Hoff1 as (c1 & i & Hc1 & Hi & Hb).
    cbn [interruption_management set_state set_history].
    assert (c1 = c) as -> by congruence. by rewrite Hi. }
  destruct (String.eqb role "user"); [|done].
  by apply update_conversation_intent_keeps_off.
Qed.

Lemma get_conversation_context_keeps_off (k : string)
    (max_messages : option Z) (call_sid : string) (m : manager) :
  session_can_interrupt call_sid m = Some false ->
  session_can_interrupt call_sid
    (get_conversation_context k max_messages m).2 = Some false.
Proof.
  intros Hoff. unfold get_conversation_context.
  destruct (negb (truthy k)); [done|].
  destruct (conversations m !! k) as [c|] eqn:Hc; [|done]. cbn [snd].
  rewrite session_can_interrupt_insert.
  destruct (decide (k = call_sid)) as [->|_]; [|done].
  apply session_can_interrupt_inv in Hoff as (c1 & i & Hc1 & Hi & Hb).
  cbn [interruption_management].
  assert (c1 = c) as -> by congruence. by rewrite Hi.
Qed.

Lemma cleanup_stale_conversations_keeps_off (now : Q) (max_age_seconds : Z)
    (call_sid : string) (m : manager) :
  session_can_interrupt call_sid m = Some false ->
  let m' := (cleanup_stale_conversations now max_age_seconds m).2 in
  session_can_interrupt call_sid m' = Some false
  \/ conversations m' !! call_sid = None.
Proof.
  intros Hoff m'. subst m'.
  destruct (decide (0 < max_age_seconds)) as [Hpos|Hneg].
  - pose proof Hoff as (c & i & Hc & _)%session_can_interrupt_inv.
    pose proof (cleanup_stale_conversations_lookup now max_age_seconds m
                  call_sid c Hpos Hc) as Hl.
    destruct (conversation_is_stale now max_age_seconds c); [by right|].
    left. rewrite <- Hoff. apply session_can_interrupt_ext. by rewrite Hl.
  - left. unfold cleanup_stale_conversations.
    by destruct (max_age_seconds <=? 0) eqn:E; [|lia].
Qed.

Lemma cleanup_conversation_keeps_off (k call_sid : string) (m : manager) :
  session_can_interrupt call_sid m = Some false ->
  let m' := (cleanup_conversation k m).2 in
  session_can_interrupt call_sid m' = Some false
  \/ conversations m' !! call_sid = None.
Proof.
  intros Hoff m'. subst m'. unfold cleanup_conversation.
  destruct (negb (truthy k)); [by left|].
  destruct (conversations m !! k) as [c|] eqn:Hc; [|by left].
  cbn [snd conversations].
  destruct (decide (k = call_sid)) as [->|Hne].
  - right. apply lookup_delete_eq.
  - left. rewrite <- Hoff. apply session_can_interrupt_ext.
    cbn [conversations]. by apply lookup_delete_ne.
Qed.

(** [track_active_response] switches interruption on for its session. *)
Lemma track_active_response_switches_on (now : Q)
    (call_sid response_token : string) (metadata : option dict)
    (m : manager) :
  truthy call_sid = true ->
  truthy response_token = true ->
  track_active_response now call_sid response_token metadata m
  = (true, (track_active_response now call_sid response_token metadata m).2)
  /\ session_can_interrupt call_sid
       (track_active_response now call_sid response_token metadata m).2
     = Some true.
Proof.
  intros Hsid Htok. unfold track_active_response.
  rewrite Hsid, Htok. cbn [negb orb]. cbv iota.
  destruct (ensure_conversation_spec now call_sid m Hsid)
    as (m1 & c & -> & Hc & _).
  cbn [negb]. cbv iota. cbn [conversations set_active_responses].
  rewrite Hc. cbn [snd]. split; [reflexivity|].
  unfold session_can_interrupt.
  cbn [conversations set_conversations set_active_responses].
  rewrite lookup_insert_eq. simpl.
  by destruct (interruption_management c).
Qed.

(** A call that is not [track_active_response] for the session leaves
    a switch that is off off, or removes the session. *)
Lemma step_keeps_off (now : Q) (call_sid : string) (o : op) (m : manager) :
  session_can_interrupt call_sid m = Some false ->
  (forall response_token metadata,
      o <> TrackActiveResponse call_sid response_token metadata) ->
  session_can_interrupt call_sid (step now o m) = Some false
  \/ conversations (step now o m) !! call_sid = None.
Proof.
  intros Hoff Hnot.
  destruct o as [k ctx|k t q kw|k q|k tok md|tok reason
                |k role content md|k mm|age|k]; cbn [step].
  - left. by apply initialize_conversation_keeps_off.
  - left. by apply add_follow_up_context_keeps_off.
  - by left.
  - left. apply track_active_response_keeps_off; [|done].
    intros ->. by apply (Hnot tok md).
  - left. by apply handle_response_interruption_keeps_off.
  - left. by apply add_conversation_message_keeps_off.
  - left. by apply get_conversation_context_keeps_off.
  - by apply cleanup_stale_conversations_keeps_off.
  - by apply cleanup_conversation_keeps_off.
Qed.

(** Along a sequence of calls without [track_active_response] for the
    session, the switch stays off unless the session was removed on the
    way. *)
Lemma run_keeps_off (call_sid : string) (calls : list (Q * op))
    (m : manager) :
  session_can_interrupt call_sid m = Some false ->
  Forall (fun call => forall response_token metadata,
            call.2 <> TrackActiveResponse call_sid response_token metadata)
         calls ->
  session_can_interrupt call_sid (run calls m) = Some false
  \/ exists before after,
       calls = (before ++ after)%list
       /\ conversations (run before m) !! call_sid = None.
Proof.
  revert m. induction calls as [|[now o] calls IH]; intros m Hoff Hcalls.
  - by left.
  - inversion_clear Hcalls as [|? ? Ho Hrest]. cbn [snd] in Ho.
    destruct (step_keeps_off now call_sid o m Hoff Ho) as [Hoff'|Hgone].
    + destruct (IH (step now o m) Hoff' Hrest)
        as [Hend|(before & after & -> & Hgone)].
      * by left.
      * right. by exists ((now, o) :: before), after.
    + right. by exists [(now, o)], calls.
Qed.

(** C4, as the code has it.  Once a session's [can_interrupt] is false,
    it is false after every later sequence of calls of the public methods
    that has no [track_active_response] for that session, unless the
    session was removed on the way; and a call of [track_active_response]
    for that session - registering a new active response for the same
    [call_sid] - sets [can_interrupt] back to true. *)
Theorem can_interrupt_off_until_tracked (call_sid : string) (m : manager) :
  session_can_interrupt call_sid m = Some false ->
  (forall calls : list (Q * op),
      Forall (fun call => forall response_token metadata,
                call.2 <> TrackActiveResponse call_sid response_token metadata)
             calls ->
      session_can_interrupt call_sid (run calls m) = Some false
      \/ exists before after,
           calls = (before ++ after)%list
           /\ conversations (run before m) !! call_sid = None)
  /\ (forall now response_token metadata,
        truthy call_sid = true ->
        truthy response_token = true ->
        session_can_interrupt call_sid
          (step now (TrackActiveResponse call_sid response_token metadata) m)
        = Some true).
Proof.
  intros Hoff. split.
  - intros calls Hcalls. by apply run_keeps_off.
  - intros now response_token metadata Hsid Htok. cbn [step].
    by apply track_active_response_switches_on.
Qed.

(** The session of the response interrupted past its threshold: a message
    and a look at the context leave the switch off, a new response
    switches it on. *)
Lemma can_interrupt_off_until_tracked_witness :
  let m0 := (track_active_response 0 "CA1" "token-1" None global_enhanced_conversation_manager).2 in
  let m :=
    run [(1%Q, HandleResponseInterruption "token-1" None);
         (2%Q, HandleResponseInterruption "token-1" None);
         (3%Q, HandleResponseInterruption "token-1" None);
         (4%Q, HandleResponseInterruption "token-1" None)] m0 in
  let calls :=
    [(5%Q, AddConversationMessage "CA1" "user" (Some "hello") None);
     (6%Q, GetConversationContext "CA1" None)] in
  (session_can_interrupt "CA1" (run calls m) = Some false
   \/ exists before after,
        calls = (before ++ after)%list
        /\ conversations (run before m) !! "CA1" = None)
  /\ session_can_interrupt "CA1"
       (step 9 (TrackActiveResponse "CA1" "token-2" None) m) = Some true.
Proof.
  intros m0 m calls.
  destruct (can_interrupt_off_until_tracked "CA1" m) as [Hkeep Htrack].
  - vm_compute. reflexivity.
  - split.
    + apply Hkeep. repeat constructor; intros response_token metadata;
        discriminate.
    + apply Htrack; reflexivity.
Defined.

(** Registering a second response for the call whose first response was
    interrupted past the threshold switches interruption back on. *)
Lemma tracking_switches_interruption_back_on :
  let m0 := (track_active_response 0 "CA1" "token-1" None global_enhanced_conversation_manager).2 in
  let m4 :=
    run [(1%Q, HandleResponseInterruption "token-1" None);
         (2%Q, HandleResponseInterruption "token-1" None);
         (3%Q, HandleResponseInterruption "token-1" None);
         (4%Q, HandleResponseInterruption "token-1" None)] m0 in
  let m5 := (track_active_response 5 "CA1" "token-2" None m4).2 in
  session_can_interrupt "CA1" m4 = Some false
  /\ is_Some (conversations m5 !! "CA1")
  /\ session_can_interrupt "CA1" m5 = Some true.
Proof.
  split; [vm_compute; reflexivity|].
  split; [|vm_compute; reflexivity].
  vm_compute. eauto.
Qed.

End ConversationManagerFacts.

(** ** The conversation manager: responses and their sessions *)

Section ResponsesAndSessions.
Import Py Regex ConversationManager Spec.

Lemma responses_have_sessions_insert_conversation (k : string)
    (c : conversation) (m : manager) :
  responses_have_sessions m ->
  responses_have_sessions
    (set_conversations (<[k := c]> (conversations m)) m).
Proof.
  intros Hinv tok r Hr. cbn [conversations active_responses set_conversations] in *.
  apply lookup_insert_is_Some'. right. by eapply Hinv.
Qed.

Lemma responses_have_sessions_insert_response (tok : string) (r : Response.t)
    (m : manager) :
  responses_have_sessions m ->
  is_Some (conversations m !! Response.call_sid r) ->
  responses_have_sessions
    (set_active_responses (<[tok := r]> (active_responses m)) m).
Proof.
  intros Hinv Hsid tok' r' Hr'.
  cbn [conversations active_responses set_active_responses] in *.
  destruct (decide (tok = tok')) as [->|Hne].
  - rewrite lookup_insert_eq in Hr'. by injection Hr' as <-.
  - rewrite lookup_insert_ne in Hr' by done. by eapply Hinv.
Qed.

Lemma initialize_conversation_responses (now : Q) (call_sid : string)
    (initial_context : option dict) (m : manager) :
  responses_have_sessions m ->
  responses_have_sessions
    (initialize_conversation now call_sid initial_context m).2.
Proof.
  intros Hinv. unfold initialize_conversation.
  destruct (negb (truthy call_sid)); [done|].
  destruct (conversations m !! call_sid); [done|]. cbn [snd].
  by apply responses_have_sessions_insert_conversation.
Qed.

Lemma ensure_conversation_responses (now : Q) (call_sid : string)
    (m : manager) :
  responses_have_sessions m ->
  responses_have_sessions (ensure_conversation now call_sid m).2.
Proof.
  intros Hinv. unfold ensure_conversation.
  destruct (conversations m !! call_sid); [done|].
  by apply initialize_conversation_responses.
Qed.

Lemma update_conversation_intent_responses (now : Q)
    (call_sid content : string) (m : manager) :
  responses_have_sessions m ->
  responses_have_sessions (_update_conversation_intent now call_sid content m).
Proof.
  intros Hinv. unfold _update_conversation_intent.
  destruct (negb (truthy call_sid) || negb (truthy content)); [done|].
  destruct (conversations m !! call_sid); [|done].
  by apply responses_have_sessions_insert_conversation.
Qed.

Lemma add_follow_up_context_responses (now : Q) (call_sid : string)
    (topics questions keywords : option (list string)) (m : manager) :
  responses_have_sessions m ->
  responses_have_sessions
    (add_follow_up_context now call_sid topics questions keywords m).2.
Proof.
  intros Hinv. unfold add_follow_up_context.
  destruct (negb (truthy call_sid)); [done|].
  pose proof (ensure_conversation_responses now call_sid m Hinv) as Hinv1.
  destruct (ensure_conversation now call_sid m) as [ok m1].
  cbn [snd] in Hinv1. destruct (negb ok); [done|].
  destruct (conversations m1 !! call_sid) as [c|]; [|done]. simpl.
  destruct (follow_up_context c) as [f|]; [|done]. cbn [snd mbind option_bind].
  by apply responses_have_sessions_insert_conversation.
Qed.

Lemma track_active_response_responses (now : Q)
    (call_sid response_token : string) (metadata : option dict)
    (m : manager) :
  responses_have_sessions m ->
  responses_have_sessions
    (track_active_response now call_sid response_token metadata m).2.
Proof.
  intros Hinv. unfold track_active_response.
  destruct (truthy call_sid) eqn:Hsid; [|done].
  destruct (truthy response_token); [|done]. cbn [negb orb]. cbv iota.
  pose proof (ensure_conversation_responses now call_sid m Hinv) as Hinv1.
  destruct (ensure_conversation_spec now call_sid m Hsid)
    as (m1 & c & He & Hc & _).
  rewrite He in *. cbn [snd negb] in *. cbv iota.
  match goal with
  | |- context [conversations ?m2 !! call_sid] =>
      change (conversations m2 !! call_sid) with (conversations m1 !! call_sid)
  end.
  rewrite Hc. cbn [snd].
  apply responses_have_sessions_insert_conversation.
  apply responses_have_sessions_insert_response; [done|].
  cbn [Response.call_sid]. by rewrite Hc.
Qed.

Lemma handle_response_interruption_responses (response_token : string)
    (interrupt_reason : option string) (m : manager) :
  responses_have_sessions m ->
  responses_have_sessions
    (handle_response_interruption response_token interrupt_reason m).2.
Proof.
  intros Hinv. unfold handle_response_interruption.
  destruct (negb (truthy response_token)); [done|].
  destruct (active_responses m !! response_token) as [r|] eqn:Hr; [|done].
  pose proof (Hinv response_token r Hr) as Hsid.
  assert (Hinv1 : responses_have_sessions
            (set_active_responses
               (<[response_token := mark_interrupted interrupt_reason r]>
                  (active_responses m)) m))
    by (by apply responses_have_sessions_insert_response).
  cbn [conversations set_active_responses mark_interrupted
       Response.call_sid Response.interruption_count] in *.
  destruct (conversations m !! Response.call_sid r) as [c|]; [|done].
  destruct (threshold_of (interruption_management_of c) <? _); cbn [snd];
    by apply (responses_have_sessions_insert_conversation _ _ _ Hinv1).
Qed.

Lemma add_conversation_message_responses (now : Q) (call_sid role : string)
    (content : option string) (metadata : option dict) (m : manager) :
  responses_have_sessions m ->
  responses_have_sessions
    (add_conversation_message now call_sid role content metadata m).2.
Proof.
  intros Hinv. unfold add_conversation_message.
  destruct content as [content|]; [|done].
  destruct (negb (truthy call_sid) || negb (truthy role)); [done|].
  pose proof (ensure_conversation_responses now call_sid m Hinv) as Hinv1.
  destruct (ensure_conversation now call_sid m) as [ok m1].
  cbn [snd] in Hinv1. destruct (negb ok); [done|].
  destruct (conversations m1 !! call_sid) as [c|]; [|done]. cbn [snd].
  destruct (String.eqb role "user").
  - apply update_conversation_intent_responses.
    by apply responses_have_sessions_insert_conversation.
  - by apply responses_have_sessions_insert_conversation.
Qed.

Lemma get_conversation_context_responses (call_sid : string)
    (max_messages : option Z) (m : manager) :
  responses_have_sessions m ->
  responses_have_sessions (get_conversation_context call_sid max_messages m).2.
Proof.
  intros Hinv. unfold get_conversation_context.
  destruct (negb (truthy call_sid)); [done|].
  destruct (conversations m !! call_sid); [|done]. cbn [snd].
  by apply responses_have_sessions_insert_conversation.
Qed.

Lemma str_in_spec (x : string) (l : list string) : str_in x l = true <-> x ∈ l.
Proof.
  unfold str_in. rewrite existsb_exists. split.
  - intros (y & Hin & ->%String.eqb_eq). by apply list_elem_of_In.
  - intros Hin. exists x. split; [by apply list_elem_of_In|].
    apply String.eqb_refl.
Qed.

(** What the sweep does to a response: it goes with its session. *)
Lemma cleanup_stale_conversations_response (current_time : Q)
    (max_age_seconds : Z) (m : manager) (response_token : string)
    (r : Response.t) :
  0 < max_age_seconds ->
  active_responses m !! response_token = Some r ->
  active_responses (cleanup_stale_conversations current_time max_age_seconds m).2
    !! response_token
  = match conversations m !! Response.call_sid r with
    | Some c =>
        if conversation_is_stale current_time max_age_seconds c
        then None else Some r
    | None => Some r
    end.
Proof.
  intros HT Hr. unfold cleanup_stale_conversations.
  destruct (max_age_seconds <=? 0) eqn:E; [lia|]. cbn [snd active_responses].
  rewrite lookup_delete_keys.
  set (stale := (map_to_list (filter _ (conversations m))).*1).
  assert (Hstale : Response.call_sid r ∈ stale
            <-> exists c, conversations m !! Response.call_sid r = Some c
                  /\ conversation_is_stale current_time max_age_seconds c
                     = true).
  { subst stale. by rewrite elem_of_filter_keys. }
  destruct (decide (response_token ∈ _)) as [Hin|Hnin].
  - apply elem_of_filter_keys in Hin as (r' & Hr' & Ht). cbn [snd] in Ht.
    assert (r' = r) as -> by congruence.
    apply str_in_spec, Hstale in Ht as (c & -> & ->). done.
  - rewrite Hr.
    destruct (conversations m !! Response.call_sid r) as [c|] eqn:Hc; [|done].
    destruct (conversation_is_stale current_time max_age_seconds c) eqn:Es;
      [|done].
    destruct Hnin. apply elem_of_filter_keys. exists r. split; [done|].
    cbn [snd]. apply str_in_spec, Hstale. by exists c.
Qed.

Lemma cleanup_stale_conversations_responses (now : Q) (max_age_seconds : Z)
    (m : manager) :
  responses_have_sessions m ->
  responses_have_sessions (cleanup_stale_conversations now max_age_seconds m).2.
Proof.
  intros Hinv. destruct (decide (0 < max_age_seconds)) as [HT|HT].
  - intros tok r Hr.
    assert (Hr0 : active_responses m !! tok = Some r).
    { revert Hr. unfold cleanup_stale_conversations.
      destruct (max_age_seconds <=? 0); [done|]. cbn [snd active_responses].
      rewrite lookup_delete_keys. by destruct (decide _). }
    rewrite (cleanup_stale_conversations_response now max_age_seconds m tok r
               HT Hr0) in Hr.
    destruct (Hinv tok r Hr0) as [c Hc]. rewrite Hc in Hr.
    rewrite (cleanup_stale_conversations_lookup now max_age_seconds m _ c HT Hc).
    by destruct (conversation_is_stale now max_age_seconds c).
  - unfold cleanup_stale_conversations.
    by destruct (max_age_seconds <=? 0) eqn:E; [|lia].
Qed.

(** What [cleanup_conversation] does to a stored session. *)
Lemma cleanup_conversation_stored (call_sid : string) (m : manager)
    (c : conversation) :
  truthy call_sid = true ->
  conversations m !! call_sid = Some c ->
  exists m',
    cleanup_conversation call_sid m = (true, m')
    /\ conversations m' = delete call_sid (conversations m)
    /\ max_history_length m' = max_history_length m
    /\ forall response_token,
         active_responses m' !! response_token
         = r ← active_responses m !! response_token;
           if String.eqb (Response.call_sid r) call_sid then None else Some r.
Proof.
  intros Hsid Hc. unfold cleanup_conversation. rewrite Hsid, Hc.
  cbn [negb]. cbv iota. eexists. split; [reflexivity|].
  cbn [conversations active_responses max_history_length].
  split; [done|]. split; [done|]. intros tok.
  rewrite lookup_delete_keys.
  destruct (decide (tok ∈ _)) as [Hin|Hnin].
  - apply elem_of_filter_keys in Hin as (r & -> & Ht). cbn [snd] in Ht.
    simpl. by rewrite Ht.
  - destruct (active_responses m !! tok) as [r|] eqn:Hr; [|done]. simpl.
    destruct (String.eqb (Response.call_sid r) call_sid) eqn:Et; [|done].
    destruct Hnin. apply elem_of_filter_keys. by exists r.
Qed.

Lemma cleanup_conversation_responses (call_sid : string) (m : manager) :
  responses_have_sessions m ->
  responses_have_sessions (cleanup_conversation call_sid m).2.
Proof.
  intros Hinv. destruct (truthy call_sid) eqn:Hsid;
    [|by unfold cleanup_conversation; rewrite Hsid].
  destruct (conversations m !! call_sid) as [c|] eqn:Hc;
    [|by unfold cleanup_conversation; rewrite Hsid, Hc].
  destruct (cleanup_conversation_stored call_sid m c Hsid Hc)
    as (m' & -> & Hconv & _ & Hresp). cbn [snd].
  intros tok r Hr. rewrite Hresp in Hr.
  destruct (active_responses m !! tok) as [r0|] eqn:Hr0; [|done].
  simpl in Hr.
  destruct (String.eqb (Response.call_sid r0) call_sid) eqn:Et; [done|].
  injection Hr as <-. apply String.eqb_neq in Et.
  rewrite Hconv, lookup_delete_ne by done. by eapply Hinv.
Qed.

Lemma step_responses_have_sessions (now : Q) (o : op) (m : manager) :
  responses_have_sessions m -> responses_have_sessions (step now o m).
Proof.
  intros Hinv.
  destruct o as [k ctx|k t q kw|k q|k tok md|tok reason
                |k role content md|k mm|age|k]; cbn [step].
  - by apply initialize_conversation_responses.
  - by apply add_follow_up_context_responses.
  - done.
  - by apply track_active_response_responses.
  - by apply handle_response_interruption_responses.
  - by apply add_conversation_message_responses.
  - by apply get_conversation_context_responses.
  - by apply cleanup_stale_conversations_responses.
  - by apply cleanup_conversation_responses.
Qed.

Lemma run_snoc (calls : list (Q * op)) (now : Q) (o : op) (m : manager) :
  run (calls ++ [(now, o)]) m = step now o (run calls m).
Proof. unfold run. by rewrite fold_left_app. Qed.

(** From its creation on, whatever is called, every response the manager
    tracks belongs to a session it stores: [handle_response_interruption]
    never answers that the response was interrupted but its conversation
    was not found. *)
Theorem responses_always_have_sessions (max_history_length : Z)
    (calls : list (Q * op)) :
  let m := run calls (new_manager max_history_length) in
  responses_have_sessions m
  /\ forall response_token interrupt_reason,
       message (handle_response_interruption response_token
                  interrupt_reason m).1
       <> "Response interrupted but conversation not found".
Proof.
  intros m.
  assert (Hinv : responses_have_sessions m).
  { subst m. induction calls as [|[now o] calls IH] using rev_ind.
    - intros tok r Hr. cbn in Hr. by rewrite lookup_empty in Hr.
    - rewrite run_snoc. by apply step_responses_have_sessions. }
  split; [done|]. intros tok reason. unfold handle_response_interruption.
  destruct (negb (truthy tok)); [done|].
  destruct (active_responses m !! tok) as [r|] eqn:Hr; [|done].
  destruct (Hinv tok r Hr) as [c Hc].
  cbn [conversations set_active_responses mark_interrupted
       Response.call_sid Response.interruption_count].
  rewrite Hc. by destruct (threshold_of (interruption_management_of c) <? _).
Qed.

End ResponsesAndSessions.

(** ** The conversation manager: messages over time *)

Section MessagesOverTime.
Import Py Regex ConversationManager Spec.

(** The whole effect of a successful [add_conversation_message]. *)
Lemma add_conversation_message_shape (now : Q) (call_sid role content : string)
    (metadata : option dict) (m : manager) :
  truthy call_sid = true ->
  truthy role = true ->
  let c := default (new_conversation None now) (conversations m !! call_sid) in
  let st := default (fresh_state now) (state c) in
  let message :=
    Message.Make role content now (default ∅ metadata)
      (call_sid +:+ "_" +:+ str_of_int (Z.of_nat (length (history c)) + 1)) in
  let intent' :=
    if String.eqb role "user" && truthy content then
      match List.find (any_keyword (lower content)) intent_keywords with
      | Some (intent, _) => Some intent
      | None => intent st
      end
    else intent st in
  add_conversation_message now call_sid role (Some content) metadata m
  = (true,
     Manager
       (<[call_sid :=
            Conversation
              (trim_history (max_history_length m) (history c ++ [message]))
              (Some (ConvState (current_topic st) intent' (context st)
                               (Some now)
                               (Some (default 0 (total_interactions st) + 1))
                               (conversation_type st)))
              (follow_up_context c) (interruption_management c)]>
          (conversations m))
       (active_responses m) (max_history_length m)).
Proof.
  intros Hsid Hrole c st message intent'. unfold add_conversation_message.
  rewrite Hsid, Hrole. cbn [negb orb]. cbv iota.
  destruct (ensure_conversation_spec now call_sid m Hsid)
    as (m1 & c1 & -> & Hc & Hcdef & Hconv & Hresp & Hlen).
  fold c in Hcdef. subst c1. cbn [negb]. cbv iota. rewrite Hc, Hlen.
  fold message. fold st. f_equal.
  subst intent'. unfold _update_conversation_intent. rewrite Hsid.
  destruct (String.eqb role "user"); cbn [andb].
  - destruct (truthy content); cbn [negb orb]; cbv iota.
    + cbn [conversations set_conversations]. rewrite lookup_insert_eq.
      cbn [state set_state default]. unfold set_conversations.
      cbn [conversations active_responses max_history_length].
      rewrite insert_insert_eq, Hconv, insert_insert_eq, Hresp, Hlen.
      destruct (List.find (any_keyword (lower content)) intent_keywords)
        as [[intent0 kws]|]; reflexivity.
    + unfold set_conversations.
      by rewrite Hconv, insert_insert_eq, Hresp, Hlen.
  - unfold set_conversations. by rewrite Hconv, insert_insert_eq, Hresp, Hlen.
Qed.

(** Once a session's history is full, every further message gets the
    identifier [call_sid_N] with [N = 2 * max_history_length + 1]: the
    identifier is made from the length of the history, which the window
    keeps constant.  Two messages added one after the other to a full
    history are both stored and share their [message_id]. *)
Theorem message_id_repeats_in_full_window (now1 now2 : Q)
    (call_sid role1 role2 content1 content2 : string)
    (metadata1 metadata2 : option dict) (m : manager) (c : conversation) :
  0 < max_history_length m ->
  truthy call_sid = true ->
  truthy role1 = true ->
  truthy role2 = true ->
  conversations m !! call_sid = Some c ->
  Z.of_nat (length (history c)) = 2 * max_history_length m ->
  let m1 :=
    (add_conversation_message now1 call_sid role1 (Some content1) metadata1
       m).2 in
  let m2 :=
    (add_conversation_message now2 call_sid role2 (Some content2) metadata2
       m1).2 in
  exists c2 message1 message2,
    conversations m2 !! call_sid = Some c2
    /\ history c2 = (drop 2 (history c) ++ [message1; message2])%list
    /\ Message.content message1 = content1
    /\ Message.content message2 = content2
    /\ Message.message_id message1 = Message.message_id message2
    /\ Message.message_id message2
       = call_sid +:+ "_" +:+ str_of_int (2 * max_history_length m + 1).
Proof.
  intros Hmax Hsid Hrole1 Hrole2 Hc Hfull m1 m2. subst m2 m1.
  rewrite (add_conversation_message_shape now1 call_sid role1 content1
             metadata1 m Hsid Hrole1).
  rewrite Hc. change (default (new_conversation None now1) (Some c)) with c.
  cbn [snd].
  set (message1 := Message.Make role1 content1 now1 _ _).
  set (c1 := Conversation _ _ _ _).
  set (m1 := Manager _ _ _).
  assert (Hc1 : conversations m1 !! call_sid = Some c1).
  { subst m1. cbn [conversations]. by rewrite lookup_insert_eq. }
  assert (Hh1 : history c1 = (drop 1 (history c) ++ [message1])%list).
  { subst c1. cbn [history].
    destruct (trim_history_window (max_history_length m)
                (history c ++ [message1]) Hmax) as [-> _].
    rewrite length_app. cbn [length].
    replace (length (history c) + 1 - Z.to_nat (2 * max_history_length m))%nat
      with 1%nat by lia.
    rewrite drop_app_le by lia. done. }
  assert (Hlen1 : length (history c1) = length (history c)).
  { rewrite Hh1, length_app, length_drop. cbn [length]. lia. }
  rewrite (add_conversation_message_shape now2 call_sid role2 content2
             metadata2 m1 Hsid Hrole2).
  rewrite Hc1. change (default (new_conversation None now2) (Some c1)) with c1.
  cbn [snd conversations].
  change (max_history_length m1) with (max_history_length m).
  set (message2 := Message.Make role2 content2 now2 _ _).
  rewrite lookup_insert_eq.
  eexists _, message1, message2. split; [reflexivity|]. cbn [history].
  split.
  - destruct (trim_history_window (max_history_length m)
                (history c1 ++ [message2]) Hmax) as [-> _].
    rewrite length_app, Hlen1. cbn [length].
    replace (length (history c) + 1 - Z.to_nat (2 * max_history_length m))%nat
      with 1%nat by lia.
    rewrite Hh1, <- app_assoc. cbn [app].
    rewrite drop_app_le by (rewrite length_drop; lia).
    rewrite drop_drop. done.
  - split; [done|]. split; [done|].
    subst message1 message2. cbn [Message.message_id]. rewrite Hlen1.
    split; [done|]. do 3 f_equal. lia.
Qed.

(** A manager that keeps one exchange, with a session of two messages. *)
Lemma message_id_repeats_in_full_window_witness :
  let m :=
    run [(1%Q, AddConversationMessage "CA1" "user" (Some "hello") None);
         (2%Q, AddConversationMessage "CA1" "assistant" (Some "hi") None)]
        (new_manager 1) in
  let m1 :=
    (add_conversation_message 3 "CA1" "user" (Some "any houses?") None m).2 in
  let m2 :=
    (add_conversation_message 4 "CA1" "assistant" (Some "yes") None m1).2 in
  exists c2 message1 message2,
    conversations m2 !! "CA1" = Some c2
    /\ history c2
       = (drop 2 [Message.Make "user" "hello" 1 ∅ "CA1_1";
                  Message.Make "assistant" "hi" 2 ∅ "CA1_2"]
          ++ [message1; message2])%list
    /\ Message.content message1 = "any houses?"
    /\ Message.content message2 = "yes"
    /\ Message.message_id message1 = Message.message_id message2
    /\ Message.message_id message2 = "CA1_3".
Proof.
  intros m.
  refine (message_id_repeats_in_full_window 3 4 "CA1" "user" "assistant"
            "any houses?" "yes" None None m
            (Conversation
               [Message.Make "user" "hello" 1 ∅ "CA1_1";
                Message.Make "assistant" "hi" 2 ∅ "CA1_2"]
               (Some (ConvState None None (Some ∅) (Some 2%Q) (Some 2)
                                (Some "initial")))
               (Some (FollowUp (Some []) (Some []) (Some [])))
               (Some (InterruptionMgmt (Some None) (Some true) (Some 3))))
            _ eq_refl eq_refl eq_refl _ _).
  - vm_compute. reflexivity.
  - vm_compute. reflexivity.
  - vm_compute. reflexivity.
Defined.

(** [total_interactions] counts every message added to a session, also
    the ones that the window has dropped since: after [n] more messages
    it is [n] higher, while the history holds the last
    [2 * max_history_length] of them at most. *)
Theorem total_interactions_counts_every_message (call_sid : string)
    (calls : list (Q * op)) (m : manager) (c : conversation)
    (st : conv_state) (t : Z) :
  0 < max_history_length m ->
  truthy call_sid = true ->
  Forall (fun call => adds_message call_sid call.2) calls ->
  conversations m !! call_sid = Some c ->
  state c = Some st ->
  total_interactions st = Some t ->
  Z.of_nat (length (history c)) <= 2 * max_history_length m ->
  exists c' st',
    conversations (run calls m) !! call_sid = Some c'
    /\ state c' = Some st'
    /\ total_interactions st' = Some (t + Z.of_nat (length calls))
    /\ Z.of_nat (length (history c'))
       = Z.min (Z.of_nat (length (history c)) + Z.of_nat (length calls))
               (2 * max_history_length m).
Proof.
  intros Hmax Hsid Hcalls. revert m c st t Hmax.
  induction Hcalls as [|[now o] calls (role & content & md & Hrole & Ho) _ IH];
    intros m c st t Hmax Hc Hst Ht Hlen.
  - exists c, st. cbn [run fold_left length].
    split; [done|]. split; [done|]. split; [|lia].
    rewrite Ht. f_equal. lia.
  - cbn [snd] in Ho. subst o. cbn [run fold_left step].
    rewrite (add_conversation_message_shape now call_sid role content md m
               Hsid Hrole).
    rewrite Hc. change (default (new_conversation None now) (Some c)) with c.
    rewrite Hst. change (default (fresh_state now) (Some st)) with st.
    rewrite Ht. cbn [snd].
    set (message := Message.Make role content now _ _).
    set (c1 := Conversation _ _ _ _).
    set (m1 := Manager _ _ _).
    assert (Hc1 : conversations m1 !! call_sid = Some c1).
    { subst m1. cbn [conversations]. by rewrite lookup_insert_eq. }
    assert (Hh1 : Z.of_nat (length (history c1))
                  = Z.min (Z.of_nat (length (history c)) + 1)
                          (2 * max_history_length m)).
    { subst c1. cbn [history].
      destruct (trim_history_window (max_history_length m)
                  (history c ++ [message]) Hmax) as [-> _].
      rewrite length_drop, length_app. cbn [length]. lia. }
    destruct (IH m1 c1 _ (t + 1) Hmax Hc1 eq_refl eq_refl)
      as (c' & st' & Hc' & Hst' & Ht' & Hlen').
    { rewrite Hh1. change (max_history_length m1) with (max_history_length m).
      lia. }
    exists c', st'. split; [exact Hc'|]. split; [done|]. split.
    + rewrite Ht'. f_equal. cbn [length]. lia.
    + rewrite Hlen', Hh1.
      change (max_history_length m1) with (max_history_length m).
      cbn [length]. lia.
Qed.

(** A manager that keeps one exchange: after four messages the session
    counts four and holds two. *)
Lemma total_interactions_counts_every_message_witness :
  let m := (initialize_conversation 0 "CA1" None (new_manager 1)).2 in
  let calls :=
    [(1%Q, AddConversationMessage "CA1" "user" (Some "hello") None);
     (2%Q, AddConversationMessage "CA1" "assistant" (Some "hi") None);
     (3%Q, AddConversationMessage "CA1" "user" (Some "any houses?") None);
     (4%Q, AddConversationMessage "CA1" "assistant" (Some "yes") None)] in
  exists c' st',
    conversations (run calls m) !! "CA1" = Some c'
    /\ state c' = Some st'
    /\ total_interactions st' = Some (0 + Z.of_nat (length calls))
    /\ Z.of_nat (length (history c'))
       = Z.min (Z.of_nat (length (history (new_conversation None 0)))
                + Z.of_nat (length calls))
               (2 * max_history_length m).
Proof.
  intros m calls.
  refine (total_interactions_counts_every_message "CA1" calls m
            (new_conversation None 0)
            (ConvState None None (Some ∅) (Some 0%Q) (Some 0)
                       (Some "initial")) 0 _ eq_refl _ _ eq_refl eq_refl _).
  - vm_compute. reflexivity.
  - repeat constructor; eexists _, _, _; (split; [|reflexivity]); reflexivity.
  - vm_compute. reflexivity.
  - vm_compute. discriminate.
Defined.

(** *** What counts as activity *)

Lemma session_state_insert (call_sid k : string) (c' : conversation)
    (m : manager) :
  session_state call_sid (set_conversations (<[k := c']> (conversations m)) m)
  = if decide (k = call_sid) then state c' else session_state call_sid m.
Proof.
  unfold session_state. cbn [conversations set_conversations].
  destruct (decide (k = call_sid)) as [->|Hne].
  - by rewrite lookup_insert_eq.
  - by rewrite lookup_insert_ne.
Qed.

Lemma session_state_stored (call_sid : string) (m : manager)
    (st : conv_state) :
  session_state call_sid m = Some st
  <-> exists c, conversations m !! call_sid = Some c /\ state c = Some st.
Proof.
  unfold session_state. split.
  - destruct (conversations m !! call_sid) as [c|]; [|discriminate].
    simpl. intros Hst. by exists c.
  - by intros (c & -> & Hst).
Qed.

Lemma initialize_conversation_keeps_state (now : Q) (k call_sid : string)
    (initial_context : option dict) (m : manager) (st : conv_state) :
  session_state call_sid m = Some st ->
  session_state call_sid (initialize_conversation now k initial_context m).2
  = Some st.
Proof.
  intros Hst. unfold initialize_conversation.
  destruct (negb (truthy k)); [done|].
  destruct (conversations m !! k) eqn:Hk; [done|]. cbn [snd].
  rewrite session_state_insert.
  destruct (decide (k = call_sid)) as [->|_]; [|done].
  apply session_state_stored in Hst as (c & Hc & _). congruence.
Qed.

Lemma ensure_conversation_keeps_state (now : Q) (k call_sid : string)
    (m : manager) (st : conv_state) :
  session_state call_sid m = Some st ->
  session_state call_sid (ensure_conversation now k m).2 = Some st.
Proof.
  intros Hst. unfold ensure_conversation.
  destruct (conversations m !! k); [done|].
  by apply initialize_conversation_keeps_state.
Qed.

Lemma add_follow_up_context_keeps_state (now : Q) (k call_sid : string)
    (topics questions keywords : option (list string)) (m : manager)
    (st : conv_state) :
  session_state call_sid m = Some st ->
  session_state call_sid
    (add_follow_up_context now k topics questions keywords m).2 = Some st.
Proof.
  intros Hst. unfold add_follow_up_context.
  destruct (negb (truthy k)); [done|].
  pose proof (ensure_conversation_keeps_state now k call_sid m st Hst) as Hst1.
  destruct (ensure_conversation now k m) as [ok m1].
  cbn [snd] in Hst1. destruct (negb ok); [done|].
  destruct (conversations m1 !! k) as [c|] eqn:Hc; [|done]. simpl.
  destruct (follow_up_context c) as [f|]; [|done]. cbn [snd mbind option_bind].
  rewrite session_state_insert.
  destruct (decide (k = call_sid)) as [->|_]; [|done].
  apply session_state_stored in Hst1 as (c1 & Hc1 & Hs).
  cbn [state set_follow_up_context]. congruence.
Qed.

Lemma track_active_response_keeps_state (now : Q)
    (k response_token call_sid : string) (metadata : option dict)
    (m : manager) (st : conv_state) :
  session_state call_sid m = Some st ->
  session_state call_sid
    (track_active_response now k response_token metadata m).2 = Some st.
Proof.
  intros Hst. unfold track_active_response.
  destruct (negb (truthy k) || negb (truthy response_token)); [done|].
  pose proof (ensure_conversation_keeps_state now k call_sid m st Hst) as Hst1.
  destruct (ensure_conversation now k m) as [ok m1].
  cbn [snd] in Hst1. destruct (negb ok); [done|].
  cbn [conversations set_active_responses].
  destruct (conversations m1 !! k) as [c|] eqn:Hc; [|done]. cbn [snd].
  unfold session_state in *.
  cbn [conversations set_conversations set_active_responses].
  destruct (decide (k = call_sid)) as [->|Hne].
  - rewrite lookup_insert_eq. rewrite Hc in Hst1. done.
  - by rewrite lookup_insert_ne.
Qed.

Lemma handle_response_interruption_keeps_state (response_token : string)
    (interrupt_reason : option string) (call_sid : string) (m : manager)
    (st : conv_state) :
  session_state call_sid m = Some st ->
  session_state call_sid
    (handle_response_interruption response_token interrupt_reason m).2
  = Some st.
Proof.
  intros Hst. unfold handle_response_interruption.
  destruct (negb (truthy response_token)); [done|].
  destruct (active_responses m !! response_token) as [r|]; [|done].
  cbn [conversations set_active_responses mark_interrupted
       Response.call_sid Response.interruption_count].
  destruct (conversations m !! Response.call_sid r) as [c|] eqn:Hc; [|done].
  destruct (threshold_of (interruption_management_of c) <? _); cbn [snd];
    unfold session_state in *;
    cbn [conversations set_conversations set_active_responses];
    (destruct (decide (Response.call_sid r = call_sid)) as [Heq|Hne];
     [rewrite Heq in Hc; rewrite Hc in Hst;
      rewrite Heq, lookup_insert_eq; exact Hst
     |by rewrite lookup_insert_ne]).
Qed.

Lemma add_conversation_message_keeps_state (now : Q) (k role : string)
    (content : option string) (metadata : option dict) (call_sid : string)
    (m : manager) (st : conv_state) :
  k <> call_sid ->
  session_state call_sid m = Some st ->
  session_state call_sid
    (add_conversation_message now k role content metadata m).2 = Some st.
Proof.
  intros Hne Hst. unfold add_conversation_message.
  destruct content as [content|]; [|done].
  destruct (negb (truthy k) || negb (truthy role)); [done|].
  pose proof (ensure_conversation_keeps_state now k call_sid m st Hst) as Hst1.
  destruct (ensure_conversation now k m) as [ok m1].
  cbn [snd] in Hst1. destruct (negb ok); [done|].
  destruct (conversations m1 !! k) as [c|] eqn:Hc; [|done]. cbn [snd].
  match goal with
  | |- context [set_conversations (<[k := ?c2]> _) m1] =>
      assert (Hst2 : session_state call_sid
                (set_conversations (<[k := c2]> (conversations m1)) m1)
              = Some st)
  end.
  { rewrite session_state_insert. by destruct (decide (k = call_sid)). }
  destruct (String.eqb role "user"); [|done].
  match goal with
  | |- session_state _ (_update_conversation_intent _ _ _ ?m2) = _ =>
      pose proof (update_conversation_intent_spec now k content m2)
        as (_ & _ & Hother & _)
  end.
  unfold session_state in *. rewrite Hother by done. exact Hst2.
Qed.

Lemma get_conversation_context_keeps_state (k : string)
    (max_messages : option Z) (call_sid : string) (m : manager)
    (st : conv_state) :
  session_state call_sid m = Some st ->
  session_state call_sid (get_conversation_context k max_messages m).2
  = Some st.
Proof.
  intros Hst. unfold get_conversation_context.
  destruct (negb (truthy k)); [done|].
  destruct (conversations m !! k) as [c|] eqn:Hc; [|done]. cbn [snd].
  rewrite session_state_insert.
  destruct (decide (k = call_sid)) as [->|_]; [|done].
  apply session_state_stored in Hst as (c1 & Hc1 & Hs).
  cbn [state]. assert (c1 = c) as -> by congruence. by rewrite Hs.
Qed.

Lemma cleanup_stale_conversations_keeps_state (now : Q) (max_age_seconds : Z)
    (call_sid : string) (m : manager) (st : conv_state) :
  session_state call_sid m = Some st ->
  let m' := (cleanup_stale_conversations now max_age_seconds m).2 in
  session_state call_sid m' = Some st \/ conversations m' !! call_sid = None.
Proof.
  intros Hst m'. subst m'.
  destruct (decide (0 < max_age_seconds)) as [Hpos|Hneg].
  - pose proof Hst as (c & Hc & _)%session_state_stored.
    pose proof (cleanup_stale_conversations_lookup now max_age_seconds m
                  call_sid c Hpos Hc) as Hl.
    destruct (conversation_is_stale now max_age_seconds c); [by right|].
    left. unfold session_state in *. by rewrite Hl, <- Hc.
  - left. unfold cleanup_stale_conversations.
    by destruct (max_age_seconds <=? 0) eqn:E; [|lia].
Qed.

Lemma cleanup_conversation_keeps_state (k call_sid : string) (m : manager)
    (st : conv_state) :
  session_state call_sid m = Some st ->
  let m' := (cleanup_conversation k m).2 in
  session_state call_sid m' = Some st \/ conversations m' !! call_sid = None.
Proof.
  intros Hst m'. subst m'. unfold cleanup_conversation.
  destruct (negb (truthy k)); [by left|].
  destruct (conversations m !! k) as [c|] eqn:Hc; [|by left].
  cbn [snd conversations].
  destruct (decide (k = call_sid)) as [->|Hne].
  - right. apply lookup_delete_eq.
  - left. unfold session_state in *. cbn [conversations].
    by rewrite lookup_delete_ne.
Qed.

(** A call that is not [add_conversation_message] for the session leaves
    its ['state'] as it is, or removes the session. *)
Lemma step_keeps_state (now : Q) (call_sid : string) (o : op) (m : manager)
    (st : conv_state) :
  session_state call_sid m = Some st ->
  (forall role content metadata,
      o <> AddConversationMessage call_sid role content metadata) ->
  session_state call_sid (step now o m) = Some st
  \/ conversations (step now o m) !! call_sid = None.
Proof.
  intros Hst Hnot.
  destruct o as [k ctx|k t q kw|k q|k tok md|tok reason
                |k role content md|k mm|age|k]; cbn [step].
  - left. by apply initialize_conversation_keeps_state.
  - left. by apply add_follow_up_context_keeps_state.
  - by left.
  - left. by apply track_active_response_keeps_state.
  - left. by apply handle_response_interruption_keeps_state.
  - left. apply add_conversation_message_keeps_state; [|done].
    intros ->. by apply (Hnot role content md).
  - left. by apply get_conversation_context_keeps_state.
  - by apply cleanup_stale_conversations_keeps_state.
  - by apply cleanup_conversation_keeps_state.
Qed.

Lemma run_keeps_state (call_sid : string) (calls : list (Q * op))
    (m : manager) (st : conv_state) :
  session_state call_sid m = Some st ->
  Forall (fun call => forall role content metadata,
            call.2 <> AddConversationMessage call_sid role content metadata)
         calls ->
  session_state call_sid (run calls m) = Some st
  \/ exists before after,
       calls = (before ++ after)%list
       /\ conversations (run before m) !! call_sid = None.
Proof.
  revert m. induction calls as [|[now o] calls IH]; intros m Hst Hcalls.
  - by left.
  - inversion_clear Hcalls as [|? ? Ho Hrest]. cbn [snd] in Ho.
    destruct (step_keeps_state now call_sid o m st Hst Ho) as [Hst'|Hgone].
    + destruct (IH (step now o m) Hst' Hrest)
        as [Hend|(before & after & -> & Hgone)].
      * by left.
      * right. by exists ((now, o) :: before), after.
    + right. by exists [(now, o)], calls.
Qed.

(** Only a message counts as activity.  Along calls of the public
    methods without [add_conversation_message] for a session - responses
    tracked and interrupted, follow-up context added, the context read -
    the session's ['state'] stays as it is, [last_interaction_time]
    included, unless the session is removed on the way; so a sweep whose
    threshold the last message is older than removes the session,
    whatever was tracked or interrupted since. *)
Theorem only_messages_keep_a_session_alive (call_sid : string) (m : manager)
    (st : conv_state) (t : Q) (calls : list (Q * op)) :
  session_state call_sid m = Some st ->
  last_interaction_time st = Some t ->
  Forall (fun call => forall role content metadata,
            call.2 <> AddConversationMessage call_sid role content metadata)
         calls ->
  (session_state call_sid (run calls m) = Some st
   /\ forall (now : Q) (max_age_seconds : Z),
        0 < max_age_seconds ->
        (inject_Z max_age_seconds < now - t)%Q ->
        conversations
          (cleanup_stale_conversations now max_age_seconds (run calls m)).2
          !! call_sid = None)
  \/ exists before after,
       calls = (before ++ after)%list
       /\ conversations (run before m) !! call_sid = None.
Proof.
  intros Hst Ht Hcalls.
  destruct (run_keeps_state call_sid calls m st Hst Hcalls) as [Hend|Hgone];
    [left|by right].
  split; [done|]. intros now T HT Hold.
  apply session_state_stored in Hend as (c & Hc & Hs).
  rewrite (cleanup_stale_conversations_lookup now T _ call_sid c HT Hc).
  unfold conversation_is_stale. rewrite Hs. simpl. rewrite Ht.
  by apply Qltb_lt in Hold as ->.
Qed.

(** A session opened at time 0; a response is tracked at 100 and
    interrupted at 101, and the sweep at 102 with a threshold of 60
    seconds removes the session. *)
Lemma only_messages_keep_a_session_alive_witness :
  let m := (initialize_conversation 0 "CA1" None (new_manager 10)).2 in
  let st :=
    ConvState None None (Some ∅) (Some 0%Q) (Some 0) (Some "initial") in
  let calls :=
    [(100%Q, TrackActiveResponse "CA1" "token-1" None);
     (101%Q, HandleResponseInterruption "token-1" (Some "user_interrupt"))] in
  (session_state "CA1" (run calls m) = Some st
   /\ forall (now : Q) (max_age_seconds : Z),
        0 < max_age_seconds ->
        (inject_Z max_age_seconds < now - 0)%Q ->
        conversations
          (cleanup_stale_conversations now max_age_seconds (run calls m)).2
          !! "CA1" = None)
  \/ exists before after,
       calls = (before ++ after)%list
       /\ conversations (run before m) !! "CA1" = None.
Proof.
  intros m st calls.
  refine (only_messages_keep_a_session_alive "CA1" m st 0 calls _ eq_refl _).
  - vm_compute. reflexivity.
  - repeat constructor; intros role content metadata; discriminate.
Defined.

(** *** Which intent a message sets *)

Lemma contains_longer (sub rest s : string) :
  contains (sub +:+ rest) s = true -> contains sub s = true.
Proof.
  rewrite !contains_spec. intros (pre & post & ->).
  exists pre, (rest +:+ post). by rewrite str_app_assoc.
Qed.

(** The intent that the state of a new or stored session starts from. *)
Lemma session_state_intent (now : Q) (call_sid : string) (m : manager) :
  intent (default (fresh_state now)
            (state (default (new_conversation None now)
                            (conversations m !! call_sid))))
  = session_state call_sid m ≫= intent.
Proof.
  unfold session_state.
  destruct (conversations m !! call_sid) as [c|]; [|done]. simpl.
  by destruct (state c).
Qed.

(** The intent ["market_info"] is set only by a user's message that
    mentions a trend or appreciation and says neither "market" nor
    "price": these two, though listed for ["market_info"], are found
    first in the list of ["selling"], which the search reaches before. *)
Theorem market_info_needs_trend_or_appreciation (now : Q)
    (call_sid role content : string) (metadata : option dict) (m : manager) :
  truthy call_sid = true ->
  truthy role = true ->
  let m' :=
    (add_conversation_message now call_sid role (Some content) metadata m).2 in
  session_state call_sid m' ≫= intent = Some "market_info" ->
  session_state call_sid m ≫= intent <> Some "market_info" ->
  role = "user"
  /\ (contains "trend" (lower content) = true
      \/ contains "appreciation" (lower content) = true)
  /\ contains "market" (lower content) = false
  /\ contains "price" (lower content) = false.
Proof.
  intros Hsid Hrole m'. subst m'.
  rewrite (add_conversation_message_shape now call_sid role content metadata
             m Hsid Hrole).
  cbn [snd]. unfold session_state at 1. cbn [conversations].
  rewrite lookup_insert_eq. cbn [mbind option_bind state intent].
  rewrite session_state_intent.
  destruct (String.eqb role "user") eqn:Er; cbn [andb]; [|congruence].
  apply String.eqb_eq in Er.
  destruct (truthy content); [|congruence].
  unfold intent_keywords. cbn [List.find].
  destruct (any_keyword (lower content) ("buying", _)); [discriminate|].
  destruct (any_keyword (lower content) ("selling", _)) eqn:Esell;
    [discriminate|].
  destruct (any_keyword (lower content) ("mortgage", _)); [discriminate|].
  destruct (any_keyword (lower content) ("investment", _)); [discriminate|].
  destruct (any_keyword (lower content) ("market_info", _)) eqn:Emarket;
    [|congruence].
  intros _ _. unfold any_keyword in Esell, Emarket.
  cbn [snd existsb] in Esell, Emarket.
  apply orb_false_elim in Esell as [_ Esell].
  apply orb_false_elim in Esell as [_ Esell].
  apply orb_false_elim in Esell as [Hmarket Esell].
  apply orb_false_elim in Esell as [Hprice _].
  rewrite Hmarket in Emarket. cbn [orb] in Emarket.
  assert (Hprices : contains "prices" (lower content) = false).
  { destruct (contains "prices" (lower content)) eqn:E; [|done].
    apply (contains_longer "price" "s") in E. congruence. }
  rewrite Hprices in Emarket. cbn [orb] in Emarket.
  rewrite orb_false_r in Emarket. apply orb_true_iff in Emarket.
  done.
Qed.

(** A question about a trend sets the intent of a new session. *)
Lemma market_info_needs_trend_or_appreciation_witness :
  let content := "What is the trend in Austin?" in
  "user" = "user"
  /\ (contains "trend" (lower content) = true
      \/ contains "appreciation" (lower content) = true)
  /\ contains "market" (lower content) = false
  /\ contains "price" (lower content) = false.
Proof.
  refine (market_info_needs_trend_or_appreciation 0 "CA1" "user"
            "What is the trend in Austin?" None (new_manager 10)
            eq_refl eq_refl _ _).
  - vm_compute. reflexivity.
  - vm_compute. discriminate.
Defined.

End MessagesOverTime.

(** ** The conversation manager: how often a response can be interrupted *)

Section InterruptionBudget.
Import Py Regex ConversationManager Spec.

(** The response [response_token] of the session [call_sid] has been
    interrupted [count] times, and the session's threshold is
    [threshold]. *)
Lemma handle_response_interruption_counted (response_token : string)
    (interrupt_reason : option string) (call_sid : string)
    (count threshold : Z) (m : manager) :
  truthy response_token = true ->
  (exists r c,
      active_responses m !! response_token = Some r
      /\ Response.call_sid r = call_sid
      /\ Response.interruption_count r = count
      /\ conversations m !! call_sid = Some c
      /\ threshold_of (interruption_management_of c) = threshold) ->
  let '(result, m') :=
    handle_response_interruption response_token interrupt_reason m in
  success result = (count <? threshold)
  /\ reported_count result
     = (if count <? threshold then Some (count + 1) else None)
  /\ exists r c,
       active_responses m' !! response_token = Some r
       /\ Response.call_sid r = call_sid
       /\ Response.interruption_count r = count + 1
       /\ conversations m' !! call_sid = Some c
       /\ threshold_of (interruption_management_of c) = threshold.
Proof.
  intros Htok (r & c & Hr & Hsid & Hcount & Hc & Ht).
  unfold handle_response_interruption. rewrite Htok, Hr. cbn [negb]. cbv iota.
  cbn [conversations set_active_responses mark_interrupted Response.call_sid].
  rewrite Hsid, Hc.
  change (Response.interruption_count (mark_interrupted interrupt_reason r))
    with (Response.interruption_count r + 1).
  rewrite Ht, Hcount.
  destruct (threshold <? count + 1) eqn:E.
  - assert ((count <? threshold) = false) as -> by lia.
    split; [done|]. split; [done|].
    eexists _, _. cbn [conversations active_responses set_conversations
                       set_active_responses].
    rewrite !lookup_insert_eq.
    split; [reflexivity|]. unfold mark_interrupted.
    cbn [Response.call_sid Response.interruption_count].
    split; [done|]. split; [lia|]. split; [reflexivity|]. exact Ht.
  - assert ((count <? threshold) = true) as -> by lia.
    split; [done|]. split; [done|].
    eexists _, _. cbn [conversations active_responses set_conversations
                       set_active_responses].
    rewrite !lookup_insert_eq.
    split; [reflexivity|]. unfold mark_interrupted.
    cbn [Response.call_sid Response.interruption_count].
    split; [done|]. split; [lia|]. split; [reflexivity|]. exact Ht.
Qed.

(** A response just tracked has not been interrupted, and its session
    has the threshold it had, or 3. *)
Lemma track_active_response_counted (now : Q)
    (call_sid response_token : string) (metadata : option dict)
    (m : manager) :
  truthy call_sid = true ->
  truthy response_token = true ->
  exists r c,
    active_responses
      (track_active_response now call_sid response_token metadata m).2
      !! response_token = Some r
    /\ Response.call_sid r = call_sid
    /\ Response.interruption_count r = 0
    /\ conversations
         (track_active_response now call_sid response_token metadata m).2
         !! call_sid = Some c
    /\ threshold_of (interruption_management_of c)
       = default 3 (c ← conversations m !! call_sid;
                    i ← interruption_management c;
                    interrupt_threshold i).
Proof.
  intros Hsid Htok. unfold track_active_response.
  rewrite Hsid, Htok. cbn [negb orb]. cbv iota.
  destruct (ensure_conversation_spec now call_sid m Hsid)
    as (m1 & c & -> & Hc & Hcdef & _).
  cbn [negb]. cbv iota. cbn [conversations set_active_responses].
  rewrite Hc. cbn [snd].
  eexists _, _.
  cbn [conversations active_responses set_conversations set_active_responses].
  rewrite !lookup_insert_eq. split; [reflexivity|].
  split; [reflexivity|]. split; [reflexivity|]. split; [reflexivity|].
  rewrite Hcdef.
  destruct (conversations m !! call_sid) as [c0|]; [|reflexivity]. simpl.
  by destruct (interruption_management c0) as [i|].
Qed.

Lemma run_interruptions_counted (response_token call_sid : string)
    (threshold : Z) (calls : list (Q * op)) (count : Z) (m : manager) :
  truthy response_token = true ->
  Forall (fun call => interrupts response_token call.2) calls ->
  (exists r c,
      active_responses m !! response_token = Some r
      /\ Response.call_sid r = call_sid
      /\ Response.interruption_count r = count
      /\ conversations m !! call_sid = Some c
      /\ threshold_of (interruption_management_of c) = threshold) ->
  exists r c,
    active_responses (run calls m) !! response_token = Some r
    /\ Response.call_sid r = call_sid
    /\ Response.interruption_count r = count + Z.of_nat (length calls)
    /\ conversations (run calls m) !! call_sid = Some c
    /\ threshold_of (interruption_management_of c) = threshold.
Proof.
  intros Htok Hcalls. revert count m.
  induction Hcalls as [|[now o] calls [reason Ho] _ IH]; intros count m Hinv.
  - destruct Hinv as (r & c & Hr & Hsid & Hcount & Hc & Ht).
    exists r, c. cbn [run fold_left length]. repeat split; try done. lia.
  - cbn [snd] in Ho. subst o. cbn [run fold_left step].
    pose proof (handle_response_interruption_counted response_token reason
                  call_sid count threshold m Htok Hinv) as Hstep.
    destruct (handle_response_interruption response_token reason m)
      as [result m'].
    destruct Hstep as (_ & _ & Hinv'). cbn [snd].
    destruct (IH (count + 1) m' Hinv') as (r & c & Hr & Hsid & Hcount & Hc & Ht).
    exists r, c. repeat split; try done. rewrite Hcount. cbn [length]. lia.
Qed.

(** A response can be interrupted as often as its session's threshold
    says, 3 times when the session has none: after
    [track_active_response] and any number of interruptions of that
    response, one more succeeds exactly when fewer than the threshold
    came before, and then reports their number plus one. *)
Theorem interruptions_succeed_up_to_threshold (now : Q)
    (call_sid response_token : string) (metadata : option dict)
    (m : manager) (calls : list (Q * op)) (interrupt_reason : option string) :
  truthy call_sid = true ->
  truthy response_token = true ->
  Forall (fun call => interrupts response_token call.2) calls ->
  let threshold :=
    default 3 (c ← conversations m !! call_sid;
               i ← interruption_management c;
               interrupt_threshold i) in
  let tracked :=
    (track_active_response now call_sid response_token metadata m).2 in
  let result :=
    (handle_response_interruption response_token interrupt_reason
       (run calls tracked)).1 in
  success result = (Z.of_nat (length calls) <? threshold)
  /\ reported_count result
     = if Z.of_nat (length calls) <? threshold
       then Some (Z.of_nat (length calls) + 1) else None.
Proof.
  intros Hsid Htok Hcalls threshold tracked result.
  pose proof (track_active_response_counted now call_sid response_token
                metadata m Hsid Htok) as Hinv0.
  pose proof (run_interruptions_counted response_token call_sid threshold
                calls 0 tracked Htok Hcalls Hinv0) as Hinv.
  pose proof (handle_response_interruption_counted response_token
                interrupt_reason call_sid _ threshold (run calls tracked)
                Htok Hinv) as Hlast.
  subst result.
  destruct (handle_response_interruption response_token interrupt_reason
              (run calls tracked)) as [result m'].
  destruct Hlast as (Hs & Hn & _). cbn [fst]. by split.
Qed.

(** A new call with the default threshold of 3: after three
    interruptions the fourth is refused. *)
Lemma interruptions_succeed_up_to_threshold_witness :
  let calls :=
    [(1%Q, HandleResponseInterruption "token-1" None);
     (2%Q, HandleResponseInterruption "token-1" None);
     (3%Q, HandleResponseInterruption "token-1" None)] in
  let tracked :=
    (track_active_response 0 "CA1" "token-1" None
       global_enhanced_conversation_manager).2 in
  let result :=
    (handle_response_interruption "token-1" None (run calls tracked)).1 in
  success result = (3 <? 3)
  /\ reported_count result = if 3 <? 3 then Some (3 + 1) else None.
Proof.
  refine (interruptions_succeed_up_to_threshold 0 "CA1" "token-1" None
            global_enhanced_conversation_manager
            [(1%Q, HandleResponseInterruption "token-1" None);
             (2%Q, HandleResponseInterruption "token-1" None);
             (3%Q, HandleResponseInterruption "token-1" None)] None
            eq_refl eq_refl _).
  repeat constructor; by eexists.
Defined.

End InterruptionBudget.

(** ** The conversation manager: what every stored session satisfies *)

Section SessionInvariants.
Import Py Regex ConversationManager Spec.

(** A property of conversations that holds of a new one and that the
    writes of the methods keep. *)
Variable P : conversation -> Prop.
Hypothesis P_new : forall initial_context now,
  P (new_conversation initial_context now).
Hypothesis P_history : forall h c, P c -> P (set_history h c).
Hypothesis P_state : forall s c, P c -> P (set_state s c).
Hypothesis P_follow_up_context : forall f c,
  P c -> P (set_follow_up_context f c).
Hypothesis P_interruption_management : forall i c,
  P c -> P (set_interruption_management i c).
Hypothesis P_context : forall c,
  P c ->
  P (Conversation (history c) (Some (default empty_state (state c)))
       (Some (default empty_follow_up (follow_up_context c)))
       (Some (default empty_interruption_management
                (interruption_management c)))).

Lemma all_sessions_insert (k : string) (c : conversation) (m : manager) :
  all_sessions P m -> P c ->
  all_sessions P (set_conversations (<[k := c]> (conversations m)) m).
Proof.
  intros Hall Hc sid c' Hc'. cbn [conversations set_conversations] in Hc'.
  destruct (decide (k = sid)) as [->|Hne].
  - rewrite lookup_insert_eq in Hc'. by injection Hc' as <-.
  - rewrite lookup_insert_ne in Hc' by done. by eapply Hall.
Qed.

Lemma all_sessions_delete_keys (keys : list string)
    (r : gmap string Response.t) (m : manager) :
  all_sessions P m ->
  all_sessions P
    (Manager (fold_right (fun key acc => delete key acc) (conversations m) keys)
             r (max_history_length m)).
Proof.
  intros Hall sid c Hc. cbn [conversations] in Hc.
  rewrite lookup_delete_keys in Hc.
  destruct (decide (sid ∈ keys)); [done|]. by eapply Hall.
Qed.

Lemma initialize_conversation_all (now : Q) (call_sid : string)
    (initial_context : option dict) (m : manager) :
  all_sessions P m ->
  all_sessions P (initialize_conversation now call_sid initial_context m).2.
Proof.
  intros Hall. unfold initialize_conversation.
  destruct (negb (truthy call_sid)); [done|].
  destruct (conversations m !! call_sid); [done|]. cbn [snd].
  by apply all_sessions_insert.
Qed.

Lemma ensure_conversation_all (now : Q) (call_sid : string) (m : manager) :
  all_sessions P m -> all_sessions P (ensure_conversation now call_sid m).2.
Proof.
  intros Hall. unfold ensure_conversation.
  destruct (conversations m !! call_sid); [done|].
  by apply initialize_conversation_all.
Qed.

Lemma update_conversation_intent_all (now : Q) (call_sid content : string)
    (m : manager) :
  all_sessions P m ->
  all_sessions P (_update_conversation_intent now call_sid content m).
Proof.
  intros Hall. unfold _update_conversation_intent.
  destruct (negb (truthy call_sid) || negb (truthy content)); [done|].
  destruct (conversations m !! call_sid) as [c|] eqn:Hc; [|done].
  apply all_sessions_insert; [done|]. apply P_state. by eapply Hall.
Qed.

Lemma step_all_sessions (now : Q) (o : op) (m : manager) :
  all_sessions P m -> all_sessions P (step now o m).
Proof.
  intros Hall.
  destruct o as [k ctx|k t q kw|k q|k tok md|tok reason
                |k role content md|k mm|age|k]; cbn [step].
  - by apply initialize_conversation_all.
  - unfold add_follow_up_context.
    destruct (negb (truthy k)); [done|].
    pose proof (ensure_conversation_all now k m Hall) as Hall1.
    destruct (ensure_conversation now k m) as [ok m1].
    cbn [snd] in Hall1. destruct (negb ok); [done|].
    destruct (conversations m1 !! k) as [c|] eqn:Hc; [|done]. simpl.
    destruct (follow_up_context c) as [f|]; [|done].
    cbn [snd mbind option_bind].
    apply all_sessions_insert; [done|].
    apply P_follow_up_context. by eapply Hall1.
  - done.
  - unfold track_active_response.
    destruct (negb (truthy k) || negb (truthy tok)); [done|].
    pose proof (ensure_conversation_all now k m Hall) as Hall1.
    destruct (ensure_conversation now k m) as [ok m1].
    cbn [snd] in Hall1. destruct (negb ok); [done|].
    cbn [conversations set_active_responses].
    destruct (conversations m1 !! k) as [c|] eqn:Hc; [|done]. cbn [snd].
    intros sid c' Hc'.
    cbn [conversations set_conversations set_active_responses] in Hc'.
    destruct (decide (k = sid)) as [->|Hne].
    + rewrite lookup_insert_eq in Hc'. injection Hc' as <-.
      apply P_interruption_management. by eapply Hall1.
    + rewrite lookup_insert_ne in Hc' by done. by eapply Hall1.
  - unfold handle_response_interruption.
    destruct (negb (truthy tok)); [done|].
    destruct (active_responses m !! tok) as [r|]; [|done].
    cbn [conversations set_active_responses mark_interrupted
         Response.call_sid Response.interruption_count].
    destruct (conversations m !! Response.call_sid r) as [c|] eqn:Hc; [|done].
    destruct (threshold_of (interruption_management_of c) <? _); cbn [snd];
      intros sid c' Hc';
      cbn [conversations set_conversations set_active_responses] in Hc';
      (destruct (decide (Response.call_sid r = sid)) as [Heq|Hne];
       [rewrite Heq, lookup_insert_eq in Hc'; injection Hc' as <-;
        apply P_interruption_management; by eapply Hall
       |rewrite lookup_insert_ne in Hc' by done; by eapply Hall]).
  - unfold add_conversation_message.
    destruct content as [content|]; [|done].
    destruct (negb (truthy k) || negb (truthy role)); [done|].
    pose proof (ensure_conversation_all now k m Hall) as Hall1.
    destruct (ensure_conversation now k m) as [ok m1].
    cbn [snd] in Hall1. destruct (negb ok); [done|].
    destruct (conversations m1 !! k) as [c|] eqn:Hc; [|done]. cbn [snd].
    match goal with
    | |- context [set_conversations (<[k := ?c2]> _) m1] =>
        assert (Hall2 : all_sessions P
                  (set_conversations (<[k := c2]> (conversations m1)) m1))
    end.
    { apply all_sessions_insert; [done|].
      apply P_state, P_history. by eapply Hall1. }
    destruct (String.eqb role "user"); [|done].
    by apply update_conversation_intent_all.
  - unfold get_conversation_context.
    destruct (negb (truthy k)); [done|].
    destruct (conversations m !! k) as [c|] eqn:Hc; [|done]. cbn [snd].
    apply all_sessions_insert; [done|]. apply P_context. by eapply Hall.
  - unfold cleanup_stale_conversations.
    destruct (age <=? 0); [done|]. cbn [snd].
    by apply all_sessions_delete_keys.
  - unfold cleanup_conversation.
    destruct (negb (truthy k)); [done|].
    destruct (conversations m !! k) as [c|] eqn:Hc; [|done]. cbn [snd].
    intros sid c' Hc'. cbn [conversations] in Hc'.
    destruct (decide (k = sid)) as [->|Hne].
    + by rewrite lookup_delete_eq in Hc'.
    + rewrite lookup_delete_ne in Hc' by done. by eapply Hall.
Qed.

Lemma run_all_sessions (calls : list (Q * op)) (m : manager) :
  all_sessions P m -> all_sessions P (run calls m).
Proof.
  revert m. induction calls as [|[now o] calls IH]; intros m Hall; [done|].
  cbn [run fold_left]. apply IH. by apply step_all_sessions.
Qed.

End SessionInvariants.

Section CompleteSessions.
Import Py Regex ConversationManager Spec.

Lemma run_complete (max_history_length : Z) (calls : list (Q * op)) :
  all_sessions complete (run calls (new_manager max_history_length)).
Proof.
  apply run_all_sessions; unfold complete.
  - intros ctx now. cbn. eauto.
  - by intros h [].
  - intros s [] (_ & ? & ?). cbn. eauto.
  - intros f [] (? & _ & ?). cbn. eauto.
  - intros i [] (? & ? & _). cbn. eauto.
  - intros c _. cbn. eauto.
  - intros sid c Hc. cbn in Hc. by rewrite lookup_empty in Hc.
Qed.

(** From its creation on, whatever is called, every session the manager
    stores has its three dictionaries.  So [get_conversation_context]
    only reads: it leaves the manager as it is; no follow-up assessment
    fails on a missing ['follow_up_context']; and
    [add_follow_up_context] succeeds for every non-empty [call_sid]. *)
Theorem stored_sessions_are_complete (max_history_length : Z)
    (calls : list (Q * op)) :
  let m := run calls (new_manager max_history_length) in
  all_sessions complete m
  /\ (forall call_sid max_messages,
        (get_conversation_context call_sid max_messages m).2 = m)
  /\ (forall call_sid new_query error,
        evaluate_follow_up_relevance call_sid new_query m
        = RelevanceError error -> error = "Empty call SID or query")
  /\ (forall now call_sid topics questions keywords,
        truthy call_sid = true ->
        (add_follow_up_context now call_sid topics questions keywords m).1
        = true).
Proof.
  intros m. pose proof (run_complete max_history_length calls) as Hall.
  fold m in Hall. split; [done|]. split; [|split].
  - intros sid mm. unfold get_conversation_context.
    destruct (negb (truthy sid)); [done|].
    destruct (conversations m !! sid) as [c|] eqn:Hc; [|done]. cbn [snd].
    destruct (Hall sid c Hc) as ([st Hst] & [f Hf] & [i Hi]).
    rewrite Hst, Hf, Hi. cbn [default from_option id].
    replace (Conversation (history c) (Some st) (Some f) (Some i)) with c
      by (destruct c; cbn in *; congruence).
    unfold set_conversations. rewrite insert_id by done. by destruct m.
  - intros sid q error. unfold evaluate_follow_up_relevance.
    destruct (negb (truthy sid) || negb (truthy q)); [congruence|].
    destruct (conversations m !! sid) as [c|] eqn:Hc; [|done].
    destruct (Hall sid c Hc) as (_ & [f Hf] & _). rewrite Hf.
    by repeat match goal with |- context [let '(_, _) := ?x in _] =>
                destruct x end.
  - intros now sid t q k Hsid. unfold add_follow_up_context.
    rewrite Hsid. cbn [negb]. cbv iota.
    destruct (ensure_conversation_spec now sid m Hsid)
      as (m1 & c & He & Hc & Hcdef & _).
    rewrite He. cbn [negb]. cbv iota. rewrite Hc. simpl.
    assert (Hf : is_Some (follow_up_context c)).
    { rewrite Hcdef. destruct (conversations m !! sid) as [c0|] eqn:Hc0.
      - by destruct (Hall sid c0 Hc0) as (_ & ? & _).
      - cbn. eauto. }
    destruct Hf as [f ->]. done.
Qed.

End CompleteSessions.

(** ** The conversation manager: what the cleanups take along *)

Section CleanupCascade.
Import Py Regex ConversationManager Spec.

(** [cleanup_conversation] removes a stored session together with the
    responses tracked for it, and nothing else: the other sessions, and
    the responses of other sessions, stay as they are. *)
Theorem cleanup_conversation_takes_its_responses (call_sid : string)
    (m : manager) (c : conversation) :
  truthy call_sid = true ->
  conversations m !! call_sid = Some c ->
  let '(ok, m') := cleanup_conversation call_sid m in
  ok = true
  /\ conversations m' !! call_sid = None
  /\ (forall other, other <> call_sid ->
        conversations m' !! other = conversations m !! other)
  /\ (forall response_token r,
        active_responses m !! response_token = Some r ->
        active_responses m' !! response_token
        = if decide (Response.call_sid r = call_sid) then None else Some r)
  /\ (forall response_token r,
        active_responses m' !! response_token = Some r ->
        active_responses m !! response_token = Some r).
Proof.
  intros Hsid Hc.
  destruct (cleanup_conversation_stored call_sid m c Hsid Hc)
    as (m' & -> & Hconv & _ & Hresp).
  split; [done|]. rewrite Hconv. split; [apply lookup_delete_eq|].
  split; [intros other Hne; by apply lookup_delete_ne|]. split.
  - intros tok r Hr. rewrite Hresp, Hr. simpl.
    destruct (decide (Response.call_sid r = call_sid)) as [->|Hne].
    + by rewrite String.eqb_refl.
    + by apply String.eqb_neq in Hne as ->.
  - intros tok r. rewrite Hresp.
    destruct (active_responses m !! tok) as [r0|]; [|done]. simpl.
    by destruct (String.eqb (Response.call_sid r0) call_sid).
Qed.

(** Two calls with a response each: cleaning up the first leaves the
    second call and its response. *)
Lemma cleanup_conversation_takes_its_responses_witness :
  let m :=
    run [(1%Q, TrackActiveResponse "CA1" "token-1" None);
         (2%Q, TrackActiveResponse "CA2" "token-2" None)]
        global_enhanced_conversation_manager in
  let '(ok, m') := cleanup_conversation "CA1" m in
  ok = true
  /\ conversations m' !! "CA1" = None
  /\ (forall other, other <> "CA1" ->
        conversations m' !! other = conversations m !! other)
  /\ (forall response_token r,
        active_responses m !! response_token = Some r ->
        active_responses m' !! response_token
        = if decide (Response.call_sid r = "CA1") then None else Some r)
  /\ (forall response_token r,
        active_responses m' !! response_token = Some r ->
        active_responses m !! response_token = Some r).
Proof.
  intros m.
  refine (cleanup_conversation_takes_its_responses "CA1" m
            (Conversation
               [] (Some (ConvState None None (Some ∅) (Some 1%Q) (Some 0)
                                   (Some "initial")))
               (Some (FollowUp (Some []) (Some []) (Some [])))
               (Some (InterruptionMgmt (Some (Some "token-1")) (Some true)
                                       (Some 3))))
            eq_refl _).
  vm_compute. reflexivity.
Defined.

(** The sessions that the sweep keeps are the ones that are not stale. *)
Lemma cleanup_stale_conversations_filter (now : Q) (max_age_seconds : Z)
    (m : manager) :
  0 < max_age_seconds ->
  conversations (cleanup_stale_conversations now max_age_seconds m).2
  = filter (fun kv => ~ conversation_is_stale now max_age_seconds kv.2 = true)
           (conversations m).
Proof.
  intros HT. apply map_eq. intros sid.
  destruct (conversations m !! sid) as [c|] eqn:Hc.
  - rewrite (cleanup_stale_conversations_lookup now max_age_seconds m sid c
               HT Hc).
    destruct (conversation_is_stale now max_age_seconds c) eqn:Es.
    + symmetry. apply map_lookup_filter_None. right. intros c' Hc'.
      cbn [snd]. assert (c' = c) as -> by congruence. by rewrite Es; auto.
    + symmetry. apply map_lookup_filter_Some. split; [done|].
      cbn [snd]. by rewrite Es.
  - unfold cleanup_stale_conversations.
    destruct (max_age_seconds <=? 0); cbn [snd conversations].
    + rewrite Hc. symmetry. apply map_lookup_filter_None. by left.
    + rewrite lookup_delete_keys, Hc. destruct (decide _).
      * symmetry. apply map_lookup_filter_None. by left.
      * symmetry. apply map_lookup_filter_None. by left.
Qed.

(** The number that [cleanup_stale_conversations] returns is the number
    of sessions it removed. *)
Theorem sweep_counts_the_sessions_it_removes (now : Q) (max_age_seconds : Z)
    (m : manager) :
  let '(count, m') := cleanup_stale_conversations now max_age_seconds m in
  Z.of_nat (size (conversations m))
  = count + Z.of_nat (size (conversations m'))
  /\ (forall call_sid c,
        conversations m' !! call_sid = Some c ->
        conversations m !! call_sid = Some c).
Proof.
  destruct (decide (0 < max_age_seconds)) as [HT|HT].
  - pose proof (cleanup_stale_conversations_filter now max_age_seconds m HT)
      as Hf.
    unfold cleanup_stale_conversations in *.
    destruct (max_age_seconds <=? 0) eqn:E; [lia|].
    cbn [snd conversations] in *. rewrite Hf. split.
    + rewrite length_fmap, length_map_to_list.
      rewrite <- (map_filter_union_complement
                    (fun kv => conversation_is_stale now max_age_seconds kv.2
                               = true) (conversations m)) at 1.
      rewrite map_size_disj_union by apply map_disjoint_filter_complement.
      lia.
    + intros sid c Hc. by apply map_lookup_filter_Some in Hc as [? _].
  - unfold cleanup_stale_conversations.
    destruct (max_age_seconds <=? 0) eqn:E; [|lia]. split; [lia|done].
Qed.

End CleanupCascade.

(** ** Words that survive the normalization of a text *)

Section Normalization.
Import Py Regex Spec.

Lemma lstrip_app_visible (pre : string) (c : ascii) (rest : string) :
  isspace c = false ->
  lstrip (pre +:+ String c rest) = lstrip pre +:+ String c rest.
Proof.
  intros Hc. induction pre as [|a pre IH].
  - rewrite str_app_empty. cbn [lstrip]. by rewrite Hc, str_app_empty.
  - rewrite str_app_cons. cbn [lstrip].
    destruct (isspace a); [exact IH|]. by rewrite str_app_cons.
Qed.

Lemma rstrip_app_nonempty (pre x : string) :
  rstrip x <> EmptyString -> rstrip (pre +:+ x) = pre +:+ rstrip x.
Proof.
  intros Hx. induction pre as [|a pre IH].
  - by rewrite !str_app_empty.
  - rewrite !str_app_cons. cbn [rstrip]. rewrite IH.
    destruct (pre +:+ rstrip x) eqn:E; [|done].
    apply str_app_eq_empty in E as [_ E]. by destruct Hx.
Qed.

Lemma rstrip_word_app (c : ascii) (w post : string) :
  isspace (last_char c w) = false ->
  rstrip (String c w +:+ post) = String c w +:+ rstrip post.
Proof.
  revert c. induction w as [|c' w IH]; intros c Hc.
  - rewrite !str_app_cons, !str_app_empty. cbn [rstrip]. cbn in Hc.
    rewrite Hc. by destruct (rstrip post).
  - rewrite str_app_cons. cbn [rstrip]. rewrite (IH c' Hc).
    by rewrite !str_app_cons.
Qed.

(** A word with visible ends that occurs in a text occurs in the
    stripped text. *)
Lemma occurs_in_strip (w s : string) :
  visible_ends w = true -> occurs_in w s -> occurs_in w (strip s).
Proof.
  destruct w as [|c w]; [discriminate|]. cbn [visible_ends].
  intros [Hfirst Hlast]%andb_true_iff (pre & post & ->).
  apply negb_true_iff in Hfirst, Hlast. unfold strip.
  rewrite rstrip_app_nonempty; rewrite rstrip_word_app by done.
  - rewrite str_app_cons, lstrip_app_visible by done.
    exists (lstrip pre), (rstrip post). by rewrite str_app_cons.
  - by rewrite str_app_cons.
Qed.

Lemma contains_strip (w s : string) :
  visible_ends w = true -> contains w s = true -> contains w (strip s) = true.
Proof.
  intros Hw Hs. apply contains_spec, occurs_in_strip; [done|].
  by apply contains_spec.
Qed.

Lemma lower_app (s1 s2 : string) : lower (s1 +:+ s2) = lower s1 +:+ lower s2.
Proof.
  induction s1 as [|c s1 IH]; [by rewrite !str_app_empty|].
  rewrite str_app_cons. cbn [lower]. by rewrite IH, str_app_cons.
Qed.

Lemma contains_lower (w s : string) :
  contains w s = true -> contains (lower w) (lower s) = true.
Proof.
  rewrite !contains_spec. intros (pre & post & ->).
  exists (lower pre), (lower post). by rewrite !lower_app.
Qed.

End Normalization.

(** ** The call handler: the ways through a speech input *)

Section SpeechInput.
Import Py Regex Chunker CallHandler Spec.

(** The detector looks for its phrases as substrings, not as words: a
    text with the letters "no" next to each other anywhere, in any case -
    in "know", "not", "another" or "economy" - is taken for the end of
    the call. *)
Theorem speech_containing_no_ends_the_call (speech_text : string) :
  contains "no" (lower speech_text) = true ->
  is_end_of_call speech_text = true.
Proof.
  intros Hno. unfold is_end_of_call.
  assert (Hm : phrase_matches (strip (lower speech_text)) "no" = true).
  { unfold phrase_matches. rewrite (contains_strip "no") by done.
    apply orb_true_r. }
  unfold end_call_phrases. cbn [existsb]. by rewrite Hm.
Qed.

(** A question about mortgages. *)
Lemma speech_containing_no_ends_the_call_witness :
  is_end_of_call "What do you know about mortgages?" = true.
Proof.
  apply (speech_containing_no_ends_the_call
           "What do you know about mortgages?").
  vm_compute. reflexivity.
Defined.

(** *** A response always says something *)

Lemma truthy_join (sep x : string) (g : list string) :
  truthy x = true -> truthy (join sep (x :: g)) = true.
Proof.
  destruct x as [|c x]; [discriminate|]. intros _.
  destruct g as [|y g]; [reflexivity|].
  change (join sep (String c x :: y :: g))
    with (String c x +:+ sep +:+ join sep (y :: g)).
  by rewrite str_app_cons.
Qed.

Lemma truthy_visible (s : string) : blank s = false -> truthy s = true.
Proof. by destruct s. Qed.

(** The chunks of a text with a visible character: there is a first
    one, and no chunk is empty. *)
Lemma chunk_response_first (text : string) (max_chunk_length : Z) :
  blank text = false ->
  exists first rest,
    _chunk_response text max_chunk_length = first :: rest
    /\ truthy first = true.
Proof.
  intros Hv.
  pose proof (chunk_response_visible text max_chunk_length Hv) as Hall.
  destruct (_chunk_response text max_chunk_length) as [|first rest] eqn:E.
  - exfalso. revert E. unfold _chunk_response.
    destruct (len text <=? max_chunk_length); [done|].
    destruct (chunk_loop_groups max_chunk_length (split_sentences text) [] []
                (List.Forall_nil _)) as (groups & g & Hf & Hc & Hn).
    cbn in Hf. rewrite Hf. cbn in Hc.
    assert (Hhd : exists hd tl, split_sentences text = hd :: tl
                                /\ truthy hd = true).
    { unfold split_sentences.
      destruct (proj2 (split_from_pieces text) false)
        as (hd & tl & -> & _ & Hhd).
      exists hd, tl. split; [done|]. apply truthy_visible.
      destruct (blank hd) eqn:Eb; [|done]. rewrite Hhd in Hv; done. }
    destruct Hhd as (hd & tl & Hs & Hhd). rewrite Hs in Hc.
    destruct groups as [|g1 groups].
    + cbn in Hc. subst g. rewrite (truthy_join " " hd tl Hhd).
      by destruct (strip <$> _).
    + inversion_clear Hn as [|? ? Hg1 _].
      destruct g1 as [|x g1]; [done|]. cbn in Hc. injection Hc as -> _.
      cbn [fmap list_fmap List.filter].
      rewrite (truthy_join " " hd g1 Hhd). cbn [fmap list_fmap].
      by destruct (truthy (join " " g)).
  - exists first, rest. split; [done|]. by inversion Hall.
Qed.

Lemma blank_spoken (ai_response : answer) :
  blank (limit_answer (valid_answer ai_response)) = false.
Proof.
  assert (Hvalid : blank (valid_answer ai_response) = false).
  { destruct ai_response as [s|]; [|reflexivity]. cbn [valid_answer].
    destruct (truthy s && negb (len (strip s) =? 0)) eqn:E; [|reflexivity].
    apply andb_true_iff in E as [_ E]. apply negb_true_iff in E.
    destruct (blank s) eqn:Eb; [|done].
    apply strip_empty in Eb. by rewrite Eb in E. }
  unfold limit_answer.
  destruct (len (valid_answer ai_response) >? 1000); [|done].
  rewrite blank_app. apply andb_false_r.
Qed.

(** The record of the call after the first lines of a handler: stamped,
    the other records untouched. *)
Lemma stamped_store (now : Q) (call_sid : option string) (fresh : call_data)
    (active_calls : calls_store) :
  last_activity fresh = Some now ->
  let calls1 :=
    match active_calls !! call_sid with
    | None => <[call_sid := fresh]> active_calls
    | Some d => <[call_sid := set_last_activity now d]> active_calls
    end in
  (exists d, calls1 !! call_sid = Some d /\ last_activity d = Some now)
  /\ (forall other, other <> call_sid ->
        calls1 !! other = active_calls !! other).
Proof.
  intros Hfresh calls1. subst calls1.
  destruct (active_calls !! call_sid) as [d|]; split;
    try (intros other Hne; by rewrite lookup_insert_ne);
    eexists; rewrite lookup_insert_eq; by split.
Qed.

Lemma append_message_stamped (now : Q) (call_sid : option string)
    (msg : message) (active_calls calls calls' : calls_store) :
  append_message call_sid msg calls = Some calls' ->
  (exists d, calls !! call_sid = Some d /\ last_activity d = Some now)
  /\ (forall other, other <> call_sid ->
        calls !! other = active_calls !! other) ->
  (exists d, calls' !! call_sid = Some d /\ last_activity d = Some now)
  /\ (forall other, other <> call_sid ->
        calls' !! other = active_calls !! other).
Proof.
  unfold append_message. intros Happ [(d & Hd & Hnow) Hother].
  rewrite Hd in Happ. simpl in Happ.
  destruct (conversation_history d) as [h|]; [|done]. simpl in Happ.
  injection Happ as <-. split.
  - eexists. rewrite lookup_insert_eq. by split.
  - intros other Hne. rewrite lookup_insert_ne by done. by apply Hother.
Qed.

(** Whatever the form holds, whatever the store holds and whatever
    [_process_user_query] answers, [handle_speech_input] returns a
    response that begins by saying a text that is not empty, and leaves
    the call in the store with [last_activity] set to the time of the
    request; the records of the other calls are not touched. *)
Theorem handle_speech_input_always_speaks
    (_process_user_query : string -> list message -> answer)
    (now : Q) (server_url : option string) (form : form_data)
    (active_calls : calls_store) :
  let '(calls', response) :=
    handle_speech_input _process_user_query now server_url form
                        active_calls in
  (exists text rest, response = Say text :: rest /\ truthy text = true)
  /\ (exists d, calls' !! CallSid form = Some d /\ last_activity d = Some now)
  /\ (forall other, other <> CallSid form ->
        calls' !! other = active_calls !! other).
Proof.
  unfold handle_speech_input.
  pose proof (stamped_store now (CallSid form)
                (CallData None (Some "in-progress") "in-progress" (Some [])
                          (Some now)) active_calls eq_refl) as Hgood.
  cbv zeta in Hgood.
  set (calls1 := match active_calls !! CallSid form with
                 | None => _ | Some d => _ end) in *.
  assert (Hreprompt : exists text rest,
            reprompt_response server_url = Say text :: rest
            /\ truthy text = true) by (by eexists _, _).
  assert (Herror : exists text rest,
            error_response server_url = Say text :: rest
            /\ truthy text = true) by (by eexists _, _).
  destruct (SpeechResult form) as [speech_result|]; [|done].
  destruct (truthy speech_result); cbn [negb]; [|done].
  destruct (float_confidence (Confidence form)) as [confidence|]; [|done].
  destruct (Qltb confidence 0.3); [done|].
  destruct (is_end_of_call speech_result).
  - destruct (append_message (CallSid form) _ calls1) as [calls2|] eqn:E2;
      [|done]. cbn [mbind option_bind].
    pose proof (append_message_stamped now _ _ active_calls _ _ E2 Hgood)
      as Hgood2.
    destruct (append_message (CallSid form) _ calls2) as [calls3|] eqn:E3.
    + split; [by eexists _, _|].
      exact (append_message_stamped now _ _ active_calls _ _ E3 Hgood2).
    + done.
  - destruct (append_message (CallSid form) _ calls1) as [calls2|] eqn:E2;
      [|done].
    pose proof (append_message_stamped now _ _ active_calls _ _ E2 Hgood)
      as Hgood2.
    destruct (append_message (CallSid form) _ calls2) as [calls3|] eqn:E3;
      [|done].
    destruct (append_message_stamped now _ _ active_calls _ _ E3 Hgood2)
      as [(d & Hd & Hnow) Hother].
    split; [|split].
    + destruct (chunk_response_first _ default_max_chunk_length
                  (blank_spoken
                     (_process_user_query speech_result
                        (default [] (calls2 !! CallSid form
                                       ≫= conversation_history)))))
        as (first & rest & -> & Hfirst).
      by eexists _, _.
    + eexists. rewrite lookup_alter_eq, Hd. by split.
    + intros other Hne. rewrite lookup_alter_ne by done. by apply Hother.
Qed.

(** *** Speech that is not answered *)




(** *** The end of the call *)

(** When the caller closes the conversation, the handler says goodbye
    and hangs up without asking [_process_user_query]; the caller's words
    and the goodbye are appended to the history, and the record of the
    call stays in the store: it is the status update, or the sweep, that
    removes it. *)
Theorem handle_speech_input_end_of_call
    (_process_user_query : string -> list message -> answer)
    (now : Q) (server_url : option string) (form : form_data)
    (active_calls : calls_store) (speech_result : string) (confidence : Q) :
  SpeechResult form = Some speech_result ->
  float_confidence (Confidence form) = Some confidence ->
  (0.3 <= confidence)%Q ->
  is_end_of_call speech_result = true ->
  (forall d, active_calls !! CallSid form = Some d ->
             is_Some (conversation_history d)) ->
  let '(calls', response) :=
    handle_speech_input _process_user_query now server_url form
                        active_calls in
  response = [Say end_message; Hangup]
  /\ get_call_history (CallSid form) calls'
     = (get_call_history (CallSid form) active_calls
        ++ [Message "user" (Text speech_result);
            Message "assistant" (Text end_message)])%list.
Proof.
  intros Hspeech Hconf Hq Hend Hhist. unfold handle_speech_input.
  rewrite Hspeech, Hconf.
  assert (Htruthy : truthy speech_result = true).
  { destruct speech_result; [|done]. vm_compute in Hend. discriminate. }
  rewrite Htruthy. cbn [negb].
  apply Qltb_ge in Hq. rewrite Hq, Hend.
  assert (Hstore : exists d1 h,
    match active_calls !! CallSid form with
    | Some d => <[CallSid form := set_last_activity now d]> active_calls
    | None => <[CallSid form := CallData None (Some "in-progress")
                                   "in-progress" (Some []) (Some now)]>
                active_calls
    end = <[CallSid form := d1]> active_calls
    /\ conversation_history d1 = Some h
    /\ get_call_history (CallSid form) active_calls = h).
  { unfold get_call_history.
    destruct (active_calls !! CallSid form) as [d|] eqn:Hd.
    - destruct (Hhist d eq_refl) as [h Hh].
      exists (set_last_activity now d), h. by rewrite Hh.
    - by eexists _, []. }
  destruct Hstore as (d1 & h & -> & Hh & ->).
  rewrite (append_message_insert _ _ d1 h) by exact Hh.
  cbn [mbind option_bind].
  rewrite (append_message_insert _ _ _ _) by reflexivity.
  split; [reflexivity|]. unfold get_call_history.
  rewrite lookup_insert_eq. cbn. by rewrite <- app_assoc.
Qed.

(** A question with the word "know" ends a call that was in progress. *)
Lemma handle_speech_input_end_of_call_witness :
  let form :=
    FormData (Some "CA1") None (Some "What do you know about loans?")
             (ConfidenceNumber 0.9) in
  let calls : calls_store :=
    {[ Some "CA1" := CallData None (Some "in-progress") "in-progress"
                              (Some []) (Some 5%Q) ]} in
  let '(calls', response) :=
    handle_speech_input (fun _ _ => NotText) 10 None form calls in
  response = [Say end_message; Hangup]
  /\ get_call_history (CallSid form) calls'
     = (get_call_history (CallSid form) calls
        ++ [Message "user" (Text "What do you know about loans?");
            Message "assistant" (Text end_message)])%list.
Proof.
  intros form calls.
  refine (handle_speech_input_end_of_call (fun _ _ => NotText) 10 None form
            calls "What do you know about loans?" 0.9 eq_refl eq_refl _ _ _).
  - vm_compute. discriminate.
  - vm_compute. reflexivity.
  - intros d Hd. cbn [CallSid form] in Hd. unfold calls in Hd.
    rewrite lookup_singleton_eq in Hd. injection Hd as <-. by eexists.
Defined.

End SpeechInput.

(** ** The call handler: the sweep of stale calls *)

Section StaleCalls.
Import Py Regex Chunker CallHandler Spec.

(** What the sweep does to each record: a stale one goes, the others
    stay, stamped when they had no timestamp. *)
Lemma cleanup_stale_calls_record (current_time : Q)
    (active_calls : calls_store) (call_sid : option string) :
  (_cleanup_stale_calls current_time active_calls).2 !! call_sid
  = d ← active_calls !! call_sid;
    if is_stale current_time d then None else Some (stamp current_time d).
Proof.
  unfold _cleanup_stale_calls. cbn [snd]. rewrite lookup_delete_keys.
  destruct (decide (call_sid ∈ _)) as [Hin|Hnin].
  - apply elem_of_filter_keys in Hin as (d & -> & Hst). cbn [snd] in Hst.
    cbn [mbind option_bind]. by rewrite Hst.
  - rewrite lookup_fmap.
    destruct (active_calls !! call_sid) as [d|] eqn:Hd; [|done].
    cbn [mbind option_bind fmap option_fmap option_map].
    destruct (is_stale current_time d) eqn:Hst; [|done].
    destruct Hnin. apply elem_of_filter_keys. by exists d.
Qed.

Lemma stamp_not_stale (current_time : Q) (d : call_data) :
  is_stale current_time d = false ->
  is_Some (last_activity (stamp current_time d))
  /\ is_stale current_time (stamp current_time d) = false
  /\ stamp current_time (stamp current_time d) = stamp current_time d.
Proof.
  unfold is_stale, stamp. destruct (last_activity d) as [t|] eqn:Ht.
  - intros Hst. rewrite Ht. by repeat split.
  - intros _. cbn [last_activity set_last_activity]. repeat split; [done|].
    apply Qltb_ge. lra.
Qed.

(** After a sweep every record of the store has a timestamp: a record
    that had none is stamped with the time of the sweep, not removed, so
    it lives for 30 more minutes at least.  The list of the removed calls
    holds exactly the keys that went; and a second sweep at the same
    time removes nothing and changes nothing. *)
Theorem sweep_of_calls_stamps_and_settles (current_time : Q)
    (active_calls : calls_store) :
  let '(calls_to_remove, swept) :=
    _cleanup_stale_calls current_time active_calls in
  (forall call_sid d,
      swept !! call_sid = Some d -> is_Some (last_activity d))
  /\ (forall call_sid d,
        active_calls !! call_sid = Some d -> last_activity d = None ->
        swept !! call_sid = Some (set_last_activity current_time d))
  /\ (forall call_sid,
        call_sid ∈ calls_to_remove
        <-> is_Some (active_calls !! call_sid) /\ swept !! call_sid = None)
  /\ _cleanup_stale_calls current_time swept = ([], swept).
Proof.
  pose proof (cleanup_stale_calls_record current_time active_calls) as Hrec.
  destruct (_cleanup_stale_calls current_time active_calls)
    as [calls_to_remove swept] eqn:E. cbn [snd] in Hrec.
  assert (Hremoved : calls_to_remove
            = (map_to_list (filter (fun kv => is_stale current_time kv.2 = true)
                                   active_calls)).*1).
  { unfold _cleanup_stale_calls in E. by injection E as <- _. }
  split; [|split; [|split]].
  - intros sid d. rewrite Hrec.
    destruct (active_calls !! sid) as [d0|]; [|done].
    cbn [mbind option_bind].
    destruct (is_stale current_time d0) eqn:Hst; [done|].
    intros [= <-]. by apply stamp_not_stale.
  - intros sid d Hd Hnone. rewrite Hrec, Hd. cbn [mbind option_bind].
    unfold is_stale, stamp. by rewrite Hnone.
  - intros sid. rewrite Hremoved, elem_of_filter_keys, Hrec. cbn [snd].
    split.
    + intros (d & -> & Hst). cbn [mbind option_bind]. rewrite Hst.
      by split.
    + intros [[d Hd] Hnone]. rewrite Hd in Hnone.
      cbn [mbind option_bind] in Hnone.
      exists d. split; [done|]. by destruct (is_stale current_time d).
  - assert (Hfresh : forall sid d,
              swept !! sid = Some d ->
              is_stale current_time d = false /\ stamp current_time d = d).
    { intros sid d. rewrite Hrec.
      destruct (active_calls !! sid) as [d0|]; [|done]. simpl.
      destruct (is_stale current_time d0) eqn:Hst; [done|].
      intros [= <-]. by apply stamp_not_stale. }
    unfold _cleanup_stale_calls.
    assert (filter (fun kv => is_stale current_time kv.2 = true) swept = ∅)
      as ->.
    { apply map_empty_filter. intros sid d Hd. cbn [snd].
      destruct (Hfresh sid d Hd) as [-> _]. done. }
    rewrite map_to_list_empty. cbn [fmap list_fmap fold_right]. f_equal.
    apply map_eq. intros sid. rewrite lookup_fmap.
    destruct (swept !! sid) as [d|] eqn:Hd; [|done]. simpl.
    by destruct (Hfresh sid d Hd) as [_ ->].
Qed.

(** The history of a call that the sweep removed is never written to
    storage: the sweep does not store it, and a status update that comes
    later - "completed" included - finds no record, writes nothing and
    leaves the store as the sweep left it. *)
Theorem swept_call_history_is_never_stored
    (storage : Type)
    (write_json : string -> call_data -> storage -> storage * bool)
    (now later : Q) (form : form_data) (active_calls : calls_store)
    (fs : storage) (d : call_data) (t : Q) :
  active_calls !! CallSid form = Some d ->
  last_activity d = Some t ->
  (1800 < now - t)%Q ->
  let swept := (_cleanup_stale_calls now active_calls).2 in
  handle_call_status storage write_json later form swept fs
  = (swept, fs, StatusResult true None).
Proof.
  intros Hd Ht Hold swept. unfold handle_call_status.
  assert (swept !! CallSid form = None) as ->; [|done].
  subst swept. rewrite cleanup_stale_calls_record, Hd.
  cbn [mbind option_bind]. unfold is_stale. rewrite Ht.
  by apply Qltb_lt in Hold as ->.
Qed.

(** A call with two messages, silent for 1801 seconds, then swept and
    completed; the storage is the list of the records written. *)
Lemma swept_call_history_is_never_stored_witness :
  let d :=
    CallData None (Some "in-progress") "in-progress"
             (Some [Message "assistant" (Text greeting_message);
                    Message "user" (Text "What about FHA loans?")])
             (Some 100%Q) in
  let calls : calls_store := {[ Some "CA1" := d ]} in
  let write_json :=
    fun (_ : string) (data : call_data) (fs : list call_data) =>
      (data :: fs, true) in
  let form := FormData (Some "CA1") (Some "completed") None ConfidenceAbsent in
  let swept := (_cleanup_stale_calls 1901 calls).2 in
  handle_call_status (list call_data) write_json 2000 form swept []
  = (swept, [], StatusResult true None).
Proof.
  intros d calls write_json form.
  refine (swept_call_history_is_never_stored (list call_data) write_json
            1901 2000 form calls [] d 100 _ eq_refl _).
  - unfold calls. cbn [CallSid form]. by rewrite lookup_singleton_eq.
  - reflexivity.
Defined.

End StaleCalls.

(** ** The call handler: from the start of a call *)

Section IncomingCalls.
Import Py Regex Chunker CallHandler Spec.

Lemma greeting_not_in_prompt (server_url : option string) (greeting : bool) :
  ~ In (Say greeting_message) (incoming_prompt server_url greeting).
Proof.
  unfold incoming_prompt. cbn [In].
  intros [H|[H|[H|[]]]]; discriminate.
Qed.

Lemma greeting_not_in_error :
  ~ In (Say greeting_message) incoming_error_response.
Proof.
  unfold incoming_error_response. cbn [In].
  intros [H|[H|[]]]; discriminate.
Qed.

(** The effect of [handle_incoming_call] on a call of the store. *)
Lemma handle_incoming_call_stored (now : Q) (server_url : option string)
    (form : form_data) (active_calls : calls_store) (d : call_data) :
  active_calls !! CallSid form = Some d ->
  handle_incoming_call now server_url form active_calls
  = if String.eqb (conversation_state d) "greeting" then
      match conversation_history d with
      | None =>
          (<[CallSid form := set_last_activity now d]> active_calls,
           incoming_error_response)
      | Some [] =>
          (<[CallSid form :=
               set_conversation_history
                 [Message "assistant" (Text greeting_message)]
                 (set_last_activity now d)]> active_calls,
           Say greeting_message :: incoming_prompt server_url true)
      | Some (_ :: _) =>
          (<[CallSid form := set_last_activity now d]> active_calls,
           incoming_prompt server_url true)
      end
    else (<[CallSid form := set_last_activity now d]> active_calls,
          incoming_prompt server_url false).
Proof.
  intros Hd. unfold handle_incoming_call. rewrite Hd, lookup_insert_eq.
  cbn [conversation_state conversation_history set_last_activity].
  destruct (String.eqb (conversation_state d) "greeting"); [|done].
  destruct (conversation_history d) as [[|msg h]|] eqn:Hh; [|done|done].
  by rewrite (append_message_insert _ _ _ []) by done.
Qed.

(** The greeting is spoken once.  For a call that the store does not
    know, [handle_incoming_call] says the greeting and records it as the
    first message; and whatever the store holds, a second request for
    the same call does not say the greeting and leaves the history as the
    first request left it. *)
Theorem incoming_call_is_greeted_once (now1 now2 : Q)
    (server_url : option string) (form : form_data)
    (active_calls : calls_store) :
  let '(calls1, response1) :=
    handle_incoming_call now1 server_url form active_calls in
  let '(calls2, response2) :=
    handle_incoming_call now2 server_url form calls1 in
  (active_calls !! CallSid form = None ->
     response1 = Say greeting_message :: incoming_prompt server_url true
     /\ get_call_history (CallSid form) calls1
        = [Message "assistant" (Text greeting_message)])
  /\ ~ In (Say greeting_message) response2
  /\ get_call_history (CallSid form) calls2
     = get_call_history (CallSid form) calls1.
Proof.
  assert (Hsecond : forall d calls,
    (String.eqb (conversation_state d) "greeting" = true ->
       conversation_history d <> Some []) ->
    let '(calls2, response2) :=
      handle_incoming_call now2 server_url form
                           (<[CallSid form := d]> calls) in
    ~ In (Say greeting_message) response2
    /\ get_call_history (CallSid form) calls2
       = get_call_history (CallSid form) (<[CallSid form := d]> calls)).
  { intros d calls Hd.
    rewrite (handle_incoming_call_stored now2 server_url form _ d)
      by apply lookup_insert_eq.
    unfold get_call_history.
    destruct (String.eqb (conversation_state d) "greeting").
    - destruct (conversation_history d) as [[|msg h]|] eqn:Hh.
      + by destruct Hd.
      + split; [apply greeting_not_in_prompt|].
        rewrite insert_insert_eq, !lookup_insert_eq. cbn. by rewrite Hh.
      + split; [apply greeting_not_in_error|].
        rewrite insert_insert_eq, !lookup_insert_eq. cbn. by rewrite Hh.
    - split; [apply greeting_not_in_prompt|].
      by rewrite insert_insert_eq, !lookup_insert_eq. }
  destruct (active_calls !! CallSid form) as [d|] eqn:Hd.
  - rewrite (handle_incoming_call_stored now1 server_url form _ d Hd).
    destruct (String.eqb (conversation_state d) "greeting") eqn:Hg.
    + destruct (conversation_history d) as [[|msg h]|] eqn:Hh.
      * pose proof (Hsecond
          (set_conversation_history
             [Message "assistant" (Text greeting_message)]
             (set_last_activity now1 d)) active_calls) as H2.
        destruct (handle_incoming_call now2 server_url form _)
          as [calls2 response2].
        split; [done|]. apply H2. done.
      * pose proof (Hsecond (set_last_activity now1 d) active_calls) as H2.
        destruct (handle_incoming_call now2 server_url form _)
          as [calls2 response2].
        split; [done|]. apply H2. cbn. by rewrite Hh.
      * pose proof (Hsecond (set_last_activity now1 d) active_calls) as H2.
        destruct (handle_incoming_call now2 server_url form _)
          as [calls2 response2].
        split; [done|]. apply H2. cbn. by rewrite Hh.
    + pose proof (Hsecond (set_last_activity now1 d) active_calls) as H2.
      destruct (handle_incoming_call now2 server_url form _)
        as [calls2 response2].
      split; [done|]. apply H2. cbn. by rewrite Hg.
  - unfold handle_incoming_call at 1. rewrite Hd, lookup_insert_eq.
    cbn [conversation_state conversation_history String.eqb Ascii.eqb
         Bool.eqb].
    rewrite (append_message_insert _ _ _ []) by done.
    pose proof (Hsecond
      (set_conversation_history
         [Message "assistant" (Text greeting_message)]
         (CallData None (Some "in-progress") "greeting" (Some [])
                   (Some now1))) active_calls) as H2.
    destruct (handle_incoming_call now2 server_url form _)
      as [calls2 response2].
    split.
    + intros _. split; [done|]. unfold get_call_history.
      by rewrite lookup_insert_eq.
    + apply H2. done.
Qed.

(** [initiate_call] changes the store only when the call was placed: a
    missing client, a missing or empty [SERVER_URL] and an exception of
    [calls.create] leave it as it is.  For a call that was placed, the
    webhooks handed to [calls.create] are made from [SERVER_URL], the
    record stored under its SID waits for the greeting, and the first
    [handle_incoming_call] for that SID says the greeting. *)
Theorem initiate_call_registers_the_call
    (client : option (call_request -> string + string))
    (twilio_phone_number : option string) (now : Q)
    (server_url : option string) (to_number : string)
    (active_calls : calls_store) :
  let '(calls', result) :=
    initiate_call client twilio_phone_number now server_url to_number
                  active_calls in
  match result with
  | InitiateFailed _ => calls' = active_calls
  | Initiated _ sid =>
      (exists calls_create base_url,
          client = Some calls_create
          /\ server_url = Some base_url
          /\ truthy base_url = true
          /\ calls_create
               (CallRequest to_number twilio_phone_number
                  (base_url +:+ "/webhook/voice")
                  (base_url +:+ "/webhook/status")
                  ["initiated"; "ringing"; "answered"; "completed"] true
                  (base_url +:+ "/webhook/recording")) = inl sid)
      /\ calls'
         = <[Some sid := CallData (Some to_number) (Some "initiated")
                                  "greeting" (Some []) (Some now)]>
             active_calls
      /\ forall later server_url' form,
           CallSid form = Some sid ->
           (handle_incoming_call later server_url' form calls').2
           = Say greeting_message :: incoming_prompt server_url' true
  end.
Proof.
  unfold initiate_call.
  destruct client as [calls_create|]; [|done].
  destruct server_url as [[|c base_url]|]; [done| |done].
  destruct (calls_create _) as [sid|e] eqn:Ecall; [|done].
  split; [|split; [done|]].
  - by exists calls_create, (String c base_url).
  - intros later server_url' form Hsid.
    rewrite (handle_incoming_call_stored later server_url' form _
               (CallData (Some to_number) (Some "initiated") "greeting"
                         (Some []) (Some now)))
      by (rewrite Hsid; apply lookup_insert_eq).
    reflexivity.
Qed.

End IncomingCalls.

(** ** The knowledge base: the normalized query and its category *)

Section KnowledgeBaseFacts.
Import Py Regex KnowledgeBase Spec.

Lemma remove_punctuation_app (s1 s2 : string) :
  remove_punctuation (s1 +:+ s2)
  = remove_punctuation s1 +:+ remove_punctuation s2.
Proof.
  induction s1 as [|c s1 IH]; [by rewrite !str_app_empty|].
  rewrite str_app_cons. cbn [remove_punctuation].
  destruct (ispunct c); [exact IH|]. by rewrite IH, str_app_cons.
Qed.

Lemma remove_punctuation_plain (s : string) :
  no_punctuation s = true -> remove_punctuation s = s.
Proof.
  induction s as [|c s IH]; [done|]. cbn [no_punctuation remove_punctuation].
  intros [Hc Hs]%andb_true_iff. apply negb_true_iff in Hc.
  by rewrite Hc, IH.
Qed.

Lemma no_punctuation_remove (s : string) :
  no_punctuation (remove_punctuation s) = true.
Proof.
  induction s as [|c s IH]; [done|]. cbn [remove_punctuation].
  destruct (ispunct c) eqn:Ec; [exact IH|].
  cbn [no_punctuation]. by rewrite Ec, IH.
Qed.

Lemma contains_remove_punctuation (w s : string) :
  no_punctuation w = true ->
  contains w s = true -> contains w (remove_punctuation s) = true.
Proof.
  intros Hw. rewrite !contains_spec. intros (pre & post & ->).
  exists (remove_punctuation pre), (remove_punctuation post).
  by rewrite !remove_punctuation_app, (remove_punctuation_plain w Hw).
Qed.

(** A word that survives the normalization and occurs in a text occurs
    in the normalized text. *)
Lemma contains_preprocess_query (w s : string) :
  survives w = true ->
  contains w s = true -> contains w (preprocess_query s) = true.
Proof.
  unfold survives.
  intros [[Hends Hpunct]%andb_true_iff Hlow%String.eqb_eq]%andb_true_iff Hs.
  unfold preprocess_query. destruct s as [|c s].
  - destruct w; [discriminate|]. discriminate.
  - cbn [truthy negb].
    apply contains_remove_punctuation, contains_strip; [done..|].
    rewrite <- Hlow. by apply contains_lower.
Qed.

(** A word with a punctuation mark does not occur in a text without. *)
Lemma contains_punctuation (w s : string) :
  no_punctuation w = false -> no_punctuation s = true ->
  contains w s = false.
Proof.
  intros Hw Hs. destruct (contains w s) eqn:E; [|done].
  apply contains_spec in E as (pre & post & ->).
  assert (Happ : forall a b,
            no_punctuation (a +:+ b) = no_punctuation a && no_punctuation b).
  { intros a b. induction a as [|c a IH]; [by rewrite str_app_empty|].
    rewrite str_app_cons. cbn [no_punctuation].
    by rewrite IH, andb_assoc. }
  rewrite !Happ, Hw in Hs. by rewrite andb_false_r in Hs.
Qed.

Lemma contains_preprocess_lower (w query : string) :
  survives w = true ->
  contains w (lower query) = true ->
  contains w (preprocess_query query) = true.
Proof.
  unfold survives.
  intros [[Hends Hpunct]%andb_true_iff _]%andb_true_iff Hq.
  unfold preprocess_query. destruct query as [|c query].
  - destruct w; discriminate.
  - cbn [truthy negb]. by apply contains_remove_punctuation, contains_strip.
Qed.

(** [max] returns one of the items, and none has a larger score. *)
Lemma max_by_score_spec (best : string * Z) (items : list (string * Z)) :
  In (max_by_score best items) (best :: items)
  /\ Forall (fun item => item.2 <= (max_by_score best items).2)
            (best :: items).
Proof.
  revert best. induction items as [|item items IH]; intros best.
  - cbn. split; [by left|]. apply Forall_singleton. lia.
  - cbn [max_by_score].
    destruct (IH (if best.2 <? item.2 then item else best)) as [Hin Hall].
    inversion_clear Hall as [|? ? Hbest Hrest]. split.
    + destruct Hin as [Hin|Hin]; [|by right; right].
      rewrite <- Hin. destruct (best.2 <? item.2); [right|]; by left.
    + destruct (best.2 <? item.2) eqn:E.
      * constructor; [lia|]. by constructor.
      * constructor; [done|]. constructor; [lia|done].
Qed.

(** A query without a category has none of the keywords. *)
Lemma identify_category_none (query keyword : string) :
  identify_category query = None ->
  category_keyword keyword = true ->
  contains keyword (preprocess_query query) = false.
Proof.
  unfold identify_category, category_keyword.
  set (preprocessed := preprocess_query query).
  set (f := fun '(category, keywords) =>
              (category, score preprocessed keywords)).
  destruct CATEGORY_KEYWORDS as [|first rest] eqn:Etable; [done|].
  cbn [List.map].
  destruct (max_by_score_spec (f first) (List.map f rest)) as [_ Hall].
  destruct (0 <? (max_by_score (f first) (List.map f rest)).2) eqn:Emax;
    [done|].
  intros _ ([category keywords] & Hin & Hkw)%existsb_exists.
  cbn [snd] in Hkw. apply str_in_spec in Hkw.
  assert (Hscore : score preprocessed keywords <= 0).
  { rewrite List.Forall_forall in Hall.
    specialize (Hall (f (category, keywords))).
    cbn [f snd] in Hall. etransitivity; [apply Hall|lia].
    change (f first :: List.map f rest) with (List.map f (first :: rest)).
    apply in_map_iff. by exists (category, keywords). }
  unfold score in Hscore.
  destruct (contains keyword preprocessed) eqn:E; [|done].
  assert (Hf : keyword ∈ List.filter
                 (fun keyword => contains keyword preprocessed) keywords).
  { apply list_elem_of_In, filter_In. split; [|done].
    by apply list_elem_of_In. }
  destruct (List.filter _ keywords); [|cbn in Hscore; lia].
  by apply not_elem_of_nil in Hf.
Qed.

(** A category found has a fallback answer. *)
Lemma identify_category_has_fallback (query category : string) :
  identify_category query = Some category ->
  is_Some (lookup_item category CATEGORY_FALLBACKS).
Proof.
  unfold identify_category.
  set (preprocessed := preprocess_query query).
  set (f := fun '(category, keywords) =>
              (category, score preprocessed keywords)).
  assert (Hnames : Forall (fun entry : string * list string =>
                             is_Some (lookup_item entry.1 CATEGORY_FALLBACKS))
                          CATEGORY_KEYWORDS).
  { repeat constructor; vm_compute; eauto. }
  destruct CATEGORY_KEYWORDS as [|first rest] eqn:Etable; [done|].
  cbn [List.map].
  destruct (max_by_score_spec (f first) (List.map f rest)) as [Hin _].
  destruct (0 <? _); [|done]. intros [= <-].
  change (f first :: List.map f rest) with (List.map f (first :: rest)) in Hin.
  apply in_map_iff in Hin as ([name keywords] & <- & Hin).
  rewrite List.Forall_forall in Hnames. exact (Hnames _ Hin).
Qed.

(** The normalized query has no punctuation, so the two keywords with a
    hyphen, "first-time" and "pre-approval", are never found in it: they
    add nothing to the score of any query. *)
Theorem hyphenated_keywords_never_count (query : string) :
  no_punctuation (preprocess_query query) = true
  /\ List.filter (fun keyword => negb (no_punctuation keyword))
                 (concat (CATEGORY_KEYWORDS.*2))
     = ["first-time"; "pre-approval"]
  /\ contains "first-time" (preprocess_query query) = false
  /\ contains "pre-approval" (preprocess_query query) = false.
Proof.
  assert (Hplain : no_punctuation (preprocess_query query) = true).
  { unfold preprocess_query. destruct (negb (truthy query)); [done|].
    apply no_punctuation_remove. }
  split; [done|]. split; [vm_compute; reflexivity|].
  split; by apply contains_punctuation.
Qed.

(** When [get_response] finds nothing, the query has no category, so it
    has none of the keywords of the categories. *)
Lemma get_response_not_found (kb_match : string -> option string)
    (query keyword : string) :
  (get_response kb_match query).2 = false ->
  category_keyword keyword = true ->
  survives keyword = true ->
  contains keyword (lower query) = false.
Proof.
  unfold get_response. intros Hfound Hkw Hs.
  destruct query as [|c query]; [by destruct keyword|].
  cbn [truthy negb] in Hfound.
  destruct (kb_match _); [done|].
  destruct (identify_category (preprocess_query (String c query)))
    as [category|] eqn:Ecat.
  - destruct (identify_category_has_fallback _ _ Ecat) as [r Hr].
    by rewrite Hr in Hfound.
  - pose proof (identify_category_none _ keyword Ecat Hkw) as Hnone.
    destruct (contains keyword (lower (String c query))) eqn:E; [|done].
    apply (contains_preprocess_lower keyword) in E; [|done].
    apply (contains_preprocess_query keyword) in E; [|done].
    congruence.
Qed.

(** After the knowledge base has found nothing, the canned fallback of
    the call handler has three answers left: the one on buying, for a
    query with "purchasing"; the one on financing, for a query with
    "finance"; and the general one.  Its answers on selling, investing
    and the market are for queries that the knowledge base answers with
    the fallback of a category. *)
Theorem fallback_after_the_knowledge_base
    (kb_match : string -> option string) (query : string) :
  (get_response kb_match query).2 = false ->
  let answer := CallHandler._generate_comprehensive_fallback query in
  (answer = CallHandler.buying_answer
   /\ contains "purchasing" (lower query) = true)
  \/ (answer = CallHandler.financing_answer
      /\ contains "finance" (lower query) = true)
  \/ answer = CallHandler.general_answer.
Proof.
  intros Hfound answer. subst answer.
  assert (Habsent : forall keyword,
            category_keyword keyword = true -> survives keyword = true ->
            contains keyword (lower query) = false)
    by (intros keyword; apply (get_response_not_found kb_match), Hfound).
  unfold CallHandler._generate_comprehensive_fallback, CallHandler.any_word.
  cbn [existsb].
  rewrite (Habsent "buy"), (Habsent "buying"), (Habsent "purchase")
    by (vm_compute; reflexivity).
  rewrite (Habsent "sell"), (Habsent "selling"), (Habsent "market"),
    (Habsent "list") by (vm_compute; reflexivity).
  rewrite (Habsent "mortgage"), (Habsent "loan"), (Habsent "interest"),
    (Habsent "down payment") by (vm_compute; reflexivity).
  rewrite (Habsent "invest"), (Habsent "investment"), (Habsent "rental"),
    (Habsent "income") by (vm_compute; reflexivity).
  rewrite (Habsent "trend"), (Habsent "price"), (Habsent "value"),
    (Habsent "appreciation") by (vm_compute; reflexivity).
  assert (contains "property management" (lower query) = false) as ->.
  { destruct (contains "property management" (lower query)) eqn:E; [|done].
    apply (contains_longer "property" " management") in E.
    rewrite (Habsent "property") in E by (vm_compute; reflexivity). done. }
  cbn [orb].
  destruct (contains "purchasing" (lower query)); [by left|]. cbn [orb].
  destruct (contains "finance" (lower query)); [by right; left|].
  by right; right.
Qed.

(** A query about purchasing, which no pattern of the knowledge base
    is taken to match. *)
Lemma fallback_after_the_knowledge_base_witness :
  let query := "purchasing?" in
  let answer := CallHandler._generate_comprehensive_fallback query in
  (answer = CallHandler.buying_answer
   /\ contains "purchasing" (lower query) = true)
  \/ (answer = CallHandler.financing_answer
      /\ contains "finance" (lower query) = true)
  \/ answer = CallHandler.general_answer.
Proof.
  refine (fallback_after_the_knowledge_base (fun _ => None) "purchasing?" _).
  vm_compute. reflexivity.
Defined.

End KnowledgeBaseFacts.

(** ** The call handler: the answer to a query *)

Section AnsweringQueries.
Import Py Regex Chunker CallHandler Spec.

(** The canned fallback is one of six answers, each of which is spoken
    as it is. *)
Lemma fallback_is_spoken (query : string) :
  let s := _generate_comprehensive_fallback query in
  truthy s = true /\ limit_answer (valid_answer (Text s)) = s.
Proof.
  unfold _generate_comprehensive_fallback.
  repeat match goal with
         | |- context [if ?b then _ else _] => destruct b
         end; split; vm_compute; reflexivity.
Qed.

(** [_process_user_query] always returns a [str] that is not empty:
    the answer of the knowledge base, with a name put in front at most;
    or else the answer of the language model; or else the canned
    fallback for the query, which [handle_speech_input] then speaks
    unchanged. *)
Theorem process_user_query_always_answers
    (capitalize : string -> string)
    (get_response : string -> option (option string * bool))
    (azure_services : option (string -> list message -> option answer))
    (query : string) (conversation_history : list message) :
  exists s,
    _process_user_query capitalize get_response azure_services query
                        conversation_history = Text s
    /\ truthy s = true
    /\ (kb_answer capitalize get_response query conversation_history = None ->
        azure_answer azure_services query conversation_history = None ->
        s = _generate_comprehensive_fallback query
        /\ limit_answer (valid_answer (Text s)) = s).
Proof.
  unfold _process_user_query.
  destruct (kb_answer capitalize get_response query conversation_history)
    as [enhanced|] eqn:Ekb.
  - exists enhanced. split; [done|]. split; [|done].
    revert Ekb. unfold kb_answer, _enhance_kb_response.
    destruct (get_response query) as [[[kb_response|] []]|]; try done.
    destruct (truthy kb_response) eqn:Hkb; [|done].
    destruct (2 <=? _); [|congruence].
    destruct (scan_for_name conversation_history) as [| |name];
      [done|congruence|].
    intros [= <-]. destruct (capitalize name); [done|]. done.
  - destruct (azure_answer azure_services query conversation_history)
      as [azure_response|] eqn:Eazure.
    + exists azure_response. split; [done|]. split; [|done].
      revert Eazure. unfold azure_answer.
      destruct azure_services as [f|]; [|done].
      destruct (f query conversation_history) as [[s|]|]; try done.
      destruct (truthy s) eqn:Hs; [|done]. cbn [andb].
      destruct (0 <? len (strip s)); [|done]. congruence.
    + exists (_generate_comprehensive_fallback query).
      destruct (fallback_is_spoken query) as [Ht Hs]. by repeat split.
Qed.

Lemma scan_for_name_first (before : list message) (m : message)
    (after : list message) (user_message name : string) :
  Forall gives_no_name before ->
  role m = "user" ->
  content m = Text user_message ->
  search_name (lower user_message) = Some name ->
  scan_for_name (before ++ m :: after) = NameFound name.
Proof.
  intros Hbefore Hrole Hcontent Hname.
  induction Hbefore as [|m' before Hm' _ IH].
  - cbn. by rewrite Hrole, Hcontent, Hname.
  - cbn [app scan_for_name].
    destruct (String.eqb (role m') "user") eqn:Er; [|exact IH].
    apply String.eqb_eq in Er. destruct (Hm' Er) as (s' & -> & ->).
    exact IH.
Qed.

(** The answer of the knowledge base is addressed to the caller by the
    name of the first message of the history in which the caller gives
    one; names given later are not looked at.  With fewer than two
    messages in the history the answer is left as it is, whatever the
    caller said. *)
Theorem first_name_given_is_used (capitalize : string -> string)
    (kb_response query : string) (before : list message) (m : message)
    (after : list message) (user_message name : string) :
  Forall gives_no_name before ->
  role m = "user" ->
  content m = Text user_message ->
  search_name (lower user_message) = Some name ->
  _enhance_kb_response capitalize kb_response query (before ++ m :: after)
  = (if 2 <=? Z.of_nat (length (before ++ m :: after))
     then Some (capitalize name +:+ ", " +:+ kb_response)
     else Some kb_response).
Proof.
  intros Hbefore Hrole Hcontent Hname. unfold _enhance_kb_response.
  by rewrite (scan_for_name_first before m after user_message name).
Qed.

(** The caller gives a name in the second message and another name in
    the fourth; [capitalize] is the identity here. *)
Lemma first_name_given_is_used_witness :
  let before := [Message "assistant" (Text greeting_message)] in
  let m := Message "user" (Text "Hi, my name is Ana and I rent.") in
  let after :=
    [Message "assistant" (Text "Welcome.");
     Message "user" (Text "Sorry, my name is Bea.")] in
  _enhance_kb_response (fun name => name) "rates are low." "rates?"
                       (before ++ m :: after)
  = (if 2 <=? Z.of_nat (length (before ++ m :: after))
     then Some ("ana" +:+ ", " +:+ "rates are low.")
     else Some "rates are low.").
Proof.
  intros before m after.
  refine (first_name_given_is_used (fun name => name) "rates are low."
            "rates?" before m after "Hi, my name is Ana and I rent." "ana"
            _ eq_refl eq_refl _).
  - apply Forall_singleton. intros Hrole. vm_compute in Hrole.
    discriminate.
  - vm_compute. reflexivity.
Defined.

End AnsweringQueries.

(** ** The interruption handler *)

Section InterruptionHandlerFacts.
Import Py InterruptionHandler Spec.

(** The chunk at the cursor of a response just written to the store is
    played, and a response whose cursor is past the last chunk is
    released. *)
Lemma playback_step (server_url : option string) (response_id : string)
    (h : handler) (responses : gmap string ResponseData.t)
    (r : ResponseData.t) :
  _create_chunk_response server_url response_id
    (set_active_responses (<[response_id := r]> responses) h)
  = match ResponseData.chunks r !! ResponseData.current_chunk r with
    | Some chunk =>
        (chunk_response server_url response_id chunk,
         set_active_responses (<[response_id := r]> responses) h)
    | None =>
        (completion_response server_url,
         set_active_responses (delete response_id responses) h)
    end.
Proof.
  unfold _create_chunk_response.
  cbn [active_responses set_active_responses]. rewrite lookup_insert_eq.
  destruct (ResponseData.chunks r !! ResponseData.current_chunk r); [done|].
  unfold _create_completion_response.
  cbn [active_responses set_active_responses conversation_manager].
  rewrite lookup_insert_eq. unfold set_active_responses.
  cbn [conversation_manager active_responses]. by rewrite delete_insert_eq.
Qed.

(** The handler after [start_response_playback] and [k] calls of
    [continue_response]: the cursor of the response stands at [k], and
    the response is released once the cursor has passed the last chunk. *)
Lemma playback_state (server_url : option string) (response_id : string)
    (h : handler) (r : ResponseData.t) (k : nat) :
  active_responses h !! response_id = Some r ->
  ResponseData.current_chunk r = 0%nat ->
  let after :=
    Nat.iter k (fun h => (continue_response server_url response_id h).2)
             (start_response_playback server_url response_id h).2 in
  conversation_manager after = conversation_manager h
  /\ active_responses after
     = if decide (k < length (ResponseData.chunks r))%nat
       then <[response_id := set_current_chunk k (set_status "active" r)]>
              (active_responses h)
       else delete response_id (active_responses h).
Proof.
  intros Hr Hzero. induction k as [|k [IHm IHr]].
  - cbn [Nat.iter]. unfold start_response_playback. rewrite Hr.
    rewrite playback_step.
    cbn [ResponseData.chunks ResponseData.current_chunk set_status].
    rewrite Hzero.
    assert (Hsame : set_current_chunk 0 (set_status "active" r)
                    = set_status "active" r).
    { unfold set_current_chunk, set_status. cbn. by rewrite Hzero. }
    rewrite Hsame.
    destruct (ResponseData.chunks r) as [|chunk chunks] eqn:Hchunks.
    + cbn. split; [done|]. rewrite decide_False by lia. done.
    + cbn. split; [done|]. rewrite decide_True by lia. done.
  - cbv zeta in IHm, IHr. rewrite Nat.iter_succ.
    set (before := Nat.iter k _ _) in *.
    unfold continue_response. rewrite IHr.
    destruct (decide (k < length (ResponseData.chunks r))%nat) as [Hk|Hk].
    + rewrite lookup_insert_eq, playback_step.
      cbn [ResponseData.chunks ResponseData.current_chunk set_status
           set_current_chunk].
      rewrite insert_insert_eq.
      replace (k + 1)%nat with (S k) by lia.
      destruct (ResponseData.chunks r !! S k) as [chunk|] eqn:Hchunk.
      * apply lookup_lt_Some in Hchunk. cbn [snd].
        rewrite decide_True by lia.
        cbn [conversation_manager active_responses set_active_responses].
        done.
      * apply lookup_ge_None in Hchunk. cbn [snd].
        rewrite decide_False by lia.
        cbn [conversation_manager active_responses set_active_responses].
        by rewrite delete_insert_eq.
    + rewrite lookup_delete_eq. cbn [snd].
      rewrite decide_False by lia. by rewrite IHr.
Qed.

(** A registered response is played chunk by chunk, in order:
    [start_response_playback] says the first chunk, and the call of
    [continue_response] number [k + 1] says the chunk [k + 1].  The call
    after the last chunk answers with the closing question and releases
    the response; every later call finds no response and answers with the
    error response.  The conversation manager is not touched on the
    way. *)
Theorem playback_says_the_chunks_in_order (server_url : option string)
    (response_id : string) (h : handler) (r : ResponseData.t) (k : nat) :
  active_responses h !! response_id = Some r ->
  ResponseData.current_chunk r = 0%nat ->
  let chunks := ResponseData.chunks r in
  let after :=
    Nat.iter k (fun h => (continue_response server_url response_id h).2)
             (start_response_playback server_url response_id h).2 in
  (start_response_playback server_url response_id h).1
  = match chunks !! 0%nat with
    | Some chunk => chunk_response server_url response_id chunk
    | None => completion_response server_url
    end
  /\ (continue_response server_url response_id after).1
     = match chunks !! S k with
       | Some chunk => chunk_response server_url response_id chunk
       | None =>
           if decide (S k = length chunks)
           then completion_response server_url
           else _create_error_response server_url
       end
  /\ ((length chunks <= k)%nat -> active_responses after !! response_id = None)
  /\ conversation_manager after = conversation_manager h.
Proof.
  intros Hr Hzero chunks after.
  destruct (playback_state server_url response_id h r k Hr Hzero)
    as [Hm Hresp]. fold after in Hm, Hresp. fold chunks in Hresp.
  split; [|split; [|split; [|done]]].
  - unfold start_response_playback. rewrite Hr, playback_step.
    cbn [ResponseData.chunks ResponseData.current_chunk set_status].
    rewrite Hzero. fold chunks. by destruct (chunks !! 0%nat).
  - unfold continue_response. rewrite Hresp.
    destruct (decide (k < length chunks)%nat) as [Hk|Hk].
    + rewrite lookup_insert_eq, playback_step.
      cbn [ResponseData.chunks ResponseData.current_chunk set_status
           set_current_chunk].
      replace (k + 1)%nat with (S k) by lia. fold chunks.
      destruct (chunks !! S k) as [chunk|] eqn:Hchunk; [done|].
      apply lookup_ge_None in Hchunk. cbn [fst].
      rewrite decide_True by lia. done.
    + rewrite lookup_delete_eq. cbn [fst].
      assert (chunks !! S k = None) as -> by (apply lookup_ge_None; lia).
      rewrite decide_False by lia. done.
  - intros Hk. rewrite Hresp, decide_False by lia. apply lookup_delete_eq.
Qed.

(** An answer in two chunks, registered for a new call at time 100. *)
Lemma playback_says_the_chunks_in_order_witness :
  let chunks := ["Rates are low."; "Call us today."] in
  let h :=
    (register_response 100 "CA1" "token-1" chunks
       (new_handler ConversationManager.global_enhanced_conversation_manager)).2 in
  let after :=
    Nat.iter 1 (fun h => (continue_response None "CA1_100" h).2)
             (start_response_playback None "CA1_100" h).2 in
  (start_response_playback None "CA1_100" h).1
  = match chunks !! 0%nat with
    | Some chunk => chunk_response None "CA1_100" chunk
    | None => completion_response None
    end
  /\ (continue_response None "CA1_100" after).1
     = match chunks !! 2%nat with
       | Some chunk => chunk_response None "CA1_100" chunk
       | None =>
           if decide (2%nat = length chunks)
           then completion_response None
           else _create_error_response None
       end
  /\ ((length chunks <= 1)%nat -> active_responses after !! "CA1_100" = None)
  /\ conversation_manager after = conversation_manager h.
Proof.
  intros chunks h.
  refine (playback_says_the_chunks_in_order None "CA1_100" h
            (ResponseData.Make "CA1" "token-1" chunks 0 "pending" 100 false
                               None) 1 _ eq_refl).
  vm_compute. reflexivity.
Defined.

(** What [track_active_response] leaves in the manager. *)
Lemma track_active_response_tracked (now : Q)
    (call_sid response_token : string)
    (metadata : option ConversationManager.dict)
    (m : ConversationManager.manager) :
  truthy call_sid = true ->
  truthy response_token = true ->
  let m' :=
    (ConversationManager.track_active_response now call_sid response_token
       metadata m).2 in
  ConversationManager.active_responses m' !! response_token
  = Some (ConversationManager.Response.Make call_sid now (default ∅ metadata)
            "active" None 0)
  /\ session_active_response call_sid m' = Some (Some response_token).
Proof.
  intros Hsid Htok m'. subst m'.
  unfold ConversationManager.track_active_response.
  rewrite Hsid, Htok. cbn [negb orb]. cbv iota.
  destruct (ensure_conversation_spec now call_sid m Hsid)
    as (m1 & c & -> & Hc & _).
  cbn [negb]. cbv iota.
  cbn [ConversationManager.conversations
       ConversationManager.set_active_responses].
  rewrite Hc. cbn [snd]. unfold session_active_response.
  cbn [ConversationManager.conversations ConversationManager.active_responses
       ConversationManager.set_conversations
       ConversationManager.set_active_responses].
  rewrite !lookup_insert_eq. split; [done|]. simpl.
  by destruct (ConversationManager.interruption_management c).
Qed.

(** The handler never tells the conversation manager that a response
    has been played to its end.  After [register_response] and the whole
    playback, the handler has released the response, and the manager
    still tracks it as "active" and still names it as the active response
    of the session: only a cleanup of the session removes it there. *)
Theorem finished_response_stays_tracked (now : Q)
    (call_sid response_token : string) (chunks : list string)
    (server_url : option string) (h0 : handler) (k : nat) :
  truthy call_sid = true ->
  truthy response_token = true ->
  (length chunks <= k)%nat ->
  let '(response_id, h) :=
    register_response now call_sid response_token chunks h0 in
  let finished :=
    Nat.iter k (fun h => (continue_response server_url response_id h).2)
             (start_response_playback server_url response_id h).2 in
  active_responses finished !! response_id = None
  /\ (exists r,
        ConversationManager.active_responses (conversation_manager finished)
          !! response_token = Some r
        /\ ConversationManager.Response.call_sid r = call_sid
        /\ ConversationManager.Response.status r = "active")
  /\ session_active_response call_sid (conversation_manager finished)
     = Some (Some response_token).
Proof.
  intros Hsid Htok Hk. unfold register_response.
  set (response_id := response_id_at now call_sid).
  set (r := ResponseData.Make call_sid response_token chunks 0 "pending" now
                              false None).
  set (h := Handler _ _).
  assert (Hr : active_responses h !! response_id = Some r).
  { subst h. cbn [active_responses]. apply lookup_insert_eq. }
  destruct (playback_state server_url response_id h r k Hr eq_refl)
    as [Hm Hresp].
  cbv zeta. rewrite Hm, Hresp.
  rewrite decide_False by (cbn [ResponseData.chunks r]; lia).
  split; [apply lookup_delete_eq|].
  subst h. cbn [conversation_manager].
  destruct (track_active_response_tracked now call_sid response_token
              (Some {[ "response_id" := response_id;
                       "chunks_count" :=
                         str_of_int (Z.of_nat (length chunks)) ]})
              (conversation_manager h0) Hsid Htok) as [Htracked Hsession].
  split; [|exact Hsession]. eexists. split; [exact Htracked|]. by split.
Qed.

(** An answer in two chunks, played to its end for a new call. *)
Lemma finished_response_stays_tracked_witness :
  let h0 :=
    new_handler ConversationManager.global_enhanced_conversation_manager in
  let '(response_id, h) :=
    register_response 100 "CA1" "token-1"
                      ["Rates are low."; "Call us today."] h0 in
  let finished :=
    Nat.iter 2 (fun h => (continue_response None response_id h).2)
             (start_response_playback None response_id h).2 in
  active_responses finished !! response_id = None
  /\ (exists r,
        ConversationManager.active_responses (conversation_manager finished)
          !! "token-1" = Some r
        /\ ConversationManager.Response.call_sid r = "CA1"
        /\ ConversationManager.Response.status r = "active")
  /\ session_active_response "CA1" (conversation_manager finished)
     = Some (Some "token-1").
Proof.
  intros h0.
  refine (finished_response_stays_tracked 100 "CA1" "token-1"
            ["Rates are low."; "Call us today."] None h0 2
            eq_refl eq_refl _).
  cbn [length]. lia.
Defined.

(** An interruption does not stop the playback.  [handle_interruption]
    marks the response as interrupted and answers with the
    acknowledgement, but it leaves the response and its cursor in the
    store: the next [continue_response] says the next chunk as if nothing
    had happened. *)
Theorem interruption_does_not_stop_playback (str_of_float : Q -> string)
    (now : Q) (server_url : option string) (request : CallHandler.form_data)
    (response_id : string) (speech_result : option string)
    (confidence : option Q) (h : handler) (r : ResponseData.t)
    (chunk : string) :
  active_responses h !! response_id = Some r ->
  ResponseData.chunks r !! S (ResponseData.current_chunk r) = Some chunk ->
  let '(response, h') :=
    handle_interruption str_of_float now server_url request response_id
                        speech_result confidence h in
  response = _process_interruption server_url
  /\ active_responses h' !! response_id
     = Some (mark_interrupted
               (InterruptData (speech_of request speech_result)
                              (confidence_of request confidence) now) r)
  /\ (continue_response server_url response_id h').1
     = chunk_response server_url response_id chunk.
Proof.
  intros Hr Hchunk. unfold handle_interruption. rewrite Hr.
  split; [done|]. cbn [active_responses]. rewrite lookup_insert_eq.
  split; [done|]. unfold continue_response. cbn [active_responses].
  rewrite lookup_insert_eq.
  match goal with
  | |- context [set_active_responses (<[response_id := ?r']> ?rs) ?h'] =>
      rewrite (playback_step server_url response_id h' rs r')
  end.
  cbn [ResponseData.chunks ResponseData.current_chunk mark_interrupted
       set_current_chunk].
  replace (ResponseData.current_chunk r + 1)%nat
    with (S (ResponseData.current_chunk r)) by lia.
  by rewrite Hchunk.
Qed.

(** The caller interrupts the first of two chunks; the speech and the
    confidence come with the request. *)
Lemma interruption_does_not_stop_playback_witness :
  let chunks := ["Rates are low."; "Call us today."] in
  let h :=
    (start_response_playback None "CA1_100"
       (register_response 100 "CA1" "token-1" chunks
          (new_handler
             ConversationManager.global_enhanced_conversation_manager)).2).2 in
  let r :=
    ResponseData.Make "CA1" "token-1" chunks 0 "active" 100 false None in
  let request :=
    CallHandler.FormData (Some "CA1") None (Some "wait")
                         (CallHandler.ConfidenceNumber 0.9) in
  let '(response, h') :=
    handle_interruption (fun _ => "0.9") 101 None request "CA1_100" None None
                        h in
  response = _process_interruption None
  /\ active_responses h' !! "CA1_100"
     = Some (mark_interrupted (InterruptData "wait" 0.9 101) r)
  /\ (continue_response None "CA1_100" h').1
     = chunk_response None "CA1_100" "Call us today.".
Proof.
  intros chunks h r request.
  refine (interruption_does_not_stop_playback (fun _ => "0.9") 101 None
            request "CA1_100" None None h r "Call us today." _ eq_refl).
  vm_compute. reflexivity.
Defined.

(** The identifier of a response is made of the call and of the second
    in which it is registered: two responses registered for one call
    within the same second get the same identifier, and the second
    registration replaces the first, whose chunks are never played. *)
Theorem responses_of_one_second_collide (now1 now2 : Q)
    (call_sid token1 token2 : string) (chunks1 chunks2 : list string)
    (h : handler) :
  int_of now1 = int_of now2 ->
  let '(response_id1, h1) :=
    register_response now1 call_sid token1 chunks1 h in
  let '(response_id2, h2) :=
    register_response now2 call_sid token2 chunks2 h1 in
  response_id1 = response_id2
  /\ active_responses h2 !! response_id1
     = Some (ResponseData.Make call_sid token2 chunks2 0 "pending" now2
                               false None)
  /\ (forall other, other <> response_id1 ->
        active_responses h2 !! other = active_responses h !! other).
Proof.
  intros Hsecond. unfold register_response, response_id_at.
  rewrite Hsecond. split; [done|]. cbn [active_responses].
  split; [apply lookup_insert_eq|].
  intros other Hne. by rewrite !lookup_insert_ne.
Qed.

(** Two answers registered for a call at 100.2 and 100.9 seconds. *)
Lemma responses_of_one_second_collide_witness :
  let h :=
    new_handler ConversationManager.global_enhanced_conversation_manager in
  let '(response_id1, h1) :=
    register_response (1002 # 10) "CA1" "token-1" ["Rates are low."] h in
  let '(response_id2, h2) :=
    register_response (1009 # 10) "CA1" "token-2" ["Call us today."] h1 in
  response_id1 = response_id2
  /\ active_responses h2 !! response_id1
     = Some (ResponseData.Make "CA1" "token-2" ["Call us today."] 0 "pending"
                               (1009 # 10) false None)
  /\ (forall other, other <> response_id1 ->
        active_responses h2 !! other = active_responses h !! other).
Proof.
  intros h.
  refine (responses_of_one_second_collide (1002 # 10) (1009 # 10) "CA1"
            "token-1" "token-2" ["Rates are low."] ["Call us today."] h _).
  vm_compute. reflexivity.
Defined.

End InterruptionHandlerFacts.

(** ** The conversation manager: reading the context *)

Section ReadingTheContext.
Import Py Regex ConversationManager Spec.

(** The history that [get_conversation_context] returns for a stored
    session: for a positive [max_messages] the last [max_messages]
    entries, for [None] and 0 all of them - and for a negative
    [max_messages] all but the oldest [- max_messages], since the slice
    [history[-max_messages:]] then starts from the front. *)
Theorem context_history_window (call_sid : string) (max_messages : option Z)
    (m : manager) (c : conversation) :
  truthy call_sid = true ->
  conversations m !! call_sid = Some c ->
  exists st f i,
    (get_conversation_context call_sid max_messages m).1
    = Context
        (match max_messages with
         | None => history c
         | Some n =>
             if 0 <? n
             then drop (length (history c) - Z.to_nat n) (history c)
             else drop (Z.to_nat (- n)) (history c)
         end) st f i.
Proof.
  intros Hsid Hc. unfold get_conversation_context. rewrite Hsid, Hc.
  cbn [negb fst]. eexists _, _, _. f_equal.
  destruct max_messages as [n|]; [|done].
  destruct (n =? 0) eqn:E0; cbn [negb andb].
  - apply Z.eqb_eq in E0 as ->. done.
  - destruct (n <? Z.of_nat (length (history c))) eqn:E.
    + unfold slice_from. destruct (- n <? 0) eqn:En.
      * assert ((0 <? n) = true) as -> by lia. f_equal. lia.
      * assert ((0 <? n) = false) as -> by lia.
        destruct (decide (Z.to_nat (- n) <= length (history c))%nat).
        -- f_equal. lia.
        -- rewrite !drop_ge by lia. done.
    + apply Z.eqb_neq in E0. apply Z.ltb_ge in E.
      assert ((0 <? n) = true) as -> by (apply Z.ltb_lt; lia).
      replace (length (history c) - Z.to_nat n)%nat with 0%nat by lia. done.
Qed.

(** A session with three messages, read with [max_messages = -1]: the
    two newest come back. *)
Lemma context_history_window_witness :
  let m :=
    run [(1%Q, AddConversationMessage "CA1" "user" (Some "hello") None);
         (2%Q, AddConversationMessage "CA1" "assistant" (Some "hi") None);
         (3%Q, AddConversationMessage "CA1" "user" (Some "thanks") None)]
        global_enhanced_conversation_manager in
  let history :=
    [Message.Make "user" "hello" 1 ∅ "CA1_1";
     Message.Make "assistant" "hi" 2 ∅ "CA1_2";
     Message.Make "user" "thanks" 3 ∅ "CA1_3"] in
  exists st f i,
    (get_conversation_context "CA1" (Some (-1)) m).1
    = Context
        (if 0 <? -1
         then drop (length history - Z.to_nat (-1)) history
         else drop (Z.to_nat (- -1)) history) st f i.
Proof.
  intros m history.
  refine (context_history_window "CA1" (Some (-1)) m
            (Conversation history
               (Some (ConvState None None (Some ∅) (Some 3%Q) (Some 3)
                                (Some "initial")))
               (Some (FollowUp (Some []) (Some []) (Some [])))
               (Some (InterruptionMgmt (Some None) (Some true) (Some 3))))
            eq_refl _).
  vm_compute. reflexivity.
Defined.

(** A message just added is what the context shows last: with a
    positive [max_history_length], [get_conversation_context] with
    [max_messages = 1] returns exactly that message, with the role, the
    content, the metadata and the time stamp it was stored with. *)
Theorem context_reads_back_the_last_message (now : Q)
    (call_sid role content : string) (metadata : option dict) (m : manager) :
  0 < max_history_length m ->
  truthy call_sid = true ->
  truthy role = true ->
  let m1 :=
    (add_conversation_message now call_sid role (Some content) metadata m).2 in
  exists message_id st f i,
    (get_conversation_context call_sid (Some 1) m1).1
    = Context [Message.Make role content now (default ∅ metadata) message_id]
              st f i.
Proof.
  intros Hmax Hsid Hrole m1. subst m1.
  rewrite (add_conversation_message_shape now call_sid role content metadata
             m Hsid Hrole). cbn [snd].
  set (c := default (new_conversation None now) (conversations m !! call_sid)).
  set (message := Message.Make role content now _ _).
  unfold get_conversation_context. rewrite Hsid. cbn [negb conversations].
  rewrite lookup_insert_eq. cbn [fst history state default from_option id].
  destruct (trim_history_window (max_history_length m) (history c ++ [message])
              Hmax) as [-> _].
  set (h := drop _ _).
  assert (Hh : exists older, h = (older ++ [message])%list).
  { subst h. rewrite length_app. cbn [length].
    rewrite drop_app_le by lia. by eexists. }
  destruct Hh as [older Hh].
  assert (Hlast : (if negb (1 =? 0) && (1 <? Z.of_nat (length h))
                   then slice_from (- (1)) h else h) = [message]).
  { rewrite Hh, length_app. cbn [length Z.eqb negb andb].
    destruct (1 <? Z.of_nat (length older + 1)) eqn:E.
    - unfold slice_from. cbn [Z.opp Z.ltb Z.compare].
      assert (Hd : forall k, k = length older ->
                drop k (older ++ [message]) = [message]).
      { intros k ->. by rewrite drop_app_length. }
      apply Hd. rewrite length_app. cbn [length]. lia.
    - destruct older; [done|]. exfalso.
      apply Z.ltb_ge in E. rewrite length_cons in E. lia. }
  rewrite Hlast. eexists _, _, _, _. reflexivity.
Qed.

(** A first message at time 7. *)
Lemma context_reads_back_the_last_message_witness :
  let m1 :=
    (add_conversation_message 7 "CA1" "user" (Some "hello") None
       global_enhanced_conversation_manager).2 in
  exists message_id st f i,
    (get_conversation_context "CA1" (Some 1) m1).1
    = Context [Message.Make "user" "hello" 7 (default ∅ None) message_id]
              st f i.
Proof.
  refine (context_reads_back_the_last_message 7 "CA1" "user" "hello" None
            global_enhanced_conversation_manager _ eq_refl eq_refl).
  vm_compute. reflexivity.
Defined.

End ReadingTheContext.

(** ** The conversation manager: the sweep, its sessions and their
    responses *)

Section SweepAndResponses.
Import Py Regex ConversationManager Spec.

(** The sweep removes a tracked response exactly when it removes the
    session the response belongs to; the response of a session that
    stays, and of a session that the manager does not store, stays as it
    is. *)
Theorem sweep_takes_the_responses_of_its_sessions (now : Q)
    (max_age_seconds : Z) (m : manager) (response_token : string)
    (r : Response.t) :
  0 < max_age_seconds ->
  active_responses m !! response_token = Some r ->
  let m' := (cleanup_stale_conversations now max_age_seconds m).2 in
  (active_responses m' !! response_token = None
   <-> is_Some (conversations m !! Response.call_sid r)
       /\ conversations m' !! Response.call_sid r = None)
  /\ (active_responses m' !! response_token = None
      \/ active_responses m' !! response_token = Some r).
Proof.
  intros HT Hr m'. subst m'.
  rewrite (cleanup_stale_conversations_response now max_age_seconds m
             response_token r HT Hr).
  destruct (conversations m !! Response.call_sid r) as [c|] eqn:Hc.
  - rewrite (cleanup_stale_conversations_lookup now max_age_seconds m _ c HT
               Hc).
    destruct (conversation_is_stale now max_age_seconds c).
    + split; [|by left]. split; [by eauto|done].
    + split; [|by right]. split; [done|]. by intros [_ ?].
  - split; [|by right]. split; [done|]. by intros [[? ?] _].
Qed.

(** Two calls, one silent since time 0 and one active at time 90, each
    with a response; the sweep at time 100 with a threshold of 60. *)
Lemma sweep_takes_the_responses_of_its_sessions_witness :
  let m :=
    run [(0%Q, TrackActiveResponse "CA1" "token-1" None);
         (90%Q, TrackActiveResponse "CA2" "token-2" None)]
        global_enhanced_conversation_manager in
  let r := Response.Make "CA1" 0 ∅ "active" None 0 in
  let m' := (cleanup_stale_conversations 100 60 m).2 in
  (active_responses m' !! "token-1" = None
   <-> is_Some (conversations m !! Response.call_sid r)
       /\ conversations m' !! Response.call_sid r = None)
  /\ (active_responses m' !! "token-1" = None
      \/ active_responses m' !! "token-1" = Some r).
Proof.
  intros m r.
  refine (sweep_takes_the_responses_of_its_sessions 100 60 m "token-1" r
            _ _).
  - reflexivity.
  - vm_compute. reflexivity.
Defined.

(** A message keeps its session for [max_age_seconds]: a sweep that
    comes no later than that after the message leaves the session as the
    message left it. *)
Theorem message_keeps_the_session (now later : Q)
    (call_sid role content : string) (metadata : option dict)
    (max_age_seconds : Z) (m : manager) :
  truthy call_sid = true ->
  truthy role = true ->
  (later - now <= inject_Z max_age_seconds)%Q ->
  let m1 :=
    (add_conversation_message now call_sid role (Some content) metadata m).2 in
  is_Some (conversations m1 !! call_sid)
  /\ conversations (cleanup_stale_conversations later max_age_seconds m1).2
       !! call_sid
     = conversations m1 !! call_sid.
Proof.
  intros Hsid Hrole Hage m1. subst m1.
  rewrite (add_conversation_message_shape now call_sid role content metadata
             m Hsid Hrole). cbn [snd].
  set (c1 := Conversation _ _ _ _). set (m1 := Manager _ _ _).
  assert (Hc1 : conversations m1 !! call_sid = Some c1).
  { subst m1. cbn [conversations]. apply lookup_insert_eq. }
  rewrite Hc1. split; [by eexists|].
  destruct (decide (0 < max_age_seconds)) as [HT|HT].
  - rewrite (cleanup_stale_conversations_lookup later max_age_seconds m1
               call_sid c1 HT Hc1).
    unfold conversation_is_stale. subst c1. cbn.
    by apply Qltb_ge in Hage as ->.
  - unfold cleanup_stale_conversations.
    by destruct (max_age_seconds <=? 0) eqn:E; [|lia].
Qed.

(** A message at time 10 and a sweep at time 70 with a threshold of 60
    seconds. *)
Lemma message_keeps_the_session_witness :
  let m1 :=
    (add_conversation_message 10 "CA1" "user" (Some "hello") None
       global_enhanced_conversation_manager).2 in
  is_Some (conversations m1 !! "CA1")
  /\ conversations (cleanup_stale_conversations 70 60 m1).2 !! "CA1"
     = conversations m1 !! "CA1".
Proof.
  refine (message_keeps_the_session 10 70 "CA1" "user" "hello" None 60
            global_enhanced_conversation_manager eq_refl eq_refl _).
  vm_compute. discriminate.
Defined.

End SweepAndResponses.

(** ** The chunker on an example *)

Section ChunkerExamples.
Import Py Chunker Spec.

(** Two sentences that do not fit one chunk of 20 characters. *)
Lemma chunk_response_groups_witness :
  exists groups,
    concat groups = split_sentences "Rates are low. Call us today."
    /\ Forall (fun g => g <> []) groups
    /\ _chunk_response "Rates are low. Call us today." 20
       = strip <$> List.filter truthy (join " " <$> groups).
Proof.
  apply (chunk_response_groups "Rates are low. Call us today." 20).
  vm_compute. reflexivity.
Defined.

End ChunkerExamples.
